(** * bruno-wordpress-converter: the schema-to-collection engine

    A shallow embedding of [src/wordpress/wordpress-to-bruno.js] and
    [src/utils/wordpress-utils.js], and the properties of the engine.

    Conventions of the embedding.
    - A JavaScript value is a JSON document ([jsval]) or [undefined]; the
      member list of an object is its own enumerable properties in
      enumeration order, every name once.  Numbers are the integers a
      double holds; [JNum n] prints as the double nearest to [n] does.
      Strings are texts in UTF-8, and the [length] and the indices of a
      string count bytes.
    - Property reads on a document are reads of own properties, plus
      [length] and the indices of arrays and strings: none of the fixed
      names the code reads on a document is inherited.  The request body,
      which is read under computed names, has its prototype
      ([Js.object]): [Object.prototype], or what an argument named
      [__proto__] puts in its place.  The table of type replacements is
      read under computed names too; there the type stands for a member
      the table inherits (see [normalizeWordPressType]).
    - A computation ends in [Ok v], in [Throw TypeError] where the engine
      throws, or in [Stuck OutOfFuel] where the recursion budget of the
      embedding is used up. *)

From Stdlib Require Import String Ascii List ZArith Bool Lia Arith DecimalString Decimal.
From Stdlib Require Import Permutation.
Import ListNotations.
Open Scope string_scope.

(** ** Strings and the regular expressions of the engine *)

Module Str.

Definition dquote : string := String (ascii_of_nat 34) "".
Definition newline : string := String (ascii_of_nat 10) "".

Definition between (lo hi : nat) (c : ascii) : bool :=
  (lo <=? nat_of_ascii c)%nat && (nat_of_ascii c <=? hi)%nat.

(** [\d] and [\w] without the unicode flag. *)
Definition is_digit (c : ascii) : bool := between 48 57 c.
Definition is_word (c : ascii) : bool :=
  between 65 90 c || between 97 122 c || is_digit c || Ascii.eqb c "_"%char.

Definition upper_char (c : ascii) : ascii :=
  if between 97 122 c then ascii_of_nat (nat_of_ascii c - 32) else c.

(** The canonical form of a text under the flag [i] of a regular expression
    without the flag [u]: the letters a-z become A-Z, and a character outside
    ASCII never becomes one of ASCII. *)
Fixpoint canonicalize (s : string) : string :=
  match s with
  | EmptyString => EmptyString
  | String c r => String (upper_char c) (canonicalize r)
  end.

Definition is_byte (n : nat) (c : ascii) : bool := Ascii.eqb c (ascii_of_nat n).

(** The characters outside ASCII whose upper case is made of letters of
    ASCII, by their bytes in UTF-8: U+00DF (sharp s), U+0131 (dotless i),
    U+017F (long s), and the ligatures U+FB00 to U+FB06. *)
Definition upper_of_two (a b : ascii) : option string :=
  if is_byte 195 a && is_byte 159 b then Some "SS"
  else if is_byte 196 a && is_byte 177 b then Some "I"
  else if is_byte 197 a && is_byte 191 b then Some "S"
  else None.

Definition upper_of_three (a b c : ascii) : option string :=
  if is_byte 239 a && is_byte 172 b then
    if is_byte 128 c then Some "FF"
    else if is_byte 129 c then Some "FI"
    else if is_byte 130 c then Some "FL"
    else if is_byte 131 c then Some "FFI"
    else if is_byte 132 c then Some "FFL"
    else if is_byte 133 c || is_byte 134 c then Some "ST"
    else None
  else None.

(** [s.toUpperCase()], on text in UTF-8.  The letters a-z and the ten
    characters above are the characters whose upper case lies in ASCII; the
    upper case of any other character holds a character outside ASCII, and
    the definition leaves such a character as it is.  So the result is
    exact for text of ASCII and for the ten characters, and whether it
    equals a given text of ASCII is exact for every text. *)
Fixpoint toUpperCase (s : string) : string :=
  match s with
  | EmptyString => EmptyString
  | String a r =>
      match r with
      | EmptyString => String (upper_char a) EmptyString
      | String b r2 =>
          match upper_of_two a b with
          | Some t => t ++ toUpperCase r2
          | None =>
              match r2 with
              | EmptyString => String (upper_char a) (toUpperCase r)
              | String c r3 =>
                  match upper_of_three a b c with
                  | Some t => t ++ toUpperCase r3
                  | None => String (upper_char a) (toUpperCase r)
                  end
              end
          end
      end
  end.

Fixpoint strip_prefix (p s : string) : option string :=
  match p, s with
  | EmptyString, _ => Some s
  | String a p', String b s' => if Ascii.eqb a b then strip_prefix p' s' else None
  | String _ _, EmptyString => None
  end.

(** [s.includes(t)] *)
Fixpoint includes (s t : string) : bool :=
  match strip_prefix t s with
  | Some _ => true
  | None => match s with
            | EmptyString => false
            | String _ r => includes r t
            end
  end.

(** The longest prefix whose characters satisfy [p], and what follows it:
    a greedy [c+] whose successor in the pattern lies outside the class [c]
    can only match that prefix. *)
Fixpoint take_while (p : ascii -> bool) (s : string) : string * string :=
  match s with
  | EmptyString => (EmptyString, EmptyString)
  | String c r =>
      if p c then let '(a, b) := take_while p r in (String c a, b)
      else (EmptyString, s)
  end.

Definition is_empty (s : string) : bool :=
  match s with EmptyString => true | _ => false end.

Definition char_in (cs : string) (c : ascii) : bool :=
  includes cs (String c "").

(** [/\(\?P<(\w+)>[^)]+\)/] at the head of [s]: the captured name and the
    text after the match. *)
Definition match_group (s : string) : option (string * string) :=
  match strip_prefix "(?P<" s with
  | None => None
  | Some r1 =>
      let '(name, r2) := take_while is_word r1 in
      if is_empty name then None else
      match strip_prefix ">" r2 with
      | None => None
      | Some r3 =>
          let '(pat, r4) := take_while (fun c => negb (Ascii.eqb c ")"%char)) r3 in
          if is_empty pat then None else
          match strip_prefix ")" r4 with
          | None => None
          | Some r5 => Some (name, r5)
          end
      end
  end.

(** [s.replace(/\(\?P<(\w+)>[^)]+\)/g, repl)], where [repl] is given the
    captured name.  Every step consumes a character, so [length s] steps
    suffice. *)
Fixpoint replace_groups_from (fuel : nat) (repl : string -> string) (s : string) : string :=
  match fuel with
  | O => s
  | S fuel' =>
      match s with
      | EmptyString => EmptyString
      | String c r =>
          match match_group s with
          | Some (name, r') => repl name ++ replace_groups_from fuel' repl r'
          | None => String c (replace_groups_from fuel' repl r)
          end
      end
  end.

Definition replace_groups (repl : string -> string) (s : string) : string :=
  replace_groups_from (String.length s) repl s.

(** The captures of [s.matchAll(/\(\?P<(\w+)>[^)]+\)/g)]. *)
Fixpoint group_names_from (fuel : nat) (s : string) : list string :=
  match fuel with
  | O => []
  | S fuel' =>
      match s with
      | EmptyString => []
      | String c r =>
          match match_group s with
          | Some (name, r') => name :: group_names_from fuel' r'
          | None => group_names_from fuel' r
          end
      end
  end.

Definition group_names (s : string) : list string :=
  group_names_from (String.length s) s.

(** [/\{[\w_]+\}/] at the head of [s]. *)
Definition match_brace (s : string) : option string :=
  match strip_prefix "{" s with
  | None => None
  | Some r1 =>
      let '(name, r2) := take_while is_word r1 in
      if is_empty name then None else strip_prefix "}" r2
  end.

(** [s.replace(/\{[\w_]+\}/g, by)] *)
Fixpoint replace_braces_from (fuel : nat) (by_ : string) (s : string) : string :=
  match fuel with
  | O => s
  | S fuel' =>
      match s with
      | EmptyString => EmptyString
      | String c r =>
          match match_brace s with
          | Some r' => by_ ++ replace_braces_from fuel' by_ r'
          | None => String c (replace_braces_from fuel' by_ r)
          end
      end
  end.

Definition replace_braces (by_ : string) (s : string) : string :=
  replace_braces_from (String.length s) by_ s.

(** The capture of the first match of [/\/wp\/v2\/(\w+)/] in [s]. *)
Fixpoint match_resource (s : string) : option string :=
  let here :=
    match strip_prefix "/wp/v2/" s with
    | None => None
    | Some r => let '(w, _) := take_while is_word r in
                if is_empty w then None else Some w
    end in
  match here with
  | Some w => Some w
  | None => match s with
            | EmptyString => None
            | String _ r => match_resource r
            end
  end.

(** [/\/([^/]+\/v\d+)\/([^/:?]+)/] at the head of [s]: both captures. *)
Definition match_namespace_at (s : string) : option (string * string) :=
  match strip_prefix "/" s with
  | None => None
  | Some r =>
      let '(seg, r1) := take_while (fun c => negb (Ascii.eqb c "/"%char)) r in
      if is_empty seg then None else
      match strip_prefix "/v" r1 with
      | None => None
      | Some r2 =>
          let '(ds, r3) := take_while is_digit r2 in
          if is_empty ds then None else
          match strip_prefix "/" r3 with
          | None => None
          | Some r4 =>
              let '(res, _) := take_while (fun c => negb (char_in "/:?" c)) r4 in
              if is_empty res then None else Some (seg ++ "/v" ++ ds, res)
          end
      end
  end.

(** The captures of the first match of that expression in [s]. *)
Fixpoint match_namespace (s : string) : option (string * string) :=
  match match_namespace_at s with
  | Some m => Some m
  | None => match s with
            | EmptyString => None
            | String _ r => match_namespace r
            end
  end.

(** [s.replace(/\//g, '-')] *)
Fixpoint slashes_to_dashes (s : string) : string :=
  match s with
  | EmptyString => EmptyString
  | String c r => String (if Ascii.eqb c "/"%char then "-"%char else c) (slashes_to_dashes r)
  end.

Definition of_nat (n : nat) : string := NilZero.string_of_uint (Nat.to_uint n).
Definition of_Z (n : Z) : string := NilZero.string_of_int (Z.to_int n).

(** *** The text of a number

    A number of the embedding is the double nearest to an integer.  The
    integers up to [2^53] are doubles; above, a double is a multiple of a
    power of two with a significand of 53 bits, and a tie between two
    doubles goes to the even significand. *)
Definition round_to_double (a : Z) : Z :=
  if (a <=? Z.shiftl 1 53)%Z then a
  else
    let e := (Z.log2 a - 52)%Z in
    let q := Z.shiftr a e in
    let r := (a - Z.shiftl q e)%Z in
    let half := Z.shiftl 1 (e - 1) in
    let q' := if (half <? r)%Z || ((r =? half)%Z && Z.odd q) then (q + 1)%Z else q in
    Z.shiftl q' e.

Definition digits_count (a : Z) : Z := Z.of_nat (String.length (of_Z a)).

(** The integer with [k] significant digits that reads back as the double
    [v], when there is one: of the two multiples of [10^(d-k)] around [v],
    the one that rounds to [v], the nearer one when both do, the one with
    the even digits on a tie. *)
Definition shortest_with (v k : Z) : option Z :=
  let q := (digits_count v - k)%Z in
  if (q <? 0)%Z then None
  else
    let p := (10 ^ q)%Z in
    let lo := (v / p * p)%Z in
    let hi := (lo + p)%Z in
    match (round_to_double lo =? v)%Z, (round_to_double hi =? v)%Z with
    | true, true =>
        if (v - lo <? hi - v)%Z then Some lo
        else if (hi - v <? v - lo)%Z then Some hi
        else if Z.even (v / p) then Some lo else Some hi
    | true, false => Some lo
    | false, true => Some hi
    | false, false => None
    end.

Fixpoint shortest_from (fuel : nat) (v k : Z) : Z :=
  match fuel with
  | O => v
  | S fuel' =>
      match shortest_with v k with
      | Some c => c
      | None => shortest_from fuel' v (k + 1)
      end
  end.

(** Seventeen digits tell any two doubles apart. *)
Definition shortest (v : Z) : Z := shortest_from 17 v 1.

Fixpoint drop_trailing_zeros (s : string) : string :=
  match s with
  | EmptyString => EmptyString
  | String c r =>
      let r' := drop_trailing_zeros r in
      if is_empty r' && Ascii.eqb c "0"%char then EmptyString else String c r'
  end.

(** [d.ddde+n] for an integer of more than 21 digits. *)
Definition exponent_text (digits : string) : string :=
  let n := String.length digits in
  match drop_trailing_zeros digits with
  | EmptyString => digits
  | String d EmptyString => String d ("e+" ++ of_nat (n - 1))
  | String d r => String d ("." ++ r ++ "e+" ++ of_nat (n - 1))
  end.

(** Number::toString of the double nearest to [n]: the digits of the
    shortest decimal that reads back as that double, in plain notation up to
    21 digits and in exponent notation beyond. *)
Definition of_number (n : Z) : string :=
  if (Z.abs n <=? Z.shiftl 1 53)%Z then of_Z n
  else
    let sign := if (n <? 0)%Z then "-" else "" in
    let v := round_to_double (Z.abs n) in
    if (Z.shiftl 1 1024 <=? v)%Z then sign ++ "Infinity"
    else
      let digits := of_Z (shortest v) in
      sign ++ (if (String.length digits <=? 21)%nat then digits
               else exponent_text digits).

(** *** The number of a text

    StringToNumber, as far as the sign of the result: white space around a
    numeric literal, which is [Infinity], a decimal literal with an optional
    sign, or a binary, octal or hexadecimal integer without a sign.  Any
    other text is NaN, and the empty text is 0. *)
Definition is_space (c : ascii) : bool := between 9 13 c || is_byte 32 c.

(** White space outside ASCII, in UTF-8: U+00A0; U+1680, U+2000 to U+200A,
    U+2028, U+2029, U+202F, U+205F, U+3000 and U+FEFF. *)
Definition space_of_two (a b : ascii) : bool := is_byte 194 a && is_byte 160 b.

Definition space_of_three (a b c : ascii) : bool :=
  (is_byte 225 a && is_byte 154 b && is_byte 128 c)
  || (is_byte 226 a && is_byte 128 b
      && (between 128 138 c || is_byte 168 c || is_byte 169 c || is_byte 175 c))
  || (is_byte 226 a && is_byte 129 b && is_byte 159 c)
  || (is_byte 227 a && is_byte 128 b && is_byte 128 c)
  || (is_byte 239 a && is_byte 187 b && is_byte 191 c).

Fixpoint skip_space (s : string) : string :=
  match s with
  | EmptyString => s
  | String a r =>
      if is_space a then skip_space r
      else
        match r with
        | EmptyString => s
        | String b r2 =>
            if space_of_two a b then skip_space r2
            else
              match r2 with
              | EmptyString => s
              | String c r3 => if space_of_three a b c then skip_space r3 else s
              end
        end
  end.

Fixpoint digits_Z (acc : Z) (s : string) : Z :=
  match s with
  | EmptyString => acc
  | String c r => digits_Z (acc * 10 + Z.of_nat (nat_of_ascii c - 48)) r
  end.

(** An exponent part at the head of [s]: its value and what follows it;
    when there is none, nothing is consumed. *)
Definition parse_exponent (s : string) : Z * string :=
  match s with
  | String c r =>
      if Ascii.eqb c "e"%char || Ascii.eqb c "E"%char then
        let '(negative, r1) :=
          match r with
          | String c1 r' =>
              if Ascii.eqb c1 "+"%char then (false, r')
              else if Ascii.eqb c1 "-"%char then (true, r')
              else (false, r)
          | EmptyString => (false, r)
          end in
        let '(ds, rest) := take_while is_digit r1 in
        if is_empty ds then (0%Z, s)
        else ((if negative then - digits_Z 0 ds else digits_Z 0 ds)%Z, rest)
      else (0%Z, s)
  | EmptyString => (0%Z, s)
  end.

(** An unsigned decimal literal at the head of [s]: the digits before and
    after the point, the exponent, and what follows. *)
Definition parse_decimal (s : string) : option (string * string * Z * string) :=
  let '(ip, r1) := take_while is_digit s in
  let '(fp, r2) :=
    match strip_prefix "." r1 with
    | Some r => take_while is_digit r
    | None => (EmptyString, r1)
    end in
  if is_empty ip && is_empty fp then None
  else let '(e, r3) := parse_exponent r2 in Some (ip, fp, e, r3).

(** The double nearest to [m * 10^e] is above 0: a value up to [2^-1075]
    rounds to 0. *)
Definition positive_value (m e : Z) : bool :=
  (0 <? m)%Z
  && ((0 <=? e)%Z || (10 ^ (- e) <? m * Z.shiftl 1 1075)%Z).

Fixpoint all_zero (s : string) : bool :=
  match s with
  | EmptyString => true
  | String c r => Ascii.eqb c "0"%char && all_zero r
  end.

Definition is_hex (c : ascii) : bool :=
  is_digit c || between 65 70 c || between 97 102 c.

(** A binary, octal or hexadecimal integer at the head of [s]: whether a
    digit of it is not 0, and what follows. *)
Definition parse_non_decimal (s : string) : option (bool * string) :=
  match s with
  | String z (String x r) =>
      if Ascii.eqb z "0"%char then
        let digit :=
          if Ascii.eqb x "x"%char || Ascii.eqb x "X"%char then Some is_hex
          else if Ascii.eqb x "o"%char || Ascii.eqb x "O"%char then Some (between 48 55)
          else if Ascii.eqb x "b"%char || Ascii.eqb x "B"%char then Some (between 48 49)
          else None in
        match digit with
        | Some p =>
            let '(ds, rest) := take_while p r in
            if is_empty ds then None
            else Some (negb (all_zero ds), rest)
        | None => None
        end
      else None
  | _ => None
  end.

(** [Number(s) > 0] *)
Definition positive_number (s : string) : bool :=
  let t := skip_space s in
  match parse_non_decimal t with
  | Some (positive, rest) => positive && is_empty (skip_space rest)
  | None =>
      let '(negative, u) :=
        match t with
        | String c r =>
            if Ascii.eqb c "+"%char then (false, r)
            else if Ascii.eqb c "-"%char then (true, r)
            else (false, t)
        | EmptyString => (false, t)
        end in
      match strip_prefix "Infinity" u with
      | Some rest => negb negative && is_empty (skip_space rest)
      | None =>
          match parse_decimal u with
          | Some (ip, fp, e, rest) =>
              negb negative && is_empty (skip_space rest)
              && positive_value (digits_Z 0 (ip ++ fp))
                   (e - Z.of_nat (String.length fp))
          | None => false
          end
      end
  end.

End Str.

(** ** JavaScript values *)

Module Js.

#[local] Set Warnings "-register-all".

Inductive jsval : Type :=
| JUndefined
| JNull
| JBool (b : bool)
| JNum (n : Z)
| JStr (s : string)
| JArr (elems : list jsval)
| JObj (members : list (string * jsval)).

(** The key an iteratee of lodash [each] receives: a property name for an
    object, a numeric index for an array or an array-like. *)
Inductive jskey : Type :=
| KStr (s : string)
| KIdx (i : nat).

Inductive js_error : Type := TypeError.
Inductive stuck_reason : Type := OutOfFuel.

Inductive result (A : Type) : Type :=
| Ok (a : A)
| Throw (e : js_error)
| Stuck (r : stuck_reason).
Arguments Ok {A} a.
Arguments Throw {A} e.
Arguments Stuck {A} r.

Definition bind {A B : Type} (m : result A) (k : A -> result B) : result B :=
  match m with
  | Ok a => k a
  | Throw e => Throw e
  | Stuck r => Stuck r
  end.

Notation "x <- m ;; k" := (bind m (fun x => k))
  (at level 61, m at next level, right associativity).

(** A loop [coll.forEach(f)] over the visited elements, with the loop state
    passed along; an exception leaves the loop. *)
Fixpoint foldM {A S : Type} (f : S -> A -> result S) (l : list A) (s : S) : result S :=
  match l with
  | [] => Ok s
  | a :: l' => s' <- f s a ;; foldM f l' s'
  end.

Definition MAX_SAFE_INTEGER : Z := 9007199254740991.

Fixpoint assoc (k : string) (m : list (string * jsval)) : option jsval :=
  match m with
  | [] => None
  | (k', v) :: m' => if String.eqb k k' then Some v else assoc k m'
  end.

Definition has_key (k : string) (m : list (string * jsval)) : bool :=
  match assoc k m with Some _ => true | None => false end.

Definition keys (m : list (string * jsval)) : list string := map fst m.

(** The value of a canonical numeric string (no sign, no leading zero). *)
Fixpoint digits_value (acc : N) (s : string) : option N :=
  match s with
  | EmptyString => Some acc
  | String c r =>
      if Str.is_digit c
      then digits_value (acc * 10 + N.of_nat (nat_of_ascii c - 48)) r
      else None
  end.

(** An array index: a canonical numeric string below [2^32 - 1]. *)
Definition array_index (k : string) : option nat :=
  match k with
  | EmptyString => None
  | String c r =>
      if Ascii.eqb c "0"%char && negb (Str.is_empty r) then None else
      match digits_value 0 k with
      | Some n => if (n <? 4294967295)%N then Some (N.to_nat n) else None
      | None => None
      end
  end.

Definition char_at (s : string) (i : nat) : jsval :=
  match String.get i s with
  | Some c => JStr (String c "")
  | None => JUndefined
  end.

(** [v.k] and [v[k]] for a string key: reading a member of [null] or
    [undefined] throws. *)
Definition get (v : jsval) (k : string) : result jsval :=
  match v with
  | JUndefined | JNull => Throw TypeError
  | JBool _ | JNum _ => Ok JUndefined
  | JStr s =>
      if String.eqb k "length" then Ok (JNum (Z.of_nat (String.length s)))
      else match array_index k with
           | Some i => Ok (char_at s i)
           | None => Ok JUndefined
           end
  | JArr l =>
      if String.eqb k "length" then Ok (JNum (Z.of_nat (List.length l)))
      else match array_index k with
           | Some i => Ok (nth i l JUndefined)
           | None => Ok JUndefined
           end
  | JObj m => Ok (match assoc k m with Some x => x | None => JUndefined end)
  end.

(** [v?.k] *)
Definition get_opt (v : jsval) (k : string) : result jsval :=
  match v with
  | JUndefined | JNull => Ok JUndefined
  | _ => get v k
  end.

(** ToBoolean *)
Definition truthy (v : jsval) : bool :=
  match v with
  | JUndefined | JNull => false
  | JBool b => b
  | JNum n => negb (n =? 0)%Z
  | JStr s => negb (Str.is_empty s)
  | JArr _ | JObj _ => true
  end.

(** [a || b] *)
Definition or_else (a b : jsval) : jsval := if truthy a then a else b.

Definition is_undefined (v : jsval) : bool :=
  match v with JUndefined => true | _ => false end.

(** [v === true] *)
Definition is_true (v : jsval) : bool :=
  match v with JBool true => true | _ => false end.

(** [v === 's'] for a string literal *)
Definition is_str (v : jsval) (s : string) : bool :=
  match v with JStr s' => String.eqb s' s | _ => false end.

(** [k === 's'] for the key of an iteratee *)
Definition key_is (k : jskey) (s : string) : bool :=
  match k with KStr s' => String.eqb s' s | KIdx _ => false end.

(** [names.includes(k)] for a list of strings *)
Definition key_in (k : jskey) (names : list string) : bool :=
  match k with
  | KStr s => existsb (String.eqb s) names
  | KIdx _ => false
  end.

(** ToPropertyKey of the key of an iteratee *)
Definition key_name (k : jskey) : string :=
  match k with KStr s => s | KIdx i => Str.of_nat i end.

(** [Array.prototype.join]: [null] and [undefined] elements print as the
    empty string. *)
Definition join_with (to_s : jsval -> result string) (sep : string)
  : list jsval -> result string :=
  fix join (l : list jsval) : result string :=
    match l with
    | [] => Ok ""
    | x :: l' =>
        a <- match x with
             | JUndefined | JNull => Ok ""
             | _ => to_s x
             end ;;
        match l' with
        | [] => Ok a
        | _ :: _ => b <- join l' ;; Ok (a ++ sep ++ b)
        end
    end.

(** ToString, as [String(v)], a template literal and [v + 'text'] apply it.
    An object prints through the inherited [toString]; an own member of
    that name, which is not callable in a JSON document, leaves no
    conversion and throws. *)
Fixpoint to_string (v : jsval) : result string :=
  match v with
  | JUndefined => Ok "undefined"
  | JNull => Ok "null"
  | JBool true => Ok "true"
  | JBool false => Ok "false"
  | JNum n => Ok (Str.of_number n)
  | JStr s => Ok s
  | JArr l => join_with to_string "," l
  | JObj m => if has_key "toString" m then Throw TypeError else Ok "[object Object]"
  end.

(** [arr.join(sep)] *)
Definition join (sep : string) (l : list jsval) : result string :=
  join_with to_string sep l.

(** [v > 0]: a number compares by value, [undefined] and an object turn
    into NaN, [null] into 0, a boolean into 0 or 1, a string into the number
    it denotes, and an array into the number its text denotes. *)
Definition gt_zero (v : jsval) : result bool :=
  match v with
  | JUndefined | JNull => Ok false
  | JBool b => Ok b
  | JNum n => Ok (0 <? n)%Z
  | JStr s => Ok (Str.positive_number s)
  | JArr _ => s <- to_string v ;; Ok (Str.positive_number s)
  | JObj m => if has_key "toString" m then Throw TypeError else Ok false
  end.

(** SameValueZero on the values a JSON document holds: primitives compare by
    value, and two arrays or objects of a parsed document are never the same
    object. *)
Definition same_value (a b : jsval) : bool :=
  match a, b with
  | JUndefined, JUndefined => true
  | JNull, JNull => true
  | JBool x, JBool y => Bool.eqb x y
  | JNum x, JNum y => (x =? y)%Z
  | JStr x, JStr y => String.eqb x y
  | _, _ => false
  end.

(** [[...new Set(l)]]: the first occurrence of every value, in order. *)
Fixpoint dedupe_from (seen : list jsval) (l : list jsval) : list jsval :=
  match l with
  | [] => []
  | x :: l' =>
      if existsb (same_value x) seen then dedupe_from seen l'
      else x :: dedupe_from (x :: seen) l'
  end.

Definition dedupe (l : list jsval) : list jsval := dedupe_from [] l.

(** lodash [isArrayLike]: a string, an array, or an object whose [length]
    is a number that is a valid length. *)
Definition array_like_length (v : jsval) : option nat :=
  match v with
  | JStr s => Some (String.length s)
  | JArr l => Some (List.length l)
  | JObj m =>
      match assoc "length" m with
      | Some (JNum n) =>
          if (0 <=? n)%Z && (n <=? MAX_SAFE_INTEGER)%Z then Some (Z.to_nat n) else None
      | _ => None
      end
  | _ => None
  end.

Definition at_index (v : jsval) (i : nat) : jsval :=
  match v with
  | JStr s => char_at s i
  | JArr l => nth i l JUndefined
  | JObj m => match assoc (Str.of_nat i) m with Some x => x | None => JUndefined end
  | _ => JUndefined
  end.

(** The calls lodash [each(coll, f)] makes, as the list of (key, value)
    pairs [f] receives: the indices [0 .. length-1] of an array-like, the
    own members of any other object, nothing for another value. *)
Definition each_entries (coll : jsval) : list (jskey * jsval) :=
  match array_like_length coll with
  | Some n => map (fun i => (KIdx i, at_index coll i)) (seq 0 n)
  | None =>
      match coll with
      | JObj m => map (fun kv => (KStr (fst kv), snd kv)) m
      | _ => []
      end
  end.

Fixpoint replace_member (k : string) (v : jsval) (m : list (string * jsval))
  : list (string * jsval) :=
  match m with
  | [] => []
  | (k', v') :: m' =>
      if String.eqb k k' then (k', v) :: m' else (k', v') :: replace_member k v m'
  end.

(** Where a new index key goes: own keys that are array indices enumerate
    first, in ascending order. *)
Fixpoint insert_index (i : nat) (k : string) (v : jsval) (m : list (string * jsval))
  : list (string * jsval) :=
  match m with
  | [] => [(k, v)]
  | (k', v') :: m' =>
      match array_index k' with
      | Some j => if (j <? i)%nat then (k', v') :: insert_index i k v m'
                  else (k, v) :: m
      | None => (k, v) :: m
      end
  end.

(** [obj[k] = v] on an object the engine builds. *)
Definition set (m : list (string * jsval)) (k : string) (v : jsval)
  : list (string * jsval) :=
  if String.eqb k "__proto__" then m
  else if has_key k m then replace_member k v m
  else match array_index k with
       | Some i => insert_index i k v m
       | None => m ++ [(k, v)]
       end.

(** *** Objects that are read under a computed key

    An object literal [{}] has the prototype [Object.prototype], whose
    members are functions, and the accessor [__proto__]: assigned an object
    or [null] it replaces the prototype of the receiver and creates no own
    property, assigned anything else it does nothing.  The engine assigns
    every key at most once, so [__proto__] is assigned while the prototype is
    still [Object.prototype]. *)
Inductive prototype : Type :=
| ObjectPrototype
| NoPrototype
| Installed (v : jsval).

Record object : Type := mkObject {
  own : list (string * jsval);
  parent : prototype
}.

(** [{}] *)
Definition empty_object : object := mkObject [] ObjectPrototype.

(** The names of the members of [Object.prototype]. *)
Definition Object_prototype_names : list string :=
  [ "constructor"; "__defineGetter__"; "__defineSetter__"; "hasOwnProperty";
    "__lookupGetter__"; "__lookupSetter__"; "isPrototypeOf";
    "propertyIsEnumerable"; "toString"; "valueOf"; "__proto__";
    "toLocaleString" ].

(** The names of the members of [Array.prototype] (ECMAScript 2023), [length]
    apart, which every array has as an own property. *)
Definition Array_prototype_names : list string :=
  [ "constructor"; "at"; "concat"; "copyWithin"; "fill"; "find"; "findIndex";
    "findLast"; "findLastIndex"; "lastIndexOf"; "pop"; "push"; "reverse";
    "shift"; "unshift"; "slice"; "sort"; "splice"; "includes"; "indexOf";
    "join"; "keys"; "entries"; "values"; "forEach"; "filter"; "flat";
    "flatMap"; "map"; "every"; "some"; "reduce"; "reduceRight";
    "toLocaleString"; "toString"; "toReversed"; "toSorted"; "toSpliced";
    "with" ].

Definition named (k : string) (names : list string) : bool :=
  existsb (String.eqb k) names.

(** [v[k] !== undefined] for an object or array of a document, whose
    prototype is [Object.prototype] or [Array.prototype]: an own property
    decides, and a member of the prototypes is never [undefined]. *)
Definition document_defines (v : jsval) (k : string) : bool :=
  match v with
  | JObj m =>
      match assoc k m with
      | Some x => negb (is_undefined x)
      | None => named k Object_prototype_names
      end
  | JArr l =>
      if String.eqb k "length" then true
      else match array_index k with
           | Some i => negb (is_undefined (nth i l JUndefined))
           | None => named k Array_prototype_names || named k Object_prototype_names
           end
  | _ => false
  end.

(** [o[k] !== undefined] *)
Definition defines (o : object) (k : string) : bool :=
  match assoc k (own o) with
  | Some x => negb (is_undefined x)
  | None =>
      match parent o with
      | ObjectPrototype => named k Object_prototype_names
      | NoPrototype => false
      | Installed v => document_defines v k
      end
  end.

(** [o[k] = v] *)
Definition assign (o : object) (k : string) (v : jsval) : object :=
  if String.eqb k "__proto__" then
    match v with
    | JObj _ | JArr _ => mkObject (own o) (Installed v)
    | JNull => mkObject (own o) NoPrototype
    | _ => o
    end
  else mkObject (set (own o) k v) (parent o).

(** The nesting depth of a document, the recursion budget of the functions
    that descend into it. *)
Fixpoint depth (v : jsval) : nat :=
  match v with
  | JArr l => S (list_max (map depth l))
  | JObj m => S (list_max (map (fun kv => depth (snd kv)) m))
  | _ => 0
  end.

(** The document a JSON text denotes.  [JSON.stringify] leaves out the
    members whose value is [undefined] and prints an [undefined] element of
    an array as [null]. *)
Fixpoint json_document (v : jsval) : jsval :=
  match v with
  | JArr l =>
      JArr (map (fun x => match x with
                          | JUndefined => JNull
                          | _ => json_document x
                          end) l)
  | JObj m =>
      JObj ((fix members (m : list (string * jsval)) : list (string * jsval) :=
               match m with
               | [] => []
               | (k, x) :: m' =>
                   match x with
                   | JUndefined => members m'
                   | _ => (k, json_document x) :: members m'
                   end
               end) m)
  | _ => v
  end.

(** A JSON text, represented by the document it denotes. *)
Inductive json_text : Type := JsonText (doc : jsval).

(** [JSON.stringify(v, null, 2)] of an object or array *)
Definition JSON_stringify (v : jsval) : json_text := JsonText (json_document v).

(** [JSON.parse(t)] *)
Definition JSON_parse (t : json_text) : jsval := match t with JsonText d => d end.

End Js.

Import Js.

(** ** [src/utils/wordpress-utils.js] *)

Module WordpressUtils.

Definition mapM {A B : Type} (f : A -> result B) : list A -> result (list B) :=
  fix go (l : list A) : result (list B) :=
    match l with
    | [] => Ok []
    | a :: l' => b <- f a ;; bs <- go l' ;; Ok (b :: bs)
    end.

Definition typeReplacements : list (string * jsval) :=
  [ ("date", JStr "string");
    ("date-time", JStr "string");
    ("email", JStr "string");
    ("hostname", JStr "string");
    ("ipv4", JStr "string");
    ("ipv6", JStr "string");
    ("uri", JStr "string");
    ("url", JStr "string");
    ("mixed", JStr "string");
    ("bool", JStr "boolean") ].

(** [typeReplacements[type] || type], the key being the type printed.
    Under a name that [Object.prototype] defines ([constructor],
    [toString], [__proto__], ...) the table yields the member it inherits,
    a built-in function or object and no document; the type itself stands
    for it here.  Like the type, that member is truthy, prints, is a key
    the table does not replace and is none of the names the engine compares
    a normalized type with, which is all the engine does with it. *)
Fixpoint normalizeWordPressType (type : jsval) : result jsval :=
  match type with
  | JArr l => ts <- mapM normalizeWordPressType l ;; Ok (JArr ts)
  | _ =>
      k <- to_string type ;;
      Ok (match assoc k typeReplacements with
          | Some t => or_else t type
          | None => type
          end)
  end.

Definition normalizeEnum (enumValues : jsval) : jsval :=
  match enumValues with
  | JArr l => JArr (dedupe l)
  | _ => enumValues
  end.

Definition collectionEndpoints : list string :=
  [ "/wp/v2/posts";
    "/wp/v2/pages";
    "/wp/v2/media";
    "/wp/v2/menu-items";
    "/wp/v2/blocks";
    "/wp/v2/templates";
    "/wp/v2/template-parts";
    "/wp/v2/navigation";
    "/wp/v2/font-families";
    "/wp/v2/categories";
    "/wp/v2/tags";
    "/wp/v2/menus";
    "/wp/v2/wp_pattern_category";
    "/wp/v2/users";
    "/wp/v2/comments";
    "/wp/v2/search";
    "/wp/v2/block-types";
    "/wp/v2/themes";
    "/wp/v2/plugins";
    "/wp/v2/sidebars";
    "/wp/v2/widget-types";
    "/wp/v2/widgets";
    "/wp/v2/block-directory/search";
    "/wp/v2/pattern-directory/patterns";
    "/wp/v2/block-patterns/patterns";
    "/wp/v2/block-patterns/categories";
    "/wp/v2/font-collections";
    "/wp/v2/posts/{parent}/revisions";
    "/wp/v2/posts/{id}/autosaves";
    "/wp/v2/pages/{parent}/revisions";
    "/wp/v2/pages/{id}/autosaves";
    "/wp/v2/menu-items/{id}/autosaves";
    "/wp/v2/blocks/{parent}/revisions";
    "/wp/v2/blocks/{id}/autosaves";
    "/wp/v2/templates/{parent}/revisions";
    "/wp/v2/templates/{id}/autosaves";
    "/wp/v2/template-parts/{parent}/revisions";
    "/wp/v2/template-parts/{id}/autosaves";
    "/wp/v2/global-styles/{parent}/revisions";
    "/wp/v2/global-styles/themes/{stylesheet}/variations";
    "/wp/v2/navigation/{parent}/revisions";
    "/wp/v2/navigation/{id}/autosaves";
    "/wp/v2/font-families/{font_family_id}/font-faces";
    "/wp/v2/users/{user_id}/application-passwords" ].

Definition isCollectionEndpoint (route : string) : bool :=
  let simplePath := Str.replace_groups (fun _ => "{param}") route in
  existsb (fun endpoint =>
             let endpointPattern := Str.replace_braces "{param}" endpoint in
             String.eqb simplePath endpointPattern)
          collectionEndpoints.

Definition supportedConstraints : list string :=
  [ "minLength"; "maxLength"; "minimum"; "maximum"; "minItems"; "maxItems";
    "uniqueItems"; "enum"; "format"; "pattern"; "multipleOf" ].

Definition member (m : list (string * jsval)) (k : string) : jsval :=
  match assoc k m with Some v => v | None => JUndefined end.

(** The constraints object, as its member list. *)
Definition extractValidationConstraints (args : jsval) : result (list (string * jsval)) :=
  constraints <-
    foldM (fun cs constraint =>
             v <- get args constraint ;;
             Ok (if is_undefined v then cs else set cs constraint v))
          supportedConstraints [] ;;
  Ok (if truthy (member constraints "enum")
      then set constraints "enum" (normalizeEnum (member constraints "enum"))
      else constraints).

Inductive location : Type := LocPath | LocQuery | LocBody.

Definition getParameterLocation (method : string) (paramName : jskey)
           (pathParams : list string) : location :=
  if key_in paramName pathParams then LocPath
  else if String.eqb (Str.toUpperCase method) "GET" then LocQuery
  else LocBody.

Definition extractPathParameters (route : string) : list string :=
  Str.group_names route.

Definition isParameterRequired (argDef : jsval) (isPathParam : bool) : result bool :=
  if isPathParam then Ok true
  else
    required <- get argDef "required" ;;
    Ok (match required with
        | JBool b => b
        | _ => false
        end).

End WordpressUtils.

Import WordpressUtils.

(** ** [src/wordpress/wordpress-to-bruno.js] *)

Module WordpressToBruno.

(** The two things the engine takes from its environment: the identifiers
    [uuid()] draws (a descriptor records the rank of its draw) and the
    readings of the clock, [new Date().toISOString()]. *)
Record world : Type := mkWorld {
  next_uid : nat;
  clock : nat -> string;
  clock_reads : nat
}.

Definition M (A : Type) : Type := world -> result (A * world).

Definition ret {A : Type} (a : A) : M A := fun w => Ok (a, w).

Definition bindM {A B : Type} (m : M A) (k : A -> M B) : M B :=
  fun w => match m w with
           | Ok (a, w') => k a w'
           | Throw e => Throw e
           | Stuck r => Stuck r
           end.

Notation "x <~ m ;; k" := (bindM m (fun x => k))
  (at level 61, m at next level, right associativity).

Definition lift {A : Type} (r : result A) : M A :=
  fun w => match r with
           | Ok a => Ok (a, w)
           | Throw e => Throw e
           | Stuck s => Stuck s
           end.

Definition uuid : M nat :=
  fun w => Ok (next_uid w, mkWorld (S (next_uid w)) (clock w) (clock_reads w)).

Definition now_iso : M string :=
  fun w => Ok (clock w (clock_reads w),
               mkWorld (next_uid w) (clock w) (S (clock_reads w))).

Fixpoint forEachM {A S : Type} (f : S -> A -> M S) (l : list A) (s : S) : M S :=
  match l with
  | [] => ret s
  | a :: l' => s' <~ f s a ;; forEachM f l' s'
  end.

(** What a computation returns, the world left aside. *)
Definition value_of {A : Type} (r : result (A * world)) : result A :=
  match r with
  | Ok (a, _) => Ok a
  | Throw e => Throw e
  | Stuck s => Stuck s
  end.

(** [property.enum && property.enum.length > 0] *)
Definition has_enum (property : jsval) : result bool :=
  enum <- get property "enum" ;;
  if truthy enum then len <- get enum "length" ;; gt_zero len
  else Ok false.

(** The [default:] arm of the switch: contextual examples by field name,
    then by format. *)
Definition contextual_example (property : jsval) (name : jskey) : M jsval :=
  if key_is name "status" then ret (JStr "publish")
  else if key_is name "title" || key_is name "name" then ret (JStr "Example Title")
  else if key_is name "content" then ret (JStr "Example content")
  else if key_is name "excerpt" then ret (JStr "Example excerpt")
  else if key_is name "slug" then ret (JStr "example-slug")
  else if key_is name "password" then ret (JStr "")
  else if key_is name "author" then ret (JNum 1)
  else
    format <~ lift (get property "format") ;;
    if is_str format "date-time" then t <~ now_iso ;; ret (JStr t)
    else if is_str format "uri" then ret (JStr "https://example.com")
    else ret (JStr "").

(** The body of [generateExampleValue]; [self] stands for the function in
    its recursive call. *)
Definition generateExampleValue_body (self : jsval -> jskey -> M jsval)
           (property : jsval) (name : jskey) : M jsval :=
  e <~ lift (has_enum property) ;;
  if e then
    enum <~ lift (get property "enum") ;;
    lift (get enum "0")
  else
    default <~ lift (get property "default") ;;
    if negb (is_undefined default) then ret default
    else
      type <~ lift (get property "type") ;;
      normalizedType <~ lift (normalizeWordPressType (or_else type (JStr "string"))) ;;
      if is_str normalizedType "integer" then ret (JNum 0)
      else if is_str normalizedType "number" then ret (JNum 0)
      else if is_str normalizedType "boolean" then ret (JBool false)
      else if is_str normalizedType "array" then ret (JArr [])
      else if is_str normalizedType "object" then
        properties <~ lift (get property "properties") ;;
        if truthy properties then
          obj <~ forEachM
                   (fun obj entry =>
                      v <~ self (snd entry) (fst entry) ;;
                      ret (set obj (key_name (fst entry)) v))
                   (each_entries properties) [] ;;
          ret (JObj obj)
        else ret (JObj [])
      else contextual_example property name.

Fixpoint generateExampleValue_rec (fuel : nat) (property : jsval) (name : jskey)
  : M jsval :=
  match fuel with
  | O => lift (Stuck OutOfFuel)
  | S fuel' => generateExampleValue_body (generateExampleValue_rec fuel') property name
  end.

(** The recursion follows the nesting of the field definition, so its depth
    is a sufficient budget. *)
Definition generateExampleValue (property : jsval) (name : jskey) : M jsval :=
  generateExampleValue_rec (S (depth property)) property name.

Definition commonFields : list string :=
  [ "title"; "content"; "excerpt"; "status"; "author"; "slug"; "password";
    "name"; "description" ].

(** The iteratee of the loop over [args]. *)
Definition body_of_arg (method : string) (pathParams : list string)
           (body : object) (entry : jskey * jsval) : M object :=
  let '(argName, arg) := entry in
  if key_is argName "context" || key_in argName pathParams then ret body
  else
    readonly <~ lift (get arg "readonly") ;;
    if is_true readonly then ret body
    else
      match getParameterLocation method argName pathParams with
      | LocBody =>
          type <~ lift (get arg "type") ;;
          normalizedType <~ lift (normalizeWordPressType (or_else type (JStr "string"))) ;;
          default <~ lift (get arg "default") ;;
          enum <~ lift (get arg "enum") ;;
          format <~ lift (get arg "format") ;;
          let property :=
            JObj [ ("type", normalizedType);
                   ("default", default);
                   ("enum", if truthy enum then normalizeEnum enum else JUndefined);
                   ("format", format) ] in
          v <~ generateExampleValue property argName ;;
          ret (assign body (key_name argName) v)
      | _ => ret body
      end.

(** The iteratee of the loop over [schema.properties]. *)
Definition body_of_schema_property (body : object)
           (entry : jskey * jsval) : M object :=
  let '(name, property) := entry in
  if defines body (key_name name) then ret body
  else
    readonly <~ lift (get property "readonly") ;;
    if is_true readonly then ret body
    else if key_in name commonFields then
      v <~ generateExampleValue property name ;;
      ret (assign body (key_name name) v)
    else ret body.

(** The object [body] the two loops build. *)
Definition request_body_members (args schema : jsval) (method : string)
           (pathParams : list string) : M object :=
  body <~ (if truthy args
           then forEachM (body_of_arg method pathParams) (each_entries args) empty_object
           else ret empty_object) ;;
  properties <~ lift (get_opt schema "properties") ;;
  if truthy properties
  then forEachM body_of_schema_property (each_entries properties) body
  else ret body.

(** [Object.keys] and [JSON.stringify] see the own members; [null] is
    [None]. *)
Definition generateRequestBody (args schema : jsval) (method : string)
           (pathParams : list string) : M (option json_text) :=
  body <~ request_body_members args schema method pathParams ;;
  ret (if (0 <? List.length (keys (own body)))%nat
       then Some (JSON_stringify (JObj (own body)))
       else None).

(** *** Request descriptors *)

Inductive param_kind : Type := PathParam | QueryParam.

Record param : Type := mkParam {
  param_uid : nat;
  param_name : jskey;
  param_value : string;
  param_description : jsval;
  param_enabled : bool;
  param_type : param_kind
}.

Record header : Type := mkHeader {
  header_uid : nat;
  header_name : string;
  header_value : string;
  header_description : string;
  header_enabled : bool
}.

Inductive body_mode : Type := ModeNone | ModeJson.

(** [text] and [xml] stay [null], [formUrlEncoded] and [multipartForm]
    stay empty. *)
Record request_body : Type := mkBody {
  mode : body_mode;
  json : option json_text
}.

(** [auth] is always [{ mode: 'inherit', basic: null, bearer: null }];
    [script] and [vars] stay empty. *)
Record request : Type := mkRequest {
  url : string;
  method : string;
  headers : list header;
  params : list param;
  body : request_body;
  tests : string;
  assertions : list string
}.

(** [type] is always ['http-request'] and [seq] is always 1. *)
Record item : Type := mkItem {
  uid : nat;
  name : string;
  request_of : request
}.

Definition is_mutating (methodUpper : string) : bool :=
  existsb (String.eqb methodUpper) ["POST"; "PUT"; "PATCH"].

(** The switch on [methodUpper] that derives the display name. *)
Definition request_name (methodUpper route : string) : string :=
  let resource := match Str.match_resource route with
                  | Some r => r
                  | None => "resource"
                  end in
  let hasIdParam := Str.includes route "(?P<" in
  let isAutosave := Str.includes route "autosaves" in
  let isRevision := Str.includes route "revisions" in
  let isCollection := isCollectionEndpoint route in
  let matches_i (pat : string) :=
    Str.includes (Str.canonicalize route) (Str.canonicalize pat) in
  if String.eqb methodUpper "GET" then
    if isAutosave then
      if hasIdParam && matches_i "autosaves/(?P<id>"
      then "Get " ++ resource ++ " autosave by ID"
      else "List " ++ resource ++ " autosaves"
    else if isRevision then
      if hasIdParam && matches_i "revisions/(?P<id>"
      then "Get " ++ resource ++ " revision by ID"
      else "List " ++ resource ++ " revisions"
    else if hasIdParam then "Get " ++ resource ++ " by ID"
    else if isCollection then "List " ++ resource
    else "Get " ++ resource
  else if String.eqb methodUpper "POST" then
    if isAutosave then "Create " ++ resource ++ " autosave"
    else if isRevision then "Create " ++ resource ++ " revision"
    else "Create " ++ resource
  else if String.eqb methodUpper "PUT" || String.eqb methodUpper "PATCH" then
    "Update " ++ resource
  else if String.eqb methodUpper "DELETE" then
    if isAutosave then "Delete " ++ resource ++ " autosave"
    else if isRevision then "Delete " ++ resource ++ " revision"
    else "Delete " ++ resource
  else methodUpper ++ " " ++ route.

(** [description += text] *)
Definition append_text (description : jsval) (text : string) : result jsval :=
  d <- to_string description ;;
  Ok (JStr (d ++ text)).

(** [description += description ? '. ' : ''] *)
Definition append_separator (description : jsval) : result jsval :=
  append_text description (if truthy description then ". " else "").

(** The description of a query parameter, with its validation info. *)
Definition query_description (arg : jsval) (constraints : list (string * jsval))
  : result jsval :=
  d0 <- get arg "description" ;;
  let description := or_else d0 (JStr "") in
  let enum := member constraints "enum" in
  let minLength := member constraints "minLength" in
  let maxLength := member constraints "maxLength" in
  description <-
    (if truthy enum then
       d1 <- append_separator description ;;
       allowed <- match enum with
                  | JArr l => join ", " l
                  | _ => Throw TypeError
                  end ;;
       append_text d1 ("Allowed values: " ++ allowed)
     else Ok description) ;;
  if truthy minLength || truthy maxLength then
    d1 <- append_separator description ;;
    d2 <- (if truthy minLength
           then t <- to_string minLength ;; append_text d1 ("Min length: " ++ t)
           else Ok d1) ;;
    d3 <- (if truthy minLength && truthy maxLength
           then append_text d2 ", "
           else Ok d2) ;;
    if truthy maxLength
    then t <- to_string maxLength ;; append_text d3 ("Max length: " ++ t)
    else Ok d3
  else Ok description.

(** The iteratee of the loop over [args] in the transformer. *)
Definition param_of_arg (methodUpper : string) (pathParams : list string)
           (ps : list param) (entry : jskey * jsval) : M (list param) :=
  let '(argName, arg) := entry in
  if key_is argName "context" then ret ps
  else
    match getParameterLocation methodUpper argName pathParams with
    | LocPath =>
        u <~ uuid ;;
        d <~ lift (get arg "description") ;;
        ret (ps ++ [mkParam u argName "" (or_else d (JStr "")) true PathParam])%list
    | LocQuery =>
        default <~ lift (get arg "default") ;;
        defaultValue <~ lift (if negb (is_undefined default)
                              then to_string default
                              else Ok "") ;;
        isRequired <~ lift (isParameterRequired arg false) ;;
        constraints <~ lift (extractValidationConstraints arg) ;;
        description <~ lift (query_description arg constraints) ;;
        u <~ uuid ;;
        ret (ps ++ [mkParam u argName defaultValue description isRequired QueryParam])%list
    | LocBody => ret ps
    end.

Definition commonParams : list (string * string * string) :=
  [ ("page", "1", "Current page of the collection");
    ("per_page", "10", "Maximum number of items to be returned");
    ("search", "", "Limit results to those matching a string");
    ("orderby", "date", "Sort collection by object attribute");
    ("order", "desc", "Order sort attribute ascending or descending") ].

(** [params.find((p) => p.name === name)] finds an entry. *)
Definition has_param (ps : list param) (name : string) : bool :=
  existsb (fun p => key_is (param_name p) name) ps.

Definition add_common_param (ps : list param) (p : string * string * string)
  : M (list param) :=
  let '(name, value, description) := p in
  if negb (has_param ps name) then
    u <~ uuid ;;
    ret (ps ++ [mkParam u (KStr name) value (JStr description) false QueryParam])%list
  else ret ps.

Definition add_list_params (ps : list param) : M (list param) :=
  ps' <~ forEachM add_common_param commonParams ps ;;
  u <~ uuid ;;
  ret (ps' ++ [mkParam u (KStr "_embed") "1"
                 (JStr "Include embedded resources in response") false QueryParam])%list.

Definition status_test (methodUpper : string) : string :=
  let code := if String.eqb methodUpper "POST" then "201" else "200" in
  "test(" ++ Str.dquote ++ "Status code is " ++ code ++ Str.dquote ++ ", function() {"
  ++ Str.newline ++ "  expect(res.status).to.equal(" ++ code ++ ");"
  ++ Str.newline ++ "});".

Definition array_test : string :=
  Str.newline ++ Str.newline
  ++ "test(" ++ Str.dquote ++ "Response is an array" ++ Str.dquote ++ ", function() {"
  ++ Str.newline ++ "  expect(res.body).to.be.an('array');"
  ++ Str.newline ++ "});".

Definition transformWordPressEndpoint (route method_ : string)
           (endpoint schema : jsval) : M item :=
  let methodUpper := Str.toUpperCase method_ in
  args0 <~ lift (get endpoint "args") ;;
  let args := or_else args0 (JObj []) in
  let hasIdParam := Str.includes route "(?P<" in
  let isCollection := isCollectionEndpoint route in
  let name_ := request_name methodUpper route in
  let brunoUrl := Str.replace_groups (fun n => ":" ++ n) route in
  item_uid <~ uuid ;;
  headers_ <~ (if is_mutating methodUpper then
                 u <~ uuid ;;
                 ret [mkHeader u "Content-Type" "application/json" "" true]
               else ret []) ;;
  let pathParams := extractPathParameters route in
  ps <~ forEachM (param_of_arg methodUpper pathParams) (each_entries args) [] ;;
  ps <~ (if String.eqb methodUpper "GET" && negb hasIdParam
         then add_list_params ps
         else ret ps) ;;
  body_ <~ (if is_mutating methodUpper then
              bodyJson <~ generateRequestBody args schema methodUpper pathParams ;;
              ret (match bodyJson with
                   | Some text => mkBody ModeJson (Some text)
                   | None => mkBody ModeNone None
                   end)
            else ret (mkBody ModeNone None)) ;;
  let tests_ :=
    status_test methodUpper
    ++ (if String.eqb methodUpper "GET" && isCollection && negb hasIdParam
        then array_test else "") in
  ret (mkItem item_uid name_
         (mkRequest ("{{baseUrl}}" ++ brunoUrl) methodUpper headers_ ps body_ tests_ [])).

(** *** Folders *)

(** A resource folder holds descriptors, a namespace folder holds resource
    folders; [type] is ['folder'] for both. *)
Record resource_folder : Type := mkResourceFolder {
  rf_uid : nat;
  rf_name : string;
  rf_items : list item
}.

Record namespace_folder : Type := mkNamespaceFolder {
  nf_uid : nat;
  nf_name : string;
  nf_items : list resource_folder
}.

(** [namespaceMap]: a [Map] keeps its keys in insertion order. *)
Definition namespace_map : Type := list (string * namespace_folder).

Fixpoint map_get (k : string) (m : namespace_map) : option namespace_folder :=
  match m with
  | [] => None
  | (k', f) :: m' => if String.eqb k k' then Some f else map_get k m'
  end.

Fixpoint map_update (k : string) (g : namespace_folder -> namespace_folder)
         (m : namespace_map) : namespace_map :=
  match m with
  | [] => []
  | (k', f) :: m' =>
      if String.eqb k k' then (k', g f) :: m' else (k', f) :: map_update k g m'
  end.

(** [resourceFolder.items.push(item)] on the first folder named [resource]. *)
Fixpoint push_item (resource : string) (it : item) (fs : list resource_folder)
  : list resource_folder :=
  match fs with
  | [] => []
  | f :: fs' =>
      if String.eqb (rf_name f) resource
      then mkResourceFolder (rf_uid f) (rf_name f) (rf_items f ++ [it])%list :: fs'
      else f :: push_item resource it fs'
  end.

(** The iteratee of [items.forEach]. *)
Definition organize_item (m : namespace_map) (it : item) : M namespace_map :=
  match Str.match_namespace (url (request_of it)) with
  | None => ret m
  | Some (namespace, resource) =>
      m <~ (match map_get namespace m with
            | Some _ => ret m
            | None =>
                u <~ uuid ;;
                ret (m ++ [(namespace,
                            mkNamespaceFolder u (Str.slashes_to_dashes namespace) [])])%list
            end) ;;
      let found :=
        match map_get namespace m with
        | Some namespaceFolder =>
            existsb (fun folder => String.eqb (rf_name folder) resource)
                    (nf_items namespaceFolder)
        | None => false
        end in
      if found then
        ret (map_update namespace
               (fun f => mkNamespaceFolder (nf_uid f) (nf_name f)
                           (push_item resource it (nf_items f))) m)
      else
        u <~ uuid ;;
        ret (map_update namespace
               (fun f => mkNamespaceFolder (nf_uid f) (nf_name f)
                           (nf_items f ++ [mkResourceFolder u resource [it]])%list) m)
  end.

Definition organizeIntoFolders (items : list item) : M (list namespace_folder) :=
  m <~ forEachM organize_item items [] ;;
  ret (map snd m).

End WordpressToBruno.

Import WordpressToBruno.

(** ** Notions the properties are stated with *)

Module Spec.

(** A world to evaluate scenarios in. *)
Definition w0 : world := mkWorld 0 (fun n => "2024-01-01T00:00:0" ++ Str.of_nat n ++ ".000Z") 0.

(** *** Folder Organizer, in the words of its contract *)

(** The namespace and resource segments of a descriptor's URL. *)
Definition route_of (it : item) : option (string * string) :=
  Str.match_namespace (url (request_of it)).

(** The distinct elements of a list, each at its first occurrence. *)
Fixpoint first_seen (l : list string) : list string :=
  match l with
  | [] => []
  | x :: l' => x :: filter (fun y => negb (String.eqb y x)) (first_seen l')
  end.

Definition namespaces_of (items : list item) : list string :=
  first_seen (flat_map (fun it => match route_of it with
                                  | Some (ns, _) => [ns]
                                  | None => []
                                  end) items).

Definition resources_of (ns : string) (items : list item) : list string :=
  first_seen (flat_map (fun it => match route_of it with
                                  | Some (ns', r) => if String.eqb ns' ns then [r] else []
                                  | None => []
                                  end) items).

Definition members_of (ns r : string) (items : list item) : list item :=
  filter (fun it => match route_of it with
                    | Some (ns', r') => String.eqb ns' ns && String.eqb r' r
                    | None => false
                    end) items.

(** Namespaces in first-seen order, their resources in first-seen order,
    and under every resource the descriptors of that resource in input
    order. *)
Definition organize_spec (items : list item)
  : list (string * list (string * list item)) :=
  map (fun ns =>
         (Str.slashes_to_dashes ns,
          map (fun r => (r, members_of ns r items)) (resources_of ns items)))
      (namespaces_of items).

(** A folder tree without the identifiers of its folders. *)
Definition shape (folders : list namespace_folder)
  : list (string * list (string * list item)) :=
  map (fun f => (nf_name f, map (fun r => (rf_name r, rf_items r)) (nf_items f)))
      folders.

(** All descriptors filed somewhere in a folder tree. *)
Definition filed (folders : list namespace_folder) : list item :=
  flat_map (fun f => flat_map rf_items (nf_items f)) folders.

(** *** Time-dependent field definitions *)

(** The field has the [date-time] format and neither a non-empty enum nor a
    default. *)
Definition date_time_case (p : jsval) : bool :=
  match p with
  | JObj m =>
      is_str (member m "format") "date-time"
      && is_undefined (member m "default")
      && negb (match has_enum p with Ok true => true | _ => false end)
  | _ => false
  end.

(** The field, or a field nested in its [properties], is such a field. *)
Fixpoint time_dependent (p : jsval) : bool :=
  match p with
  | JObj m =>
      date_time_case p
      || existsb (fun kv =>
                    String.eqb (fst kv) "properties"
                    && match snd kv with
                       | JObj pm => existsb (fun kv' => time_dependent (snd kv')) pm
                       | JArr l => existsb time_dependent l
                       | _ => false
                       end) m
  | _ => false
  end.

(** *** What the transformer reads and prints

    The transformer throws where it reads a member of [null] or
    [undefined], where it prints an object that hides [toString] (in a
    template literal, in a concatenation, in a [join], as a property key or
    in a comparison), and where it calls [join] on an enum that is no list.
    The definitions below say, from the input alone, whether it gets
    there. *)


(** The member [k] of a value, [undefined] where there is none to read. *)
Definition prop (v : jsval) (k : string) : jsval :=
  match get v k with Ok x => x | _ => JUndefined end.

(** A value that prints: no object that hides [toString], in the value or,
    when it is a list, in its elements. *)
Fixpoint plain (v : jsval) : bool :=
  match v with
  | JArr l => forallb plain l
  | JObj m => negb (has_key "toString" m)
  | _ => true
  end.



(** A value above 0 as a number. *)
Definition positive (v : jsval) : bool :=
  match v with
  | JBool b => b
  | JNum n => (0 <? n)%Z
  | JStr s => Str.positive_number s
  | JArr _ => match to_string v with
              | Ok s => Str.positive_number s
              | _ => false
              end
  | _ => false
  end.
















(** *** Where the members of a request body come from *)

Definition object_keys (v : jsval) : list string :=
  match v with
  | JObj m => keys m
  | _ => []
  end.

(** [k] names an argument that is neither [context] nor a path parameter
    nor marked read-only. *)
Definition from_args (args : jsval) (pathParams : list string) (k : string) : Prop :=
  exists argName arg readonly,
    In (argName, arg) (each_entries args)
    /\ key_name argName = k
    /\ key_is argName "context" = false
    /\ key_in argName pathParams = false
    /\ get arg "readonly" = Ok readonly
    /\ is_true readonly = false.

(** [k] names a property of the resource schema that is on the list of
    common fields and not marked read-only. *)
Definition from_schema (schema : jsval) (k : string) : Prop :=
  exists properties name_ property readonly,
    get_opt schema "properties" = Ok properties
    /\ In (name_, property) (each_entries properties)
    /\ key_name name_ = k
    /\ key_in name_ commonFields = true
    /\ get property "readonly" = Ok readonly
    /\ is_true readonly = false.

(** *** Routes as literal text and named capture groups *)

Inductive segment : Type :=
| Lit (text : string)
| Group (name pattern : string).

(** [(?P<name>pattern)] *)
Definition segment_text (s : segment) : string :=
  match s with
  | Lit t => t
  | Group n p => "(?P<" ++ n ++ ">" ++ p ++ ")"
  end.

(** [:name] *)
Definition segment_template (s : segment) : string :=
  match s with
  | Lit t => t
  | Group n _ => ":" ++ n
  end.

Definition route_text (segs : list segment) : string :=
  String.concat "" (map segment_text segs).

Definition template_text (segs : list segment) : string :=
  String.concat "" (map segment_template segs).

Fixpoint all_chars (p : ascii -> bool) (s : string) : bool :=
  match s with
  | EmptyString => true
  | String c r => p c && all_chars p r
  end.

(** Literal text without an opening parenthesis; a capture group whose
    name is a word and whose pattern holds no closing parenthesis. *)
Definition simple_segment (s : segment) : bool :=
  match s with
  | Lit t => all_chars (fun c => negb (Ascii.eqb c "("%char)) t
  | Group n p =>
      negb (Str.is_empty n) && all_chars Str.is_word n
      && negb (Str.is_empty p) && all_chars (fun c => negb (Ascii.eqb c ")"%char)) p
  end.

(** *** The descriptor of the scenario "get a post by ID" *)

(** The one test of such a descriptor. *)
Definition status_200_test : string :=
  "test(" ++ Str.dquote ++ "Status code is 200" ++ Str.dquote ++ ", function() {"
  ++ Str.newline ++ "  expect(res.status).to.equal(200);"
  ++ Str.newline ++ "});".

Definition get_post_by_id (it : item) : Prop :=
  name it = "Get posts by ID"
  /\ url (request_of it) = "{{baseUrl}}/wp/v2/posts/:id"
  /\ (exists p, params (request_of it) = [p]
                /\ param_name p = KStr "id"
                /\ param_type p = PathParam
                /\ param_enabled p = true)
  /\ mode (body (request_of it)) = ModeNone
  /\ tests (request_of it) = status_200_test.

(** The argument mapping of an endpoint is empty. *)
Definition no_args (endpoint : jsval) : Prop :=
  exists args, get endpoint "args" = Ok args
               /\ each_entries (or_else args (JObj [])) = [].

End Spec.

Import Spec.

(** ** Notions the proofs are stated with *)

Module Inv.

(** An entry of a parameter list that is a path parameter of the route. *)
Definition path_entry (pathParams : list string) (p : param) : Prop :=
  param_type p = PathParam /\ key_in (param_name p) pathParams = true.

(** Membership in a list of names. *)
Definition mem (x : string) (l : list string) : bool := existsb (String.eqb x) l.

(** The state of the loop after the descriptors [l]. *)
Definition resource_inv (ns : string) (l : list item) (rf : resource_folder) : Prop :=
  rf_items rf = members_of ns (rf_name rf) l.

Definition folder_inv (l : list item) (entry : string * namespace_folder) : Prop :=
  nf_name (snd entry) = Str.slashes_to_dashes (fst entry)
  /\ map rf_name (nf_items (snd entry)) = resources_of (fst entry) l
  /\ Forall (resource_inv (fst entry) l) (nf_items (snd entry)).

Definition organize_inv (l : list item) (m : namespace_map) : Prop :=
  map fst m = namespaces_of l /\ Forall (folder_inv l) m.

End Inv.

Import Inv.

(** ** Further code of the utilities *)

Module SchemaCleaner.

Definition keysToRemove : list string := ["context"; "readonly"].

(** [cleanWordPressSchemaProperties]: what is falsy or not an object is
    returned as it is; otherwise the own keys are copied, in order, into a
    fresh object, [context] and [readonly] left out, with the values that
    are objects cleaned and the elements of the values that are arrays
    cleaned when they are objects or arrays.  The own keys of an array are
    its indices, so an array that is cleaned becomes an object.  A member
    list holds the own properties of an object in enumeration order, each
    key once, so [properties[key]] is the value listed with the key. *)
Fixpoint cleanWordPressSchemaProperties (properties : jsval) : jsval :=
  let clean_value (value : jsval) : jsval :=
    match value with
    | JObj _ => cleanWordPressSchemaProperties value
    | JArr items =>
        JArr (map (fun item => match item with
                               | JArr _ | JObj _ => cleanWordPressSchemaProperties item
                               | _ => item
                               end) items)
    | _ => value
    end in
  match properties with
  | JObj m =>
      JObj ((fix members (m : list (string * jsval)) (cleaned : list (string * jsval))
               : list (string * jsval) :=
               match m with
               | [] => cleaned
               | (key, value) :: m' =>
                   if existsb (String.eqb key) keysToRemove then members m' cleaned
                   else members m' (set cleaned key (clean_value value))
               end) m [])
  | JArr l =>
      JObj ((fix elements (i : nat) (l : list jsval) (cleaned : list (string * jsval))
               : list (string * jsval) :=
               match l with
               | [] => cleaned
               | value :: l' =>
                   elements (S i) l' (set cleaned (Str.of_nat i) (clean_value value))
               end) 0 l [])
  | _ => properties
  end.

End SchemaCleaner.
Import SchemaCleaner.

(** ** The helpers for Bruno collections *)

Module BrunoHelpers.

(** [Object.hasOwn(item, 'request') &&
     ['http-request', 'graphql-request'].includes(item.type) && !item.items]:
    [Object.hasOwn] throws on [null] and [undefined]; only an object has an
    own member [request]. *)
Definition isItemARequest (item : jsval) : result bool :=
  match item with
  | JUndefined | JNull => Throw TypeError
  | JObj m =>
      if has_key "request" m then
        type <- get item "type" ;;
        if is_str type "http-request" || is_str type "graphql-request" then
          items <- get item "items" ;;
          Ok (negb (truthy items))
        else Ok false
      else Ok false
  | _ => Ok false
  end.

(** [obj.k = v] where [obj] is an object. *)
Definition put (obj : jsval) (k : string) (v : jsval) : jsval :=
  match obj with
  | JObj m => JObj (set m k v)
  | _ => obj
  end.

(** The collection after the item that [each] passed under [key] was
    changed in place.  The collections are documents: trees, in which no
    object is a member of two. *)
Definition update_entry (coll : jsval) (key : jskey) (item : jsval) : jsval :=
  match coll, key with
  | JArr l, KIdx i => JArr (firstn i l ++ item :: skipn (S i) l)
  | JObj m, KIdx i => JObj (replace_member (Str.of_nat i) item m)
  | JObj m, KStr k => JObj (replace_member k item m)
  | _, _ => coll
  end.

(** The iteratee of [each] in [hydrateSeq], for the counter [index]: the
    item as it is left, and the counter.  [self] is [hydrateSeq]. *)
Definition hydrate_item (self : jsval -> result jsval) (index : Z) (item : jsval)
  : result (jsval * Z) :=
  isRequest <- isItemARequest item ;;
  seq <- (if isRequest then get item "seq" else Ok JUndefined) ;;
  let numbered := isRequest && negb (truthy seq) in
  let item1 := if numbered then put item "seq" (JNum index) else item in
  let index1 := if numbered then (index + 1)%Z else index in
  nested <- get item1 "items" ;;
  len <- get_opt nested "length" ;;
  if truthy len then
    nested' <- self nested ;;
    Ok (put item1 "items" nested', index1)
  else Ok (item1, index1).

(** [hydrateSeq(items)], which returns the items as it leaves them; an
    [items] that is [undefined] stands for the empty list, which [each]
    treats alike. *)
Definition hydrateSeq_body (self : jsval -> result jsval) (items : jsval) : result jsval :=
  r <- foldM (fun (st : jsval * Z) (entry : jskey * jsval) =>
                r <- hydrate_item self (snd st) (snd entry) ;;
                Ok (update_entry (fst st) (fst entry) (fst r), snd r))
             (each_entries items) (items, 1%Z) ;;
  Ok (fst r).

Fixpoint hydrateSeq_rec (fuel : nat) (items : jsval) : result jsval :=
  match fuel with
  | O => Stuck OutOfFuel
  | S fuel' => hydrateSeq_body (hydrateSeq_rec fuel') items
  end.

(** The recursion follows the nesting of the items, so their depth is a
    sufficient budget. *)
Definition hydrateSeq (items : jsval) : result jsval :=
  hydrateSeq_rec (S (depth items)) items.

(** [hydrateSeqInCollection]: the collection as it is returned. *)
Definition hydrateSeqInCollection (collection : jsval) : result jsval :=
  items <- get collection "items" ;;
  items' <- hydrateSeq items ;;
  Ok (match collection with
      | JObj m => if has_key "items" m then JObj (replace_member "items" items' m)
                  else collection
      | _ => collection
      end).

(** *** [transformItemsInCollection] *)

(** The outcomes of a run that changes documents in place: beside a value,
    an exception and an exhausted budget, the run can leave the documents,
    when it gives an array a named member. *)
Inductive run (A : Type) : Type :=
| Returns (a : A)
| Raises (e : js_error)
| Halts (r : stuck_reason)
| NotADocument.
Arguments Returns {A} a.
Arguments Raises {A} e.
Arguments Halts {A} r.
Arguments NotADocument {A}.

Definition of_result {A : Type} (r : result A) : run A :=
  match r with
  | Ok a => Returns a
  | Throw e => Raises e
  | Stuck s => Halts s
  end.

Definition bind_run {A B : Type} (m : run A) (k : A -> run B) : run B :=
  match m with
  | Returns a => k a
  | Raises e => Raises e
  | Halts r => Halts r
  | NotADocument => NotADocument
  end.

Notation "x <-- m ;; k" := (bind_run m (fun x => k))
  (at level 61, m at next level, right associativity).

Fixpoint fold_run {A S : Type} (f : S -> A -> run S) (l : list A) (s : S) : run S :=
  match l with
  | [] => Returns s
  | a :: l' => s' <-- f s a ;; fold_run f l' s'
  end.

(** The members [{...v}] copies: the own members of an object, the elements
    of an array and the characters of a string under their indices, nothing
    for another value. *)
Definition indexed (l : list jsval) : list (string * jsval) :=
  combine (map Str.of_nat (seq 0 (List.length l))) l.

Definition spread (v : jsval) : list (string * jsval) :=
  match v with
  | JObj m => m
  | JArr l => indexed l
  | JStr s => indexed (map (fun c => JStr (String c "")) (list_ascii_of_string s))
  | _ => []
  end.

(** [delete v.k] *)
Definition delete (v : jsval) (k : string) : jsval :=
  match v with
  | JObj m => JObj (filter (fun kv => negb (String.eqb (fst kv) k)) m)
  | _ => v
  end.

(** lodash [baseGet]: the value at the end of a path, [undefined] when the
    path meets [null] or [undefined] before its end. *)
Fixpoint baseGet (v : jsval) (path : list string) : jsval :=
  match path with
  | [] => v
  | k :: ks =>
      match get v k with
      | Ok x => baseGet x ks
      | _ => JUndefined
      end
  end.

(** lodash [castPath] of ['request.body.multipartForm']: the text is one key
    when the item has a member of that name, and a path of three keys
    otherwise. *)
Definition multipartForm_path (item : jsval) : list string :=
  match item with
  | JObj m =>
      if has_key "request.body.multipartForm" m
      then ["request.body.multipartForm"]
      else ["request"; "body"; "multipartForm"]
  | _ => ["request"; "body"; "multipartForm"]
  end.

(** The document after the value at the end of a path of own members was
    changed in place. *)
Fixpoint update_path (v : jsval) (path : list string) (x : jsval) : jsval :=
  match path with
  | [] => x
  | k :: ks =>
      match v with
      | JObj m =>
          JObj (replace_member k
                  (update_path (match assoc k m with Some y => y | None => JUndefined end)
                     ks x) m)
      | _ => v
      end
  end.

(** The loop over the multipart forms: [if (!form.type) form.type = 'text'].
    The module is in strict mode, where a primitive takes no member. *)
Definition transform_forms (forms : jsval) : run jsval :=
  fold_run (fun (coll : jsval) (entry : jskey * jsval) =>
              let form := snd entry in
              type <-- of_result (get form "type") ;;
              if truthy type then Returns coll
              else match form with
                   | JObj m =>
                       Returns (update_entry coll (fst entry)
                                  (JObj (set m "type" (JStr "text"))))
                   | JArr _ => NotADocument
                   | _ => Raises TypeError
                   end)
           (each_entries forms) forms.

(** The body of [if (['http', 'graphql'].includes(item.type))], for an item
    with the members [m] whose type is [type]. *)
Definition transform_request (m : list (string * jsval)) (type : string) : run jsval :=
  let item := JObj (set m "type" (JStr (type ++ "-request"))) in
  request <-- of_result (get item "request") ;;
  query <-- of_result (get request "query") ;;
  request <-- (if truthy query then
                 match query with
                 | JArr queryItems =>
                     Returns (put request "params"
                               (JArr (map (fun queryItem =>
                                             JObj (set (spread queryItem) "type"
                                                     (JStr "query")))
                                          queryItems)))
                 | _ => Raises TypeError
                 end
               else Returns request) ;;
  let item := put item "request" (delete request "query") in
  let path := multipartForm_path item in
  let multipartFormData := baseGet item path in
  if truthy multipartFormData then
    forms <-- transform_forms multipartFormData ;;
    Returns (update_path item path forms)
  else Returns item.

(** The iteratee of [each] in [transformItems]; [self] is
    [transformItems]. *)
Definition transform_item (self : jsval -> run jsval) (item : jsval) : run jsval :=
  type <-- of_result (get item "type") ;;
  item <-- (match item with
            | JObj m =>
                if is_str type "http" then transform_request m "http"
                else if is_str type "graphql" then transform_request m "graphql"
                else Returns item
            | _ => Returns item
            end) ;;
  nested <-- of_result (get item "items") ;;
  len <-- of_result (get_opt nested "length") ;;
  if truthy len then
    nested' <-- self nested ;;
    Returns (put item "items" nested')
  else Returns item.

Definition transformItems_body (self : jsval -> run jsval) (items : jsval) : run jsval :=
  fold_run (fun (coll : jsval) (entry : jskey * jsval) =>
              item <-- transform_item self (snd entry) ;;
              Returns (update_entry coll (fst entry) item))
           (each_entries items) items.

Fixpoint transformItems_rec (fuel : nat) (items : jsval) : run jsval :=
  match fuel with
  | O => Halts OutOfFuel
  | S fuel' => transformItems_body (transformItems_rec fuel') items
  end.

Definition transformItems (items : jsval) : run jsval :=
  transformItems_rec (S (depth items)) items.

(** [transformItemsInCollection]: the collection as it is returned. *)
Definition transformItemsInCollection (collection : jsval) : run jsval :=
  items <-- of_result (get collection "items") ;;
  items' <-- transformItems items ;;
  Returns (match collection with
           | JObj m => if has_key "items" m then JObj (replace_member "items" items' m)
                       else collection
           | _ => collection
           end).

End BrunoHelpers.
Import BrunoHelpers.

(** ** The converter *)

Module Converter.

(** *** Descriptors and folders as the objects the converter builds *)

Section Encoding.

(** The text of an identifier, and a JSON text written out. *)
Variable uid_text : nat -> string.
Variable json_string : json_text -> string.

(** The key [each] passed: a name, or the index of an array. *)
Definition js_of_key (k : jskey) : jsval :=
  match k with
  | KStr s => JStr s
  | KIdx i => JNum (Z.of_nat i)
  end.

Definition js_of_param (p : param) : jsval :=
  JObj [ ("uid", JStr (uid_text (param_uid p)));
         ("name", js_of_key (param_name p));
         ("value", JStr (param_value p));
         ("description", param_description p);
         ("enabled", JBool (param_enabled p));
         ("type", JStr (match param_type p with
                        | PathParam => "path"
                        | QueryParam => "query"
                        end)) ].

Definition js_of_header (h : header) : jsval :=
  JObj [ ("uid", JStr (uid_text (header_uid h)));
         ("name", JStr (header_name h));
         ("value", JStr (header_value h));
         ("description", JStr (header_description h));
         ("enabled", JBool (header_enabled h)) ].

Definition js_of_body (b : request_body) : jsval :=
  JObj [ ("mode", JStr (match mode b with
                        | ModeNone => "none"
                        | ModeJson => "json"
                        end));
         ("json", match json b with
                  | Some text => JStr (json_string text)
                  | None => JNull
                  end);
         ("text", JNull);
         ("xml", JNull);
         ("formUrlEncoded", JArr []);
         ("multipartForm", JArr []) ].

Definition js_of_request (r : request) : jsval :=
  JObj [ ("url", JStr (url r));
         ("method", JStr (method r));
         ("auth", JObj [("mode", JStr "inherit"); ("basic", JNull); ("bearer", JNull)]);
         ("headers", JArr (map js_of_header (headers r)));
         ("params", JArr (map js_of_param (params r)));
         ("body", js_of_body (body r));
         ("script", JObj []);
         ("tests", JStr (tests r));
         ("vars", JObj [("req", JArr []); ("res", JArr [])]);
         ("assertions", JArr (map JStr (assertions r))) ].

Definition js_of_item (it : item) : jsval :=
  JObj [ ("uid", JStr (uid_text (uid it)));
         ("name", JStr (name it));
         ("type", JStr "http-request");
         ("seq", JNum 1);
         ("request", js_of_request (request_of it)) ].

Definition js_of_resource_folder (f : resource_folder) : jsval :=
  JObj [ ("uid", JStr (uid_text (rf_uid f)));
         ("name", JStr (rf_name f));
         ("type", JStr "folder");
         ("items", JArr (map js_of_item (rf_items f))) ].

Definition js_of_namespace_folder (f : namespace_folder) : jsval :=
  JObj [ ("uid", JStr (uid_text (nf_uid f)));
         ("name", JStr (nf_name f));
         ("type", JStr "folder");
         ("items", JArr (map js_of_resource_folder (nf_items f))) ].

Definition variable (u : nat) (name_ value : string) (secret : bool) : jsval :=
  JObj [ ("uid", JStr (uid_text u));
         ("name", JStr name_);
         ("value", JStr value);
         ("type", JStr "text");
         ("enabled", JBool true);
         ("secret", JBool secret) ].

(** [brunoCollection], with its default environment. *)
Definition brunoCollection (collectionName baseUrl : string)
           (organizedItems : list namespace_folder) : M jsval :=
  collection_uid <~ uuid ;;
  environment_uid <~ uuid ;;
  u1 <~ uuid ;;
  u2 <~ uuid ;;
  u3 <~ uuid ;;
  ret (JObj [ ("version", JStr "1");
              ("uid", JStr (uid_text collection_uid));
              ("name", JStr collectionName);
              ("items", JArr (map js_of_namespace_folder organizedItems));
              ("environments",
               JArr [JObj [ ("uid", JStr (uid_text environment_uid));
                            ("name", JStr "Default");
                            ("variables",
                             JArr [ variable u1 "baseUrl" baseUrl false;
                                    variable u2 "username" "" false;
                                    variable u3 "password" "" true ]) ]]) ]).

End Encoding.

(** *** The loop over the routes of the index *)

Record options : Type := mkOptions {
  collectionName : string;
  includeNamespaces : option (list string);
  excludeRoutes : list string;
  fetchSchemas : bool
}.

(** The capture of [/^\/([^/]+\/v\d+)/] in a route. *)
Definition match_route_namespace (route : string) : option string :=
  match Str.strip_prefix "/" route with
  | None => None
  | Some r =>
      let '(seg, r1) := Str.take_while (fun c => negb (Ascii.eqb c "/"%char)) r in
      if Str.is_empty seg then None else
      match Str.strip_prefix "/v" r1 with
      | None => None
      | Some r2 =>
          let '(ds, _) := Str.take_while Str.is_digit r2 in
          if Str.is_empty ds then None else Some (seg ++ "/v" ++ ds)
      end
  end.

(** [v.forEach(f)] is a call only on an array. *)
Definition as_array (v : jsval) : result (list jsval) :=
  match v with
  | JArr l => Ok l
  | _ => Throw TypeError
  end.

Section Loop.

(** The detailed schema of a route as the server answers the OPTIONS
    request, [null] when the request fails; and the world in which the run
    goes on after a call of the transformer has thrown. *)
Variable detailed : string -> jsval.
Variable recover : string -> string -> jsval -> jsval -> world -> world.

(** The iteratee of [methods.forEach]: the call of the transformer is in a
    [try] block, and the [catch] block prints the method in a template
    literal.  A method that is not a string has no [toUpperCase], which is
    the first thing the transformer calls: the exception is caught before
    anything is drawn from the world, and printing the method throws in turn
    when the method does not print; nothing catches that. *)
Definition convert_method (route : string) (endpoint schema : jsval)
           (items : list item) (method_ : jsval) : M (list item) :=
  if is_str method_ "OPTIONS" || is_str method_ "HEAD" then ret items
  else
    match method_ with
    | JStr m =>
        fun w =>
          match transformWordPressEndpoint route m endpoint schema w with
          | Ok (brunoItem, w') => Ok ((items ++ [brunoItem])%list, w')
          | Throw _ => Ok (items, recover route m endpoint schema w)
          | Stuck r => Stuck r
          end
    | _ =>
        _ <~ lift (to_string method_) ;;
        ret items
    end.

(** The iteratee of [endpoints.forEach]. *)
Definition convert_endpoint (route : string) (schema : jsval)
           (items : list item) (endpoint : jsval) : M (list item) :=
  methods0 <~ lift (get endpoint "methods") ;;
  methods <~ lift (as_array (or_else methods0 (JArr []))) ;;
  forEachM (convert_method route endpoint schema) methods items.

(** The body of the loop over [Object.entries(apiIndex.routes)]; the state
    is [brunoItems] and [processedRoutes]. *)
Definition convert_route (opts : options) (st : list item * list string)
           (entry : string * jsval) : M (list item * list string) :=
  let route := fst entry in
  let routeData := snd entry in
  if mem route (snd st) || mem route (excludeRoutes opts) then ret st
  else
    included <~ lift (match includeNamespaces opts with
                      | None => Ok true
                      | Some namespaces =>
                          namespace <- get routeData "namespace" ;;
                          let namespaceMatch :=
                            or_else namespace
                              (match match_route_namespace route with
                               | Some s => JStr s
                               | None => JUndefined
                               end) in
                          Ok (truthy namespaceMatch
                              && match namespaceMatch with
                                 | JStr s => mem s namespaces
                                 | _ => false
                                 end)
                      end) ;;
    if negb included then ret st
    else
      let detailedSchema := if fetchSchemas opts then detailed route else JNull in
      s1 <~ lift (get_opt detailedSchema "schema") ;;
      schema <~ lift (if truthy s1 then Ok s1
                      else s2 <- get routeData "schema" ;; Ok (or_else s2 JNull)) ;;
      e1 <~ lift (get_opt detailedSchema "endpoints") ;;
      endpoints0 <~ lift (if truthy e1 then Ok e1
                          else e2 <- get routeData "endpoints" ;;
                               Ok (or_else e2 (JArr []))) ;;
      endpoints <~ lift (as_array endpoints0) ;;
      items <~ forEachM (convert_endpoint route schema) endpoints (fst st) ;;
      ret (items, (snd st ++ [route])%list).

(** [brunoItems] after the loop, for the routes of the index: the own
    members of [apiIndex.routes], which is not falsy. *)
Definition convert_routes (opts : options) (routes : jsval) : M (list item) :=
  st <~ forEachM (convert_route opts) (spread routes) ([], []) ;;
  ret (fst st).

(** [wordpressToBruno] from the loop over the routes to the collection that
    is handed to [validateSchema]. *)
Definition wordpressToBruno_collection (uid_text : nat -> string)
           (json_string : json_text -> string) (opts : options) (baseUrl : string)
           (routes : jsval) (w : world) : run (jsval * world) :=
  match (brunoItems <~ convert_routes opts routes ;;
         organizedItems <~ organizeIntoFolders brunoItems ;;
         brunoCollection uid_text json_string (collectionName opts) baseUrl organizedItems) w
  with
  | Ok (collection, w') =>
      transformedCollection <-- transformItemsInCollection collection ;;
      hydratedCollection <-- of_result (hydrateSeqInCollection transformedCollection) ;;
      Returns (hydratedCollection, w')
  | Throw e => Raises e
  | Stuck r => Halts r
  end.

End Loop.

End Converter.
Import Converter.

(** ** Notions the further properties are stated with *)

Module More.

(** No two elements of a list are the same value. *)
Definition distinct_values (l : list jsval) : Prop :=
  ForallOrdPairs (fun a b => same_value a b = false) l.

(** The names of the capture groups of a route, in order. *)
Definition group_names_of (segs : list segment) : list string :=
  flat_map (fun s => match s with
                     | Lit _ => []
                     | Group n _ => [n]
                     end) segs.

(** A route with every capture group replaced by the same text. *)
Definition skeleton (by_ : string) (segs : list segment) : string :=
  String.concat "" (map (fun s => match s with
                                  | Lit t => t
                                  | Group _ _ => by_
                                  end) segs).

(** The names of the five listing parameters. *)
Definition listing_names : list string :=
  map (fun p => fst (fst p)) commonParams.

(** How many entries of a parameter list have the name [n]. *)
Definition count_named (n : string) (ps : list param) : nat :=
  List.length (filter (fun p => key_is (param_name p) n) ps).

(** A disabled query parameter. *)
Definition disabled_query (p : param) : Prop :=
  param_type p = QueryParam /\ param_enabled p = false.



(** The constraints object written out: the supported keywords the argument
    defines, in the order of the catalogue, each with the value the argument
    gives it, the enum without its repeated values. *)
Definition constraints_of (args : jsval) : list (string * jsval) :=
  map (fun k => (k, if String.eqb k "enum" then normalizeEnum (prop args k)
                    else prop args k))
      (filter (fun k => negb (is_undefined (prop args k))) supportedConstraints).

(** Two routes with the same literal text around capture groups that may
    differ in name and pattern. *)
Definition same_shape (a b : segment) : Prop :=
  match a, b with
  | Lit t, Lit t' => t = t'
  | Group _ _, Group _ _ => True
  | _, _ => False
  end.

(** The descriptors whose URL has the namespace and resource shape. *)
Definition matched (items : list item) : list item :=
  filter (fun it => match route_of it with Some _ => true | None => false end) items.

(** The parts of a route [/seg/vN/res] followed by nothing or by a slash:
    a first segment without slash, a version number, and a resource segment
    without slash, colon or question mark; no part opens a parenthesis. *)
Definition route_parts (seg ds res rest : string) : bool :=
  negb (Str.is_empty seg)
  && all_chars (fun c => negb (Ascii.eqb c "/"%char) && negb (Ascii.eqb c "("%char)) seg
  && negb (Str.is_empty ds)
  && all_chars Str.is_digit ds
  && negb (Str.is_empty res)
  && all_chars (fun c => negb (Str.char_in "/:?" c) && negb (Ascii.eqb c "("%char)) res
  && match rest with
     | EmptyString => true
     | String c _ => Ascii.eqb c "/"%char
     end.

(** *** The schema cleaner, by its parts *)

(** What the cleaner does to an element of an array value. *)
Definition clean_item (item : jsval) : jsval :=
  match item with
  | JArr _ | JObj _ => cleanWordPressSchemaProperties item
  | _ => item
  end.

(** What the cleaner does to the value of a key. *)
Definition clean_value (value : jsval) : jsval :=
  match value with
  | JObj _ => cleanWordPressSchemaProperties value
  | JArr items => JArr (map clean_item items)
  | _ => value
  end.

(** The loop over the own keys of an object. *)
Fixpoint copy_members (m cleaned : list (string * jsval)) : list (string * jsval) :=
  match m with
  | [] => cleaned
  | (key, value) :: m' =>
      if existsb (String.eqb key) keysToRemove then copy_members m' cleaned
      else copy_members m' (set cleaned key (clean_value value))
  end.

(** The loop over the indices of an array. *)
Fixpoint copy_elements (i : nat) (l : list jsval) (cleaned : list (string * jsval))
  : list (string * jsval) :=
  match l with
  | [] => cleaned
  | value :: l' => copy_elements (S i) l' (set cleaned (Str.of_nat i) (clean_value value))
  end.

(** An object of the document, at any depth, has the own key [k]. *)
Fixpoint mentions (k : string) (v : jsval) : bool :=
  match v with
  | JObj m => has_key k m || existsb (fun kv => mentions k (snd kv)) m
  | JArr l => existsb (mentions k) l
  | _ => false
  end.

(** The order in which an object the engine builds enumerates two of its
    keys: array indices first, in ascending order. *)
Definition key_before (a b : string) : Prop :=
  a <> b
  /\ match array_index a, array_index b with
     | Some i, Some j => i < j
     | Some _, None => True
     | None, Some _ => False
     | None, None => True
     end.

(** A member list in enumeration order, without the key [__proto__]. *)
Definition canonical (m : list (string * jsval)) : Prop :=
  ForallOrdPairs key_before (keys m) /\ ~ In "__proto__" (keys m).

(** *** The example of a field of the type [object] *)




(** *** The items of a collection *)

(** The item is a request without a sequence number. *)
Definition lacks_seq (item : jsval) : bool :=
  match isItemARequest item with
  | Ok true => negb (truthy (prop item "seq"))
  | _ => false
  end.

(** How many of the items are requests without a sequence number. *)
Definition count_lacking (l : list jsval) : Z :=
  Z.of_nat (List.length (filter lacks_seq l)).

(** The items of a list as the loop of [hydrateSeq] leaves them, one after
    the other, and the counter before and after. *)
Inductive hydrated_items (self : jsval -> result jsval)
  : Z -> list jsval -> list jsval -> Z -> Prop :=
| hydrated_nil (index : Z) : hydrated_items self index [] [] index
| hydrated_cons (index index1 index2 : Z) (item item' : jsval) (l l' : list jsval) :
    hydrate_item self index item = Ok (item', index1) ->
    hydrated_items self index1 l l' index2 ->
    hydrated_items self index (item :: l) (item' :: l') index2.

(** A collection to evaluate the helpers on: two requests around a folder
    that holds a request with a sequence number and one without. *)
Definition sample_items : list jsval :=
  [ JObj [("type", JStr "http-request"); ("request", JObj [])];
    JObj [("type", JStr "folder");
          ("items", JArr [JObj [("type", JStr "http-request"); ("request", JObj []);
                                ("seq", JNum 7)];
                          JObj [("type", JStr "http-request"); ("request", JObj [])]])];
    JObj [("type", JStr "http-request"); ("request", JObj [])] ].

Definition sample_collection : jsval :=
  JObj [("name", JStr "api"); ("items", JArr sample_items)].



(** *** Folder names *)

(** The name of a namespace folder: a first segment and a version number
    joined by [-v], without a slash. *)
Definition namespace_name (n : string) : Prop :=
  exists seg ds,
    n = seg ++ "-v" ++ ds
    /\ Str.is_empty seg = false
    /\ all_chars (fun c => negb (Ascii.eqb c "/"%char)) seg = true
    /\ Str.is_empty ds = false
    /\ all_chars Str.is_digit ds = true.

(** The name of a resource folder: not empty, without slash, colon and
    question mark. *)
Definition resource_name (n : string) : Prop :=
  Str.is_empty n = false
  /\ all_chars (fun c => negb (Str.char_in "/:?" c)) n = true.

(** *** Items of the types [http] and [graphql] *)



(** *** The descriptors of the loop over the routes *)

(** Where a descriptor comes from: a route of the index that is not
    excluded and whose namespace is among the included ones when those are
    given, an endpoint of the route, and a method of the endpoint other
    than [OPTIONS] and [HEAD], for which the transformer returned it. *)
Definition descriptor_source (detailed : string -> jsval) (opts : options)
           (routes : jsval) (it : item) : Prop :=
  exists route routeData endpoints endpoint methods m schema w1 w2,
    In (route, routeData) (spread routes)
    /\ mem route (excludeRoutes opts) = false
    /\ (forall namespaces,
          includeNamespaces opts = Some namespaces ->
          exists ns, In ns namespaces
                     /\ (get routeData "namespace" = Ok (JStr ns)
                         \/ match_route_namespace route = Some ns))
    /\ (get_opt (if fetchSchemas opts then detailed route else JNull) "endpoints"
        = Ok (JArr endpoints)
        \/ get routeData "endpoints" = Ok (JArr endpoints))
    /\ In endpoint endpoints
    /\ get endpoint "methods" = Ok (JArr methods)
    /\ In (JStr m) methods
    /\ m <> "OPTIONS" /\ m <> "HEAD"
    /\ transformWordPressEndpoint route m endpoint schema w1 = Ok (it, w2).

(** An index of the shape the loop reads: the data of a route is not
    [null]; its endpoints, from the detailed schema when that has any and
    from the index otherwise, are a list or falsy; no endpoint is [null],
    and the methods of an endpoint are falsy or a list of values that
    print, as strings do.  Nothing is asked of the arguments and the
    schema. *)
Definition methods_ok (endpoint : jsval) : bool :=
  match endpoint with
  | JUndefined | JNull => false
  | _ => match prop endpoint "methods" with
         | JArr methods => forallb plain methods
         | v => negb (truthy v)
         end
  end.

Definition endpoints_ok (v : jsval) : bool :=
  match v with
  | JArr l => forallb methods_ok l
  | _ => negb (truthy v)
  end.

Definition route_ok (detailed : string -> jsval) (opts : options)
           (entry : string * jsval) : bool :=
  match snd entry with
  | JUndefined | JNull => false
  | routeData =>
      match get_opt (if fetchSchemas opts then detailed (fst entry) else JNull)
                    "endpoints" with
      | Ok e1 => if truthy e1 then endpoints_ok e1
                 else endpoints_ok (prop routeData "endpoints")
      | _ => false
      end
  end.

(** An index to run the loop on: a route with a GET and an OPTIONS method,
    a route whose endpoint makes the transformer throw, and an excluded
    route. *)
Definition sample_routes : jsval :=
  JObj [ ("/wp/v2/posts",
          JObj [("namespace", JStr "wp/v2");
                ("endpoints",
                 JArr [JObj [("methods", JArr [JStr "GET"; JStr "OPTIONS"]);
                             ("args", JObj [])]])]);
         ("/wp/v2/pages",
          JObj [("namespace", JStr "wp/v2");
                ("endpoints",
                 JArr [JObj [("methods", JArr [JStr "GET"]);
                             ("args", JObj [("page", JNull)])]])]);
         ("/wp/v2/users",
          JObj [("namespace", JStr "wp/v2");
                ("endpoints",
                 JArr [JObj [("methods", JArr [JStr "GET"]);
                             ("args", JObj [])]])]) ].

Definition sample_options : options :=
  mkOptions "Sample" (Some ["wp/v2"]) ["/wp/v2/users"] false.

End More.

Import More.

(** * Properties *)

(** ** Loops *)

Lemma bindM_ok {A B : Type} (m : M A) (k : A -> M B) (w : world) (b : B) (w' : world) :
  bindM m k w = Ok (b, w') ->
  exists a w1, m w = Ok (a, w1) /\ k a w1 = Ok (b, w').
Proof.
  unfold bindM. destruct (m w) as [[a w1] | e | r]; try discriminate.
  intros H. exists a, w1. split; [reflexivity | exact H].
Qed.

Lemma lift_ok {A : Type} (r : result A) (w : world) (a : A) (w' : world) :
  lift r w = Ok (a, w') -> r = Ok a /\ w' = w.
Proof.
  unfold lift. destruct r; intros H; inversion H; subst; auto.
Qed.

Lemma ret_ok {A : Type} (a b : A) (w w' : world) :
  ret a w = Ok (b, w') -> b = a /\ w' = w.
Proof.
  unfold ret. intros H. inversion H; subst; auto.
Qed.

(** An invariant of the loop state that every iteration keeps holds when
    the loop ends. *)
Lemma forEachM_invariant {A S : Type} (P : S -> Prop) (f : S -> A -> M S) (l : list A) :
  (forall s a w s' w', In a l -> P s -> f s a w = Ok (s', w') -> P s') ->
  forall s w s' w', P s -> forEachM f l s w = Ok (s', w') -> P s'.
Proof.
  induction l as [| a l IH]; intros Hstep s w s' w' Hs Hrun.
  - apply ret_ok in Hrun. destruct Hrun as [-> _]. exact Hs.
  - simpl in Hrun. apply bindM_ok in Hrun.
    destruct Hrun as (s1 & w1 & Hf & Hrest).
    apply (IH (fun s a w s' w' Hin => Hstep s a w s' w' (or_intror Hin)) s1 w1 s' w').
    + apply (Hstep s a w s1 w1); [left; reflexivity | exact Hs | exact Hf].
    + exact Hrest.
Qed.



(** ** Parameter Classifier *)

Lemma key_in_In (s : string) (names : list string) :
  key_in (KStr s) names = true <-> In s names.
Proof.
  unfold key_in. rewrite existsb_exists. split.
  - intros (x & Hin & Heq). apply String.eqb_eq in Heq. subst. exact Hin.
  - intros Hin. exists s. split; [exact Hin | apply String.eqb_refl].
Qed.

(** C4. A parameter named in the path-parameter set is a path parameter
    whatever the method; any other parameter is a query parameter when the
    method is GET (method names compare in upper case) and a body parameter
    otherwise; so under GET no parameter is a body parameter. *)
Theorem getParameterLocation_rule (method_ : string) (paramName : string)
        (pathParams : list string) :
  (In paramName pathParams ->
   getParameterLocation method_ (KStr paramName) pathParams = LocPath)
  /\ (~ In paramName pathParams -> Str.toUpperCase method_ = "GET" ->
      getParameterLocation method_ (KStr paramName) pathParams = LocQuery)
  /\ (~ In paramName pathParams -> Str.toUpperCase method_ <> "GET" ->
      getParameterLocation method_ (KStr paramName) pathParams = LocBody)
  /\ (Str.toUpperCase method_ = "GET" ->
      getParameterLocation method_ (KStr paramName) pathParams <> LocBody).
Proof.
  unfold getParameterLocation.
  destruct (key_in (KStr paramName) pathParams) eqn:Hin.
  - apply key_in_In in Hin. repeat split; intros; try reflexivity; try contradiction.
    discriminate.
  - assert (Hnot : ~ In paramName pathParams).
    { intros H. apply key_in_In in H. congruence. }
    repeat split.
    + intros H. contradiction.
    + intros _ Hget. rewrite Hget. reflexivity.
    + intros _ Hne. destruct (String.eqb_spec (Str.toUpperCase method_) "GET"); congruence.
    + intros Hget. rewrite Hget. simpl. discriminate.
Qed.

Lemma getParameterLocation_rule_witness :
  (In "id" ["id"] /\ getParameterLocation "DELETE" (KStr "id") ["id"] = LocPath)
  /\ (~ In "page" ["id"] /\ Str.toUpperCase "get" = "GET"
      /\ getParameterLocation "get" (KStr "page") ["id"] = LocQuery)
  /\ (~ In "title" ["id"] /\ Str.toUpperCase "POST" <> "GET"
      /\ getParameterLocation "POST" (KStr "title") ["id"] = LocBody)
  /\ (Str.toUpperCase "GET" = "GET"
      /\ getParameterLocation "GET" (KStr "title") [] <> LocBody).
Proof.
  assert (H1 : In "id" ["id"]) by (simpl; auto).
  assert (H2 : ~ In "page" ["id"]) by (simpl; intros [H | []]; discriminate).
  assert (H3 : ~ In "title" ["id"]) by (simpl; intros [H | []]; discriminate).
  assert (H4 : Str.toUpperCase "POST" <> "GET") by (vm_compute; discriminate).
  split; [| split; [| split]].
  - split; [exact H1 |].
    exact (proj1 (getParameterLocation_rule "DELETE" "id" ["id"]) H1).
  - split; [exact H2 | split; [reflexivity |]].
    exact (proj1 (proj2 (getParameterLocation_rule "get" "page" ["id"])) H2 eq_refl).
  - split; [exact H3 | split; [exact H4 |]].
    exact (proj1 (proj2 (proj2 (getParameterLocation_rule "POST" "title" ["id"]))) H3 H4).
  - split; [reflexivity |].
    exact (proj2 (proj2 (proj2 (getParameterLocation_rule "GET" "title" []))) eq_refl).
Defined.

(** ** Endpoint Transformer: scenarios *)

(** C1, as the code has it. With an empty argument mapping the descriptor
    of GET [/wp/v2/posts/(?P<id>[\d]+)] is named "Get posts by ID", has the
    URL template [{{baseUrl}}/wp/v2/posts/:id], an empty parameter list
    (parameters come from the arguments only), body mode [none] and the one
    test of status 200. *)
Theorem get_post_by_id_without_args (endpoint schema : jsval) (w : world) :
  no_args endpoint ->
  exists it w',
    transformWordPressEndpoint "/wp/v2/posts/(?P<id>[\d]+)" "GET" endpoint schema w
    = Ok (it, w')
    /\ name it = "Get posts by ID"
    /\ url (request_of it) = "{{baseUrl}}/wp/v2/posts/:id"
    /\ params (request_of it) = []
    /\ mode (body (request_of it)) = ModeNone
    /\ tests (request_of it) = status_200_test
    /\ assertions (request_of it) = [].
Proof.
  intros (args & Hget & Hentries).
  unfold transformWordPressEndpoint, bindM, lift.
  rewrite Hget, Hentries.
  eexists. eexists. split; [vm_compute; reflexivity |].
  repeat split.
Qed.

Lemma get_post_by_id_without_args_witness :
  no_args (JObj [("args", JArr [])])
  /\ exists it w',
       transformWordPressEndpoint "/wp/v2/posts/(?P<id>[\d]+)" "GET"
         (JObj [("args", JArr [])]) JNull w0 = Ok (it, w')
       /\ name it = "Get posts by ID"
       /\ url (request_of it) = "{{baseUrl}}/wp/v2/posts/:id"
       /\ params (request_of it) = []
       /\ mode (body (request_of it)) = ModeNone
       /\ tests (request_of it) = status_200_test
       /\ assertions (request_of it) = [].
Proof.
  assert (H : no_args (JObj [("args", JArr [])])).
  { exists (JArr []). split; reflexivity. }
  split; [exact H |].
  exact (get_post_by_id_without_args (JObj [("args", JArr [])]) JNull w0 H).
Defined.

(** C1, as stated, fails: with the empty argument mapping [{}] the
    descriptor has no path parameter [id]. *)
Lemma get_post_by_id_lacks_path_parameter :
  ~ (exists it w',
       transformWordPressEndpoint "/wp/v2/posts/(?P<id>[\d]+)" "GET"
         (JObj [("args", JObj [])]) JNull w0 = Ok (it, w')
       /\ get_post_by_id it).
Proof.
  intros (it & w' & Hrun & Hclaim).
  vm_compute in Hrun. inversion Hrun; subst it; clear Hrun.
  destruct Hclaim as (_ & _ & (p & Hp & _) & _).
  simpl in Hp. discriminate Hp.
Qed.

(** The scenario holds once the arguments declare [id]. *)
Lemma get_post_by_id_with_id_arg (m : list (string * jsval)) (schema : jsval) (w : world) :
  exists it w',
    transformWordPressEndpoint "/wp/v2/posts/(?P<id>[\d]+)" "GET"
      (JObj [("args", JObj [("id", JObj m)])]) schema w = Ok (it, w')
    /\ get_post_by_id it.
Proof.
  eexists. eexists. split; [vm_compute; reflexivity |].
  unfold get_post_by_id. simpl. repeat split.
  eexists. repeat split.
Qed.

(** C5, at a route of WordPress core whose capture group nests a group.
    The expression stops at the first closing parenthesis, so the rest of
    the capture group stays in the URL template; the same route, which the
    catalogue of collection endpoints lists, is not recognised as one. *)
Theorem nested_capture_group_url (schema : jsval) (w : world) :
  let segs := [Lit "/wp/v2/users/"; Group "user_id" "(?:[\d]+|me)";
               Lit "/application-passwords"] in
  exists it w',
    transformWordPressEndpoint (route_text segs) "GET" (JObj []) schema w = Ok (it, w')
    /\ url (request_of it) = "{{baseUrl}}/wp/v2/users/:user_id)/application-passwords"
    /\ url (request_of it) <> "{{baseUrl}}" ++ template_text segs
    /\ In "/wp/v2/users/{user_id}/application-passwords" collectionEndpoints
    /\ isCollectionEndpoint (route_text segs) = false.
Proof.
  intros segs. eexists. eexists. split; [vm_compute; reflexivity |].
  split; [reflexivity |]. split; [vm_compute; discriminate |].
  split; [| vm_compute; reflexivity].
  unfold collectionEndpoints.
  repeat (first [left; reflexivity | right]).
Qed.



(** C6, at a GET list endpoint whose arguments declare [_embed]: the
    parameter list ends up with two entries named [_embed]. *)
Theorem embed_parameter_appended_twice :
  exists it w',
    transformWordPressEndpoint "/wp/v2/posts" "GET"
      (JObj [("args", JObj [("_embed", JObj [("type", JStr "boolean")])])]) JNull w0
    = Ok (it, w')
    /\ map param_name (params (request_of it))
       = [KStr "_embed"; KStr "page"; KStr "per_page"; KStr "search";
          KStr "orderby"; KStr "order"; KStr "_embed"]
    /\ Forall (fun p => param_type p = QueryParam /\ param_enabled p = false)
              (params (request_of it)).
Proof.
  eexists. eexists. split; [vm_compute; reflexivity |].
  split; [reflexivity |].
  simpl. repeat constructor.
Qed.

(** ** Request Body Composer *)

(** C2, at a PUT on a route whose path parameter is named like a common
    field of the resource schema: the second loop does not look at the
    path parameters, and the body carries [slug], which the URL template
    of the descriptor carries as [:slug]. *)
Theorem body_carries_path_parameter (w : world) :
  let route := "/shop/v1/products/(?P<slug>[\w-]+)" in
  let args := JObj [("slug", JObj [("type", JStr "string")]);
                    ("price", JObj [("type", JStr "integer")])] in
  let schema := JObj [("properties",
                       JObj [("slug", JObj [("type", JStr "string")]);
                             ("price", JObj [("type", JStr "integer")])])] in
  exists text it w',
    generateRequestBody args schema "PUT" (extractPathParameters route) w
    = Ok (Some text, w)
    /\ JSON_parse text = JObj [("price", JNum 0); ("slug", JStr "example-slug")]
    /\ In "slug" (extractPathParameters route)
    /\ transformWordPressEndpoint route "PUT" (JObj [("args", args)]) schema w = Ok (it, w')
    /\ url (request_of it) = "{{baseUrl}}/shop/v1/products/:slug"
    /\ json (body (request_of it)) = Some text.
Proof.
  intros route args schema. eexists. eexists. eexists.
  split; [vm_compute; reflexivity |].
  split; [reflexivity |].
  split; [vm_compute; left; reflexivity |].
  split; [vm_compute; reflexivity |].
  split; reflexivity.
Qed.

(** ** Endpoint Transformer: methods other than GET *)

(** Under a method other than GET an argument yields a path entry or
    nothing. *)
Lemma param_of_arg_not_get (methodUpper : string) (pathParams : list string)
      (ps : list param) (entry : jskey * jsval) (w : world)
      (ps' : list param) (w' : world) :
  String.eqb (Str.toUpperCase methodUpper) "GET" = false ->
  Forall (path_entry pathParams) ps ->
  param_of_arg methodUpper pathParams ps entry w = Ok (ps', w') ->
  Forall (path_entry pathParams) ps'.
Proof.
  intros Hm Hps Hrun. destruct entry as [argName arg].
  unfold param_of_arg in Hrun.
  destruct (key_is argName "context").
  - apply ret_ok in Hrun. destruct Hrun as [-> _]. exact Hps.
  - unfold getParameterLocation in Hrun.
    destruct (key_in argName pathParams) eqn:Hin.
    + apply bindM_ok in Hrun. destruct Hrun as (u & w1 & _ & Hrun).
      apply bindM_ok in Hrun. destruct Hrun as (d & w2 & _ & Hrun).
      apply ret_ok in Hrun. destruct Hrun as [-> _].
      apply Forall_app. split; [exact Hps |].
      constructor; [| constructor]. split; [reflexivity | exact Hin].
    + rewrite Hm in Hrun.
      apply ret_ok in Hrun. destruct Hrun as [-> _]. exact Hps.
Qed.

(** C10. The descriptor of a DELETE endpoint has body mode [none], no
    header, and a parameter list of path parameters only: the arguments the
    classifier places in the body appear nowhere. *)
Theorem delete_descriptor (route method_ : string) (endpoint schema : jsval)
        (w : world) (it : item) (w' : world) :
  Str.toUpperCase method_ = "DELETE" ->
  transformWordPressEndpoint route method_ endpoint schema w = Ok (it, w') ->
  method (request_of it) = "DELETE"
  /\ mode (body (request_of it)) = ModeNone
  /\ json (body (request_of it)) = None
  /\ headers (request_of it) = []
  /\ Forall (path_entry (extractPathParameters route)) (params (request_of it)).
Proof.
  intros Hm Hrun. unfold transformWordPressEndpoint in Hrun.
  rewrite Hm in Hrun.
  change (is_mutating "DELETE") with false in Hrun.
  change (String.eqb "DELETE" "GET") with false in Hrun.
  cbv beta iota zeta in Hrun. rewrite !andb_false_l in Hrun.
  apply bindM_ok in Hrun. destruct Hrun as (args0 & w1 & _ & Hrun).
  apply bindM_ok in Hrun. destruct Hrun as (item_uid & w2 & _ & Hrun).
  apply bindM_ok in Hrun. destruct Hrun as (hs & w3 & Hhs & Hrun).
  apply ret_ok in Hhs. destruct Hhs as [-> ->].
  apply bindM_ok in Hrun. destruct Hrun as (ps & w4 & Hps & Hrun).
  apply bindM_ok in Hrun. destruct Hrun as (ps1 & w5 & Hps1 & Hrun).
  apply ret_ok in Hps1. destruct Hps1 as [-> ->].
  apply bindM_ok in Hrun. destruct Hrun as (b & w6 & Hb & Hrun).
  apply ret_ok in Hb. destruct Hb as [-> ->].
  apply ret_ok in Hrun. destruct Hrun as [-> _].
  simpl. repeat split.
  eapply (forEachM_invariant (Forall (path_entry (extractPathParameters route))));
    [| constructor | exact Hps].
  intros s a wa s' wa' _ Hs Hstep.
  eapply param_of_arg_not_get; [| exact Hs | exact Hstep].
  reflexivity.
Qed.

Lemma delete_descriptor_witness :
  exists it w',
    Str.toUpperCase "delete" = "DELETE"
    /\ transformWordPressEndpoint "/wp/v2/posts/(?P<id>[\d]+)" "delete"
         (JObj [("args", JObj [("id", JObj [("type", JStr "integer")]);
                               ("force", JObj [("type", JStr "boolean")])])])
         JNull w0 = Ok (it, w')
    /\ map param_name (params (request_of it)) = [KStr "id"]
    /\ method (request_of it) = "DELETE"
    /\ mode (body (request_of it)) = ModeNone
    /\ json (body (request_of it)) = None
    /\ headers (request_of it) = []
    /\ Forall (path_entry (extractPathParameters "/wp/v2/posts/(?P<id>[\d]+)"))
              (params (request_of it)).
Proof.
  eexists. eexists.
  split; [reflexivity |].
  match goal with
  | |- ?A /\ _ => assert (Hrun : A) by (vm_compute; reflexivity)
  end.
  split; [exact Hrun |].
  split; [reflexivity |].
  exact (delete_descriptor "/wp/v2/posts/(?P<id>[\d]+)" "delete"
           (JObj [("args", JObj [("id", JObj [("type", JStr "integer")]);
                                 ("force", JObj [("type", JStr "boolean")])])])
           JNull w0 _ _ eq_refl Hrun).
Defined.

(** ** Example Value Synthesizer: the recursion budget *)

Lemma list_max_In (l : list nat) (n : nat) : In n l -> n <= list_max l.
Proof.
  intros Hin.
  assert (H : Forall (fun k => k <= list_max l) l) by (apply list_max_le; lia).
  rewrite Forall_forall in H. apply H. exact Hin.
Qed.

Lemma assoc_In (k : string) (m : list (string * jsval)) (x : jsval) :
  assoc k m = Some x -> In (k, x) m.
Proof.
  induction m as [| [k' v] m IH]; simpl; [discriminate |].
  destruct (String.eqb_spec k k') as [-> | _].
  - intros H. inversion H. left. reflexivity.
  - intros H. right. apply IH. exact H.
Qed.

Lemma depth_member (k : string) (x : jsval) (m : list (string * jsval)) :
  In (k, x) m -> depth x < depth (JObj m).
Proof.
  intros Hin. simpl. apply Nat.lt_succ_r. apply list_max_In.
  apply in_map_iff. exists (k, x). split; [reflexivity | exact Hin].
Qed.

Lemma depth_element (x : jsval) (l : list jsval) :
  In x l -> depth x < depth (JArr l).
Proof.
  intros Hin. simpl. apply Nat.lt_succ_r. apply list_max_In.
  apply in_map. exact Hin.
Qed.

Lemma depth_nth (l : list jsval) (i : nat) : depth (nth i l JUndefined) <= depth (JArr l).
Proof.
  destruct (nth_in_or_default i l JUndefined) as [Hin | ->].
  - apply Nat.lt_le_incl. apply depth_element. exact Hin.
  - simpl. lia.
Qed.

Lemma depth_char_at (s : string) (i : nat) : depth (char_at s i) = 0.
Proof.
  unfold char_at. destruct (String.get i s); reflexivity.
Qed.

(** What [each] visits is no deeper than the collection. *)
Lemma each_entries_depth (coll : jsval) (e : jskey * jsval) :
  In e (each_entries coll) -> depth (snd e) <= depth coll.
Proof.
  unfold each_entries. destruct (array_like_length coll) as [n |] eqn:Hlen.
  - intros Hin. apply in_map_iff in Hin. destruct Hin as (i & <- & _). simpl.
    destruct coll; simpl; try lia.
    + rewrite depth_char_at. lia.
    + apply depth_nth.
    + destruct (assoc (Str.of_nat i) members) as [x |] eqn:Hx; [| simpl; lia].
      apply assoc_In in Hx. apply Nat.lt_le_incl.
      apply (depth_member _ _ _ Hx).
  - destruct coll; simpl; try contradiction.
    intros Hin. apply in_map_iff in Hin. destruct Hin as ([k x] & <- & Hin). simpl.
    apply Nat.lt_le_incl. apply (depth_member _ _ _ Hin).
Qed.





(** ** Example Value Synthesizer: determinism *)

Lemma existsb_false_In {A : Type} (f : A -> bool) (l : list A) (x : A) :
  existsb f l = false -> In x l -> f x = false.
Proof.
  intros Hex Hin. destruct (f x) eqn:Hfx; [| reflexivity].
  rewrite <- Hex. symmetry. apply existsb_exists. exists x. split; assumption.
Qed.

Lemma time_dependent_case (p : jsval) :
  time_dependent p = false -> date_time_case p = false.
Proof.
  destruct p; try reflexivity.
  simpl. intros H. apply orb_false_elim in H. exact (proj1 H).
Qed.

Lemma date_time_case_intro (p d f : jsval) :
  has_enum p = Ok false ->
  get p "default" = Ok d -> is_undefined d = true ->
  get p "format" = Ok f -> is_str f "date-time" = true ->
  date_time_case p = true.
Proof.
  intros He Hd Hu Hf Hdt.
  destruct p; simpl in Hf; try discriminate;
    try (inversion Hf; subst f; discriminate Hdt).
  unfold date_time_case. rewrite He.
  simpl in Hd. inversion Hd; subst d. inversion Hf; subst f.
  unfold member. rewrite Hu, Hdt. reflexivity.
Qed.

(** The fields the synthesizer descends into are not time-dependent when
    the field is not. *)
Lemma time_dependent_entries (p ps : jsval) (e : jskey * jsval) :
  time_dependent p = false ->
  get p "properties" = Ok ps ->
  In e (each_entries ps) ->
  time_dependent (snd e) = false.
Proof.
  intros Hp Hps Hin.
  destruct p; simpl in Hps; try discriminate;
    try (inversion Hps; subst ps; contradiction Hin).
  inversion Hps; subst ps; clear Hps.
  destruct (assoc "properties" members) as [ps |] eqn:Hassoc; [| contradiction Hin].
  apply assoc_In in Hassoc.
  simpl in Hp. apply orb_false_elim in Hp. destruct Hp as [_ Hp].
  pose proof (existsb_false_In _ _ _ Hp Hassoc) as Hps. simpl in Hps.
  unfold each_entries in Hin.
  destruct ps as [| | b | n | s | l | pm]; simpl in Hin; try contradiction.
  - apply in_map_iff in Hin. destruct Hin as (i & <- & _). simpl.
    unfold char_at. destruct (String.get i s); reflexivity.
  - apply in_map_iff in Hin. destruct Hin as (i & <- & _). simpl.
    destruct (nth_in_or_default i l JUndefined) as [Hnth | ->]; [| reflexivity].
    exact (existsb_false_In _ _ _ Hps Hnth).
  - assert (Hmember : forall k x, In (k, x) pm -> time_dependent x = false).
    { intros k x Hx. exact (existsb_false_In _ _ _ Hps Hx). }
    destruct (match assoc "length" pm with
              | Some (JNum n) =>
                  if (0 <=? n)%Z && (n <=? MAX_SAFE_INTEGER)%Z
                  then Some (Z.to_nat n) else None
              | _ => None
              end) as [n |].
    + apply in_map_iff in Hin. destruct Hin as (i & <- & _). simpl.
      destruct (assoc (Str.of_nat i) pm) as [x |] eqn:Hx; [| reflexivity].
      apply assoc_In in Hx. exact (Hmember _ _ Hx).
    + apply in_map_iff in Hin. destruct Hin as ([k x] & <- & Hx). simpl.
      exact (Hmember _ _ Hx).
Qed.

(** A loop whose iterations return values that do not depend on the world
    returns such a value. *)
Lemma forEachM_value {A S : Type} (f : S -> A -> M S) (l : list A) :
  (forall s a w1 w2, In a l -> value_of (f s a w1) = value_of (f s a w2)) ->
  forall s w1 w2, value_of (forEachM f l s w1) = value_of (forEachM f l s w2).
Proof.
  induction l as [| a l IH]; intros Hf s w1 w2; [reflexivity |].
  simpl. unfold bindM.
  pose proof (Hf s a w1 w2 (or_introl eq_refl)) as Ha.
  destruct (f s a w1) as [[s1 w1'] | e1 | r1], (f s a w2) as [[s2 w2'] | e2 | r2];
    simpl in Ha; try discriminate Ha; try exact Ha.
  inversion Ha; subst s2.
  apply IH. intros s3 a3 w3 w4 Hin. apply Hf. right. exact Hin.
Qed.

Lemma generateExampleValue_rec_deterministic (fuel : nat) :
  forall (p : jsval),
    time_dependent p = false ->
    forall n w1 w2,
      value_of (generateExampleValue_rec fuel p n w1)
      = value_of (generateExampleValue_rec fuel p n w2).
Proof.
  induction fuel as [| fuel IH]; intros p Hp n w1 w2; [reflexivity |].
  simpl. unfold generateExampleValue_body, bindM, lift.
  destruct (has_enum p) as [[|] | |] eqn:He; try reflexivity.
  - destruct (get p "enum") as [enum | |]; try reflexivity.
    destruct (get enum "0"); reflexivity.
  - destruct (get p "default") as [d | |] eqn:Hd; try reflexivity.
    destruct (is_undefined d) eqn:Hu; simpl; try reflexivity.
    destruct (get p "type") as [t | |]; try reflexivity.
    destruct (normalizeWordPressType (or_else t (JStr "string"))) as [nt | |];
      try reflexivity.
    destruct (is_str nt "integer"); try reflexivity.
    destruct (is_str nt "number"); try reflexivity.
    destruct (is_str nt "boolean"); try reflexivity.
    destruct (is_str nt "array"); try reflexivity.
    destruct (is_str nt "object").
    + destruct (get p "properties") as [ps | |] eqn:Hps; try reflexivity.
      destruct (truthy ps); try reflexivity.
      assert (Hloop :
                forall s w3 w4,
                  value_of (forEachM
                              (fun obj entry =>
                                 v <~ generateExampleValue_rec fuel (snd entry) (fst entry) ;;
                                 ret (set obj (key_name (fst entry)) v))
                              (each_entries ps) s w3)
                  = value_of (forEachM
                                (fun obj entry =>
                                   v <~ generateExampleValue_rec fuel (snd entry) (fst entry) ;;
                                   ret (set obj (key_name (fst entry)) v))
                                (each_entries ps) s w4)).
      { apply forEachM_value. intros s e w3 w4 Hin. unfold bindM.
        pose proof (IH (snd e) (time_dependent_entries p ps e Hp Hps Hin) (fst e) w3 w4)
          as He'.
        destruct (generateExampleValue_rec fuel (snd e) (fst e) w3) as [[v3 w3'] | |],
                 (generateExampleValue_rec fuel (snd e) (fst e) w4) as [[v4 w4'] | |];
          simpl in He' |- *; try discriminate He'; inversion He'; subst; reflexivity. }
      specialize (Hloop [] w1 w2).
      destruct (forEachM _ (each_entries ps) [] w1) as [[o1 w1'] | |],
               (forEachM _ (each_entries ps) [] w2) as [[o2 w2'] | |];
        simpl in Hloop |- *; try discriminate Hloop; inversion Hloop; subst; reflexivity.
    + unfold contextual_example.
      destruct (key_is n "status"); try reflexivity.
      destruct (key_is n "title" || key_is n "name"); try reflexivity.
      destruct (key_is n "content"); try reflexivity.
      destruct (key_is n "excerpt"); try reflexivity.
      destruct (key_is n "slug"); try reflexivity.
      destruct (key_is n "password"); try reflexivity.
      destruct (key_is n "author"); try reflexivity.
      unfold bindM, lift.
      destruct (get p "format") as [f | |] eqn:Hf; try reflexivity.
      destruct (is_str f "date-time") eqn:Hdt.
      * pose proof (date_time_case_intro p d f He Hd Hu Hf Hdt) as Hcase.
        rewrite (time_dependent_case p Hp) in Hcase. discriminate Hcase.
      * destruct (is_str f "uri"); reflexivity.
Qed.

(** C9. Two structurally equal field definitions and the same field name
    yield equal example values, whatever the state of the world at the two
    calls, unless the field (or a field nested in it) has the [date-time]
    format and neither enum nor default. *)
Theorem generateExampleValue_deterministic (p1 p2 : jsval) (name : jskey) (w1 w2 : world) :
  p1 = p2 ->
  time_dependent p1 = false ->
  value_of (generateExampleValue p1 name w1) = value_of (generateExampleValue p2 name w2).
Proof.
  intros <- Hp. unfold generateExampleValue.
  apply generateExampleValue_rec_deterministic. exact Hp.
Qed.

Lemma generateExampleValue_deterministic_witness :
  let p := JObj [("type", JStr "object");
                 ("properties",
                  JObj [("rendered", JObj [("type", JStr "string"); ("format", JStr "uri")]);
                        ("date", JObj [("format", JStr "date-time");
                                       ("default", JStr "2020-02-02T02:02:02")])])] in
  time_dependent p = false
  /\ value_of (generateExampleValue p (KStr "guid") w0)
     = value_of (generateExampleValue p (KStr "guid")
                   (mkWorld 7 (fun _ => "1999-12-31T23:59:59.999Z") 3)).
Proof.
  intros p.
  assert (H : time_dependent p = false) by reflexivity.
  split; [exact H |].
  exact (generateExampleValue_deterministic p p (KStr "guid") w0
           (mkWorld 7 (fun _ => "1999-12-31T23:59:59.999Z") 3) eq_refl H).
Defined.

(** The exception is needed: a [date-time] field reads the clock. *)
Lemma date_time_field_reads_clock (w : world) :
  generateExampleValue (JObj [("format", JStr "date-time")]) (KStr "modified") w
  = Ok (JStr (clock w (clock_reads w)),
        mkWorld (next_uid w) (clock w) (S (clock_reads w))).
Proof. reflexivity. Qed.

(** ** Folder Organizer *)

Lemma mem_In (x : string) (l : list string) : mem x l = true <-> In x l.
Proof.
  unfold mem. rewrite existsb_exists. split.
  - intros (y & Hin & Heq). apply String.eqb_eq in Heq. subst. exact Hin.
  - intros Hin. exists x. split; [exact Hin | apply String.eqb_refl].
Qed.

Lemma mem_false (x : string) (l : list string) : mem x l = false <-> ~ In x l.
Proof.
  rewrite <- mem_In. destruct (mem x l); split; intros H; congruence.
Qed.

Lemma first_seen_In (x : string) (l : list string) : In x (first_seen l) <-> In x l.
Proof.
  induction l as [| a l IH]; simpl; [tauto |].
  rewrite filter_In, IH. split.
  - intros [H | [H _]]; auto.
  - intros [H | H]; auto.
    destruct (String.eqb_spec x a) as [-> | Hne]; auto.
Qed.

Lemma first_seen_NoDup (l : list string) : NoDup (first_seen l).
Proof.
  induction l as [| a l IH]; simpl; constructor.
  - rewrite filter_In. intros [_ H]. rewrite String.eqb_refl in H. discriminate.
  - apply NoDup_filter. exact IH.
Qed.

(** First-seen order grows at the end, and only by a new element. *)
Lemma first_seen_snoc (l : list string) (x : string) :
  first_seen (l ++ [x]) = (first_seen l ++ if mem x l then [] else [x])%list.
Proof.
  induction l as [| a l IH]; simpl; [reflexivity |].
  rewrite IH, filter_app. f_equal. f_equal.
  unfold mem in *. simpl.
  destruct (existsb (String.eqb x) l); simpl.
  - rewrite orb_true_r. reflexivity.
  - rewrite orb_false_r. destruct (String.eqb x a); reflexivity.
Qed.

Lemma mem_first_seen (x : string) (l : list string) : mem x (first_seen l) = mem x l.
Proof.
  destruct (mem x l) eqn:H.
  - apply mem_In. apply first_seen_In. apply mem_In. exact H.
  - apply mem_false. rewrite first_seen_In. apply mem_false. exact H.
Qed.

Lemma namespaces_of_snoc (l : list item) (it : item) :
  namespaces_of (l ++ [it])
  = match route_of it with
    | Some (ns, _) =>
        (namespaces_of l ++ if mem ns (namespaces_of l) then [] else [ns])%list
    | None => namespaces_of l
    end.
Proof.
  unfold namespaces_of. rewrite flat_map_app. simpl.
  destruct (route_of it) as [[ns r] |]; simpl.
  - rewrite first_seen_snoc, mem_first_seen. reflexivity.
  - rewrite !app_nil_r. reflexivity.
Qed.

Lemma resources_of_snoc (ns' : string) (l : list item) (it : item) :
  resources_of ns' (l ++ [it])
  = match route_of it with
    | Some (ns, r) =>
        if String.eqb ns ns'
        then (resources_of ns' l ++ if mem r (resources_of ns' l) then [] else [r])%list
        else resources_of ns' l
    | None => resources_of ns' l
    end.
Proof.
  unfold resources_of. rewrite flat_map_app. simpl.
  destruct (route_of it) as [[ns r] |]; simpl.
  - destruct (String.eqb ns ns'); simpl.
    + rewrite first_seen_snoc, mem_first_seen. reflexivity.
    + rewrite !app_nil_r. reflexivity.
  - rewrite !app_nil_r. reflexivity.
Qed.

Lemma members_of_snoc (ns' r' : string) (l : list item) (it : item) :
  members_of ns' r' (l ++ [it])
  = (members_of ns' r' l
     ++ match route_of it with
        | Some (ns, r) => if String.eqb ns ns' && String.eqb r r' then [it] else []
        | None => []
        end)%list.
Proof.
  unfold members_of. rewrite filter_app. simpl.
  destruct (route_of it) as [[ns r] |]; [| reflexivity].
  destruct (String.eqb ns ns' && String.eqb r r'); reflexivity.
Qed.

(** A namespace no descriptor is in has no resources. *)
Lemma resources_of_unseen (ns : string) (l : list item) :
  ~ In ns (namespaces_of l) -> resources_of ns l = [].
Proof.
  unfold namespaces_of, resources_of. rewrite first_seen_In.
  induction l as [| it l IH]; simpl; [reflexivity |].
  intros Hnot. destruct (route_of it) as [[ns' r] |]; simpl in *.
  - destruct (String.eqb_spec ns' ns) as [-> | Hne].
    + exfalso. apply Hnot. left. reflexivity.
    + simpl. apply IH. intros H. apply Hnot. right. exact H.
  - apply IH. exact Hnot.
Qed.

Lemma members_of_unseen (ns r : string) (l : list item) :
  ~ In r (resources_of ns l) -> members_of ns r l = [].
Proof.
  unfold resources_of, members_of. rewrite first_seen_In.
  induction l as [| it l IH]; simpl; [reflexivity |].
  intros Hnot. destruct (route_of it) as [[ns' r'] |]; simpl in *.
  - destruct (String.eqb_spec ns' ns) as [-> | Hne]; simpl in *.
    + destruct (String.eqb_spec r' r) as [-> | Hne'].
      * exfalso. apply Hnot. left. reflexivity.
      * apply IH. intros H. apply Hnot. right. exact H.
    + apply IH. exact Hnot.
  - apply IH. exact Hnot.
Qed.

Lemma map_get_In (k : string) (m : namespace_map) (f : namespace_folder) :
  map_get k m = Some f -> In (k, f) m.
Proof.
  induction m as [| [k' f'] m IH]; simpl; [discriminate |].
  destruct (String.eqb_spec k k') as [-> | _].
  - intros H. inversion H. left. reflexivity.
  - intros H. right. apply IH. exact H.
Qed.

Lemma map_get_None (k : string) (m : namespace_map) :
  map_get k m = None -> ~ In k (map fst m).
Proof.
  induction m as [| [k' f'] m IH]; simpl; [tauto |].
  destruct (String.eqb_spec k k') as [-> | Hne]; [discriminate |].
  intros H [Heq | Hin]; [congruence | exact (IH H Hin)].
Qed.

Lemma map_get_snoc (k : string) (m : namespace_map) (f : namespace_folder) :
  map_get k m = None -> map_get k (m ++ [(k, f)])%list = Some f.
Proof.
  induction m as [| [k' f'] m IH]; simpl.
  - rewrite String.eqb_refl. reflexivity.
  - destruct (String.eqb k k'); [discriminate | exact IH].
Qed.

Lemma map_update_keys (k : string) (g : namespace_folder -> namespace_folder)
      (m : namespace_map) :
  map fst (map_update k g m) = map fst m.
Proof.
  induction m as [| [k' f'] m IH]; simpl; [reflexivity |].
  destruct (String.eqb k k'); simpl; [reflexivity | rewrite IH; reflexivity].
Qed.

(** Updating the folder of a key turns an invariant of all entries into
    another, given that it does so at that key and elsewhere. *)
Lemma map_update_Forall (P Q : string * namespace_folder -> Prop) (k : string)
      (g : namespace_folder -> namespace_folder) (m : namespace_map) :
  NoDup (map fst m) ->
  Forall P m ->
  (forall f, map_get k m = Some f -> P (k, f) -> Q (k, g f)) ->
  (forall k' f, k' <> k -> P (k', f) -> Q (k', f)) ->
  Forall Q (map_update k g m).
Proof.
  induction m as [| [k' f'] m IH]; simpl; intros Hnd HP Hat Helse; [constructor |].
  inversion Hnd as [| ? ? Hnotin Hnd']; subst.
  inversion HP as [| ? ? Hhead Htail]; subst.
  destruct (String.eqb_spec k k') as [<- | Hne].
  - constructor.
    + apply Hat; [reflexivity | exact Hhead].
    + rewrite Forall_forall in Htail |- *. intros [k2 f2] Hin.
      apply Helse; [| apply Htail; exact Hin].
      intros ->. apply Hnotin. apply in_map_iff. exists (k, f2). split; [reflexivity | exact Hin].
  - constructor.
    + apply Helse; [congruence | exact Hhead].
    + apply IH; assumption.
Qed.

Lemma push_item_names (r : string) (it : item) (fs : list resource_folder) :
  map rf_name (push_item r it fs) = map rf_name fs.
Proof.
  induction fs as [| f fs IH]; simpl; [reflexivity |].
  destruct (String.eqb (rf_name f) r); simpl; [reflexivity | rewrite IH; reflexivity].
Qed.

(** A descriptor of another resource, or of another namespace, leaves a
    resource folder as it is. *)
Lemma resource_inv_other (ns r : string) (l : list item) (it : item)
      (ns' : string) (rf : resource_folder) :
  route_of it = Some (ns, r) ->
  ns <> ns' \/ r <> rf_name rf ->
  resource_inv ns' l rf -> resource_inv ns' (l ++ [it]) rf.
Proof.
  unfold resource_inv. intros Hroute Hne Hinv.
  rewrite members_of_snoc, Hroute, Hinv.
  destruct (String.eqb_spec ns ns') as [-> | _]; simpl.
  - destruct (String.eqb_spec r (rf_name rf)) as [-> | _].
    + destruct Hne as [H | H]; contradiction H; reflexivity.
    + rewrite app_nil_r. reflexivity.
  - rewrite app_nil_r. reflexivity.
Qed.

Lemma push_item_inv (ns r : string) (l : list item) (it : item)
      (fs : list resource_folder) :
  route_of it = Some (ns, r) ->
  NoDup (map rf_name fs) ->
  Forall (resource_inv ns l) fs ->
  Forall (resource_inv ns (l ++ [it])) (push_item r it fs).
Proof.
  intros Hroute. induction fs as [| f fs IH]; simpl; intros Hnd Hinv; [constructor |].
  inversion Hnd as [| ? ? Hnotin Hnd']; subst.
  inversion Hinv as [| ? ? Hhead Htail]; subst.
  destruct (String.eqb_spec (rf_name f) r) as [Heq | Hne].
  - constructor.
    + unfold resource_inv in *. simpl.
      rewrite members_of_snoc, Hroute, Hhead, Heq, !String.eqb_refl. reflexivity.
    + rewrite Forall_forall in Htail |- *. intros rf Hin.
      apply (resource_inv_other ns r l it ns rf Hroute); [| apply Htail; exact Hin].
      right. intros ->. apply Hnotin. rewrite Heq. apply in_map. exact Hin.
  - constructor.
    + apply (resource_inv_other ns r l it ns f Hroute); [| exact Hhead].
      right. congruence.
    + apply IH; assumption.
Qed.

Lemma new_resource_inv (ns r : string) (l : list item) (it : item) (u : nat)
      (fs : list resource_folder) :
  route_of it = Some (ns, r) ->
  map rf_name fs = resources_of ns l ->
  ~ In r (map rf_name fs) ->
  Forall (resource_inv ns l) fs ->
  Forall (resource_inv ns (l ++ [it])) (fs ++ [mkResourceFolder u r [it]])%list.
Proof.
  intros Hroute Hnames Hnotin Hinv. apply Forall_app. split.
  - rewrite Forall_forall in Hinv |- *. intros rf Hin.
    apply (resource_inv_other ns r l it ns rf Hroute); [| apply Hinv; exact Hin].
    right. intros ->. apply Hnotin. apply in_map. exact Hin.
  - constructor; [| constructor]. unfold resource_inv. simpl.
    rewrite members_of_snoc, Hroute, !String.eqb_refl. simpl.
    rewrite members_of_unseen; [reflexivity |].
    rewrite <- Hnames. exact Hnotin.
Qed.

(** A descriptor of another namespace leaves a namespace folder as it is. *)
Lemma folder_inv_other (ns r : string) (l : list item) (it : item)
      (entry : string * namespace_folder) :
  route_of it = Some (ns, r) ->
  fst entry <> ns ->
  folder_inv l entry -> folder_inv (l ++ [it]) entry.
Proof.
  intros Hroute Hne (Hname & Hnames & Hitems).
  split; [exact Hname | split].
  - rewrite resources_of_snoc, Hroute.
    destruct (String.eqb_spec ns (fst entry)) as [Heq | _]; [congruence | exact Hnames].
  - rewrite Forall_forall in Hitems |- *. intros rf Hin.
    apply (resource_inv_other ns r l it (fst entry) rf Hroute); [| apply Hitems; exact Hin].
    left. congruence.
Qed.

Lemma folder_inv_unmatched (l : list item) (it : item) (entry : string * namespace_folder) :
  route_of it = None ->
  folder_inv l entry -> folder_inv (l ++ [it]) entry.
Proof.
  intros Hroute (Hname & Hnames & Hitems).
  split; [exact Hname | split].
  - rewrite resources_of_snoc, Hroute. exact Hnames.
  - rewrite Forall_forall in Hitems |- *. intros rf Hin.
    unfold resource_inv. rewrite members_of_snoc, Hroute, app_nil_r.
    apply Hitems. exact Hin.
Qed.

Lemma found_In (r : string) (fs : list resource_folder) :
  existsb (fun folder => String.eqb (rf_name folder) r) fs = mem r (map rf_name fs).
Proof.
  unfold mem. induction fs as [| f fs IH]; simpl; [reflexivity |].
  rewrite IH, (String.eqb_sym r). reflexivity.
Qed.

(** One iteration of the loop files the descriptor and keeps the folders
    in first-seen order. *)
Lemma organize_item_step (l : list item) (m : namespace_map) (it : item) (w : world) :
  organize_inv l m ->
  exists m' w', organize_item m it w = Ok (m', w') /\ organize_inv (l ++ [it]) m'.
Proof.
  intros (Hkeys & Hall). unfold organize_item.
  change (Str.match_namespace (url (request_of it))) with (route_of it).
  destruct (route_of it) as [[ns r] |] eqn:Hroute.
  - (* the namespace folder *)
    assert (Hfirst :
              exists m1 w1 f,
                (match map_get ns m with
                 | Some _ => ret m
                 | None =>
                     u <~ uuid ;;
                     ret (m ++ [(ns, mkNamespaceFolder u (Str.slashes_to_dashes ns) [])])%list
                 end) w = Ok (m1, w1)
                /\ map fst m1 = namespaces_of (l ++ [it])
                /\ Forall (folder_inv l) m1
                /\ map_get ns m1 = Some f).
    { destruct (map_get ns m) as [f |] eqn:Hget.
      - exists m, w, f. split; [reflexivity |].
        split; [| split; [exact Hall | exact Hget]].
        rewrite namespaces_of_snoc, Hroute.
        assert (Hmem : mem ns (namespaces_of l) = true).
        { apply mem_In. rewrite <- Hkeys. apply map_get_In in Hget.
          apply in_map_iff. exists (ns, f). split; [reflexivity | exact Hget]. }
        rewrite Hmem, app_nil_r. exact Hkeys.
      - eexists. eexists. eexists. split; [reflexivity |].
        split; [| split; [| apply map_get_snoc; exact Hget]].
        + rewrite namespaces_of_snoc, Hroute.
          assert (Hmem : mem ns (namespaces_of l) = false).
          { apply mem_false. rewrite <- Hkeys. apply map_get_None. exact Hget. }
          rewrite Hmem, map_app, Hkeys. reflexivity.
        + apply Forall_app. split; [exact Hall |].
          constructor; [| constructor].
          split; [reflexivity | split; [| constructor]]. simpl.
          symmetry. apply resources_of_unseen.
          rewrite <- Hkeys. apply map_get_None. exact Hget. }
    destruct Hfirst as (m1 & w1 & f & Hrun1 & Hkeys1 & Hall1 & Hget1).
    unfold bindM at 1. rewrite Hrun1, Hget1.
    assert (Hnd : NoDup (map fst m1)).
    { rewrite Hkeys1. apply first_seen_NoDup. }
    assert (Hf : folder_inv l (ns, f)).
    { rewrite Forall_forall in Hall1. apply Hall1. apply map_get_In. exact Hget1. }
    destruct Hf as (_ & Hnames & _). simpl in Hnames.
    rewrite found_In, Hnames.
    destruct (mem r (resources_of ns l)) eqn:Hfound.
    + (* the resource folder exists *)
      eexists. eexists. split; [reflexivity |]. split.
      * rewrite map_update_keys. exact Hkeys1.
      * apply (map_update_Forall (folder_inv l)); try assumption.
        -- intros f' Hget' (Hname' & Hnames' & Hitems'). simpl in *.
           split; [exact Hname' | split]; simpl.
           ++ rewrite push_item_names, resources_of_snoc, Hroute, String.eqb_refl,
                Hfound, app_nil_r. exact Hnames'.
           ++ apply push_item_inv; try assumption.
              rewrite Hnames'. apply first_seen_NoDup.
        -- intros k' f' Hne Hinv. apply (folder_inv_other ns r); assumption.
    + (* a new resource folder *)
      eexists. eexists. split; [reflexivity |]. split.
      * rewrite map_update_keys. exact Hkeys1.
      * apply (map_update_Forall (folder_inv l)); try assumption.
        -- intros f' Hget' (Hname' & Hnames' & Hitems'). simpl in *.
           split; [exact Hname' | split]; simpl.
           ++ rewrite map_app, resources_of_snoc, Hroute, String.eqb_refl, Hfound,
                Hnames'. reflexivity.
           ++ apply new_resource_inv; try assumption.
              rewrite Hnames'. apply mem_false. exact Hfound.
        -- intros k' f' Hne Hinv. apply (folder_inv_other ns r); assumption.
  - exists m, w. split; [reflexivity |]. split.
    + rewrite namespaces_of_snoc, Hroute. exact Hkeys.
    + rewrite Forall_forall in Hall |- *. intros entry Hin.
      apply folder_inv_unmatched; [exact Hroute | apply Hall; exact Hin].
Qed.

Lemma organize_loop (items : list item) :
  forall (l : list item) (m : namespace_map) (w : world),
    organize_inv l m ->
    exists m' w',
      forEachM organize_item items m w = Ok (m', w') /\ organize_inv (l ++ items) m'.
Proof.
  induction items as [| it items IH]; intros l m w Hinv.
  - exists m, w. rewrite app_nil_r. split; [reflexivity | exact Hinv].
  - destruct (organize_item_step l m it w Hinv) as (m1 & w1 & Hstep & Hinv1).
    destruct (IH (l ++ [it])%list m1 w1 Hinv1) as (m' & w' & Hrun & Hinv').
    exists m', w'. split.
    + simpl. unfold bindM. rewrite Hstep. exact Hrun.
    + rewrite <- app_assoc in Hinv'. exact Hinv'.
Qed.

Lemma organize_inv_shape (l : list item) (m : namespace_map) :
  organize_inv l m -> shape (map snd m) = organize_spec l.
Proof.
  intros (Hkeys & Hall). unfold shape, organize_spec.
  rewrite <- Hkeys, !map_map. apply map_ext_in.
  intros [ns f] Hin. rewrite Forall_forall in Hall.
  destruct (Hall _ Hin) as (Hname & Hnames & Hitems). simpl in *.
  rewrite Hname, <- Hnames, map_map. f_equal.
  apply map_ext_in. intros rf Hrf.
  rewrite Forall_forall in Hitems. rewrite (Hitems rf Hrf). reflexivity.
Qed.

Lemma members_of_In (ns r : string) (items : list item) (it : item) :
  In it (members_of ns r items) <-> In it items /\ route_of it = Some (ns, r).
Proof.
  unfold members_of. rewrite filter_In. split; intros [Hin H]; split; try exact Hin.
  - destruct (route_of it) as [[ns' r'] |]; [| discriminate].
    apply andb_prop in H. destruct H as [H1 H2].
    apply String.eqb_eq in H1, H2. subst. reflexivity.
  - rewrite H, !String.eqb_refl. reflexivity.
Qed.

Lemma namespaces_of_In (ns : string) (items : list item) :
  In ns (namespaces_of items) <-> exists it r, In it items /\ route_of it = Some (ns, r).
Proof.
  unfold namespaces_of. rewrite first_seen_In, in_flat_map. split.
  - intros (it & Hin & H). destruct (route_of it) as [[ns' r] |] eqn:Hroute; [| contradiction].
    destruct H as [<- | []]. exists it, r. split; assumption.
  - intros (it & r & Hin & Hroute). exists it. split; [exact Hin |].
    rewrite Hroute. left. reflexivity.
Qed.

Lemma resources_of_In (ns r : string) (items : list item) :
  In r (resources_of ns items) <-> exists it, In it items /\ route_of it = Some (ns, r).
Proof.
  unfold resources_of. rewrite first_seen_In, in_flat_map. split.
  - intros (it & Hin & H). destruct (route_of it) as [[ns' r'] |] eqn:Hroute; [| contradiction].
    destruct (String.eqb_spec ns' ns) as [-> | _]; [| contradiction].
    destruct H as [<- | []]. exists it. split; assumption.
  - intros (it & Hin & Hroute). exists it. split; [exact Hin |].
    rewrite Hroute, String.eqb_refl. left. reflexivity.
Qed.

Lemma filed_shape (folders : list namespace_folder) (it : item) :
  In it (filed folders)
  <-> exists e rs, In e (shape folders) /\ In rs (snd e) /\ In it (snd rs).
Proof.
  unfold filed, shape. rewrite in_flat_map. split.
  - intros (f & Hf & Hin). apply in_flat_map in Hin. destruct Hin as (rf & Hrf & Hin).
    exists (nf_name f, map (fun r => (rf_name r, rf_items r)) (nf_items f)),
           (rf_name rf, rf_items rf).
    split; [| split; [| exact Hin]].
    + apply in_map_iff. exists f. split; [reflexivity | exact Hf].
    + simpl. apply in_map_iff. exists rf. split; [reflexivity | exact Hrf].
  - intros (e & rs & He & Hrs & Hin).
    apply in_map_iff in He. destruct He as (f & <- & Hf). simpl in Hrs.
    apply in_map_iff in Hrs. destruct Hrs as (rf & <- & Hrf). simpl in Hin.
    exists f. split; [exact Hf |]. apply in_flat_map. exists rf. split; assumption.
Qed.

Lemma Permutation_filter {A : Type} (f : A -> bool) (l l' : list A) :
  Permutation l l' -> Permutation (filter f l) (filter f l').
Proof.
  induction 1 as [| x l l' _ IH | x y l | l l' l'' _ IH1 _ IH2]; simpl.
  - constructor.
  - destruct (f x); [constructor |]; exact IH.
  - destruct (f x), (f y); try apply Permutation_refl. constructor.
  - exact (Permutation_trans IH1 IH2).
Qed.

Lemma first_seen_Permutation (l l' : list string) :
  Permutation l l' -> Permutation (first_seen l) (first_seen l').
Proof.
  intros Hp. apply NoDup_Permutation; try apply first_seen_NoDup.
  intros x. rewrite !first_seen_In. split; apply Permutation_in.
  - exact Hp.
  - apply Permutation_sym. exact Hp.
Qed.

(** C8. The organizer returns, for any list of descriptors, the namespace
    folders in the order the namespaces are first seen, in each of them the
    resource folders in the order the resources are first seen, and in each
    of those the descriptors of that resource in input order; a descriptor
    is filed exactly when its URL has the namespace and resource shape.
    Permuting the input changes these orders only: the namespaces, the
    resources of a namespace and the descriptors of a resource stay the
    same up to order. *)
Theorem organizeIntoFolders_first_seen (items : list item) (w : world) :
  exists folders w',
    organizeIntoFolders items w = Ok (folders, w')
    /\ shape folders = organize_spec items
    /\ (forall it, In it (filed folders) <-> In it items /\ route_of it <> None)
    /\ (forall items',
           Permutation items items' ->
           Permutation (namespaces_of items) (namespaces_of items')
           /\ (forall ns, Permutation (resources_of ns items) (resources_of ns items'))
           /\ (forall ns r,
                  Permutation (members_of ns r items) (members_of ns r items'))).
Proof.
  destruct (organize_loop items [] [] w) as (m & w' & Hrun & Hinv).
  { split; constructor. }
  simpl in Hinv. pose proof (organize_inv_shape items m Hinv) as Hshape.
  exists (map snd m), w'. split; [| split; [exact Hshape | split]].
  - unfold organizeIntoFolders, bindM. rewrite Hrun. reflexivity.
  - intros it. rewrite filed_shape, Hshape. unfold organize_spec. split.
    + intros (e & rs & He & Hrs & Hin).
      apply in_map_iff in He. destruct He as (ns & <- & _). simpl in Hrs.
      apply in_map_iff in Hrs. destruct Hrs as (r & <- & _). simpl in Hin.
      apply members_of_In in Hin. destruct Hin as [Hin Hroute].
      split; [exact Hin | congruence].
    + intros [Hin Hroute].
      destruct (route_of it) as [[ns r] |] eqn:Hr; [| contradiction].
      exists (Str.slashes_to_dashes ns,
              map (fun r => (r, members_of ns r items)) (resources_of ns items)),
             (r, members_of ns r items).
      split; [| split].
      * apply in_map_iff. exists ns. split; [reflexivity |].
        apply namespaces_of_In. exists it, r. split; assumption.
      * simpl. apply in_map_iff. exists r. split; [reflexivity |].
        apply resources_of_In. exists it. split; assumption.
      * simpl. apply members_of_In. split; assumption.
  - intros items' Hp. split; [| split].
    + unfold namespaces_of. apply first_seen_Permutation.
      apply Permutation_flat_map. exact Hp.
    + intros ns. unfold resources_of. apply first_seen_Permutation.
      apply Permutation_flat_map. exact Hp.
    + intros ns r. unfold members_of. apply Permutation_filter. exact Hp.
Qed.

Lemma organizeIntoFolders_first_seen_witness :
  let descriptor u route :=
    mkItem u "List" (mkRequest ("{{baseUrl}}" ++ route) "GET" [] []
                       (mkBody ModeNone None) "" []) in
  let posts := descriptor 10 "/wp/v2/posts" in
  let pages := descriptor 11 "/wp/v2/pages" in
  let index := descriptor 12 "/" in
  Permutation [posts; index; pages] [pages; index; posts]
  /\ value_of (organizeIntoFolders [posts; index; pages] w0)
     = Ok [mkNamespaceFolder 0 "wp-v2"
             [mkResourceFolder 1 "posts" [posts]; mkResourceFolder 2 "pages" [pages]]]
  /\ value_of (organizeIntoFolders [pages; index; posts] w0)
     = Ok [mkNamespaceFolder 0 "wp-v2"
             [mkResourceFolder 1 "pages" [pages]; mkResourceFolder 2 "posts" [posts]]]
  /\ Permutation (resources_of "wp/v2" [posts; index; pages])
                 (resources_of "wp/v2" [pages; index; posts]).
Proof.
  intros descriptor posts pages index.
  assert (Hp : Permutation [posts; index; pages] [pages; index; posts]).
  { apply (perm_trans (l' := [index; posts; pages])); [apply perm_swap |].
    apply (perm_trans (l' := [index; pages; posts])); [apply perm_skip; apply perm_swap |].
    apply perm_swap. }
  split; [exact Hp | split; [reflexivity | split; [reflexivity |]]].
  destruct (organizeIntoFolders_first_seen [posts; index; pages] w0)
    as (folders & w' & _ & _ & _ & Hstable).
  exact (proj1 (proj2 (Hstable [pages; index; posts] Hp)) "wp/v2").
Defined.

(** ** Values and the objects the engine builds *)

(** Induction on documents: the elements of an array and the members of an
    object come with the induction hypothesis. *)
Lemma jsval_induction (P : jsval -> Prop) :
  P JUndefined -> P JNull -> (forall b, P (JBool b)) -> (forall n, P (JNum n)) ->
  (forall s, P (JStr s)) ->
  (forall l, Forall P l -> P (JArr l)) ->
  (forall m, Forall (fun kv => P (snd kv)) m -> P (JObj m)) ->
  forall v, P v.
Proof.
  intros Hu Hn Hb Hz Hs Ha Ho.
  fix self 1. intros [| | b | n | s | l | m].
  - exact Hu.
  - exact Hn.
  - apply Hb.
  - apply Hz.
  - apply Hs.
  - apply Ha. induction l as [| x l IH]; constructor; [apply self | exact IH].
  - apply Ho. induction m as [| [k x] m IH]; constructor; [apply self | exact IH].
Qed.

Lemma join_with_cons (to_s : jsval -> result string) (sep : string)
      (x : jsval) (l : list jsval) :
  join_with to_s sep (x :: l)
  = (a <- match x with
          | JUndefined | JNull => Ok ""
          | _ => to_s x
          end ;;
     match l with
     | [] => Ok a
     | _ :: _ => b <- join_with to_s sep l ;; Ok (a ++ sep ++ b)
     end).
Proof. reflexivity. Qed.

Lemma join_with_total (to_s : jsval -> result string) (sep : string) (l : list jsval) :
  Forall (fun x => exists s, to_s x = Ok s) l ->
  exists s, join_with to_s sep l = Ok s.
Proof.
  induction 1 as [| x l (s & Hx) _ (s' & IH)].
  - exists "". reflexivity.
  - assert (Hhead : exists a, match x with
                              | JUndefined | JNull => Ok ""
                              | _ => to_s x
                              end = Ok a).
    { destruct x; try (exists s; exact Hx); exists ""; reflexivity. }
    destruct Hhead as (a & Ha). rewrite join_with_cons, Ha. unfold bind.
    destruct l as [| y l].
    + exists a. reflexivity.
    + rewrite IH. eexists. reflexivity.
Qed.

(** A plain value prints. *)
Lemma to_string_plain (v : jsval) : plain v = true -> exists s, to_string v = Ok s.
Proof.
  induction v as [| | b | n | s | l IH | m _] using jsval_induction; simpl; intros Hp.
  - eexists. reflexivity.
  - eexists. reflexivity.
  - destruct b; eexists; reflexivity.
  - eexists. reflexivity.
  - eexists. reflexivity.
  - apply join_with_total. rewrite forallb_forall in Hp.
    rewrite Forall_forall in IH |- *. intros x Hin. apply IH; [exact Hin | apply Hp; exact Hin].
  - destruct (has_key "toString" m); [discriminate |]. eexists. reflexivity.
Qed.

Lemma mapM_total {A B : Type} (P : B -> Prop) (f : A -> result B) (l : list A) :
  Forall (fun a => exists b, f a = Ok b /\ P b) l ->
  exists bs, mapM f l = Ok bs /\ Forall P bs.
Proof.
  induction 1 as [| a l (b & Hb & HP) _ (bs & Hbs & HPs)]; simpl.
  - exists []. split; [reflexivity | constructor].
  - rewrite Hb. simpl.
    change ((fix go (l : list A) : result (list B) :=
               match l with
               | [] => Ok []
               | a :: l' => b <- f a ;; bs <- go l' ;; Ok (b :: bs)
               end) l) with (mapM f l).
    rewrite Hbs. simpl. exists (b :: bs). split; [reflexivity | constructor; assumption].
Qed.

Lemma normalizeWordPressType_scalar (t : jsval) (k : string) :
  (forall l, t <> JArr l) ->
  to_string t = Ok k ->
  normalizeWordPressType t
  = Ok (match assoc k typeReplacements with
        | Some t' => or_else t' t
        | None => t
        end).
Proof.
  intros Hna Hk.
  destruct t as [| | [|] | n | s | l | m];
    try (simpl; simpl in Hk; rewrite Hk; reflexivity);
    try (simpl in Hk; inversion Hk; subst k; reflexivity).
  exfalso. apply (Hna l). reflexivity.
Qed.

Lemma string_get_length (s : string) (i : nat) :
  i < String.length s -> exists c, String.get i s = Some c.
Proof.
  revert i. induction s as [| c s IH]; simpl; intros i Hi; [lia |].
  destruct i as [| i]; [exists c; reflexivity |].
  apply IH. lia.
Qed.

Lemma assoc_replace_member (k k' : string) (v : jsval) (m : list (string * jsval)) :
  assoc k' (replace_member k v m)
  = if String.eqb k k' && has_key k m then Some v else assoc k' m.
Proof.
  unfold has_key. induction m as [| [k1 v1] m IH]; simpl.
  - rewrite andb_false_r. reflexivity.
  - destruct (String.eqb_spec k k1) as [-> | Hne]; simpl.
    + rewrite andb_true_r, (String.eqb_sym k1 k'). destruct (String.eqb k' k1); reflexivity.
    + rewrite IH. destruct (String.eqb_spec k' k1) as [-> | Hne'].
      * destruct (String.eqb_spec k k1) as [Heq | _]; [contradiction | reflexivity].
      * reflexivity.
Qed.

Lemma assoc_insert_index (i : nat) (k k' : string) (v : jsval) (m : list (string * jsval)) :
  has_key k m = false ->
  assoc k' (insert_index i k v m) = if String.eqb k k' then Some v else assoc k' m.
Proof.
  unfold has_key. induction m as [| [k1 v1] m IH]; simpl; intros Hk.
  - rewrite (String.eqb_sym k' k). reflexivity.
  - destruct (String.eqb_spec k k1) as [-> | Hne]; [discriminate Hk |].
    assert (Hhere : assoc k' ((k, v) :: (k1, v1) :: m)
                    = if String.eqb k k' then Some v else assoc k' ((k1, v1) :: m)).
    { simpl. rewrite (String.eqb_sym k' k). reflexivity. }
    destruct (array_index k1) as [j |]; [| exact Hhere].
    destruct (j <? i)%nat; [| exact Hhere].
    simpl. rewrite (IH Hk).
    destruct (String.eqb_spec k' k1) as [-> | _]; [| reflexivity].
    destruct (String.eqb_spec k k1) as [Heq | _]; [contradiction | reflexivity].
Qed.

Lemma assoc_snoc (k k' : string) (v : jsval) (m : list (string * jsval)) :
  has_key k m = false ->
  assoc k' (m ++ [(k, v)]) = if String.eqb k k' then Some v else assoc k' m.
Proof.
  unfold has_key. induction m as [| [k1 v1] m IH]; simpl; intros Hk.
  - rewrite (String.eqb_sym k' k). reflexivity.
  - destruct (String.eqb_spec k k1) as [-> | Hne]; [discriminate Hk |].
    rewrite (IH Hk).
    destruct (String.eqb_spec k' k1) as [-> | _]; [| reflexivity].
    destruct (String.eqb_spec k k1) as [Heq | _]; [contradiction | reflexivity].
Qed.

(** Reading back what [obj[k] = v] wrote. *)
Lemma member_set (k k' : string) (v : jsval) (m : list (string * jsval)) :
  k <> "__proto__" ->
  member (set m k v) k' = if String.eqb k k' then v else member m k'.
Proof.
  intros Hk. unfold member, set.
  destruct (String.eqb_spec k "__proto__") as [Heq | _]; [contradiction |].
  destruct (has_key k m) eqn:Hhas.
  - rewrite assoc_replace_member, Hhas, andb_true_r.
    destruct (String.eqb k k'); reflexivity.
  - destruct (array_index k) as [i |].
    + rewrite (assoc_insert_index i k k' v m Hhas). destruct (String.eqb k k'); reflexivity.
    + rewrite (assoc_snoc k k' v m Hhas). destruct (String.eqb k k'); reflexivity.
Qed.

Lemma dedupe_from_In (seen l : list jsval) (x : jsval) :
  In x (dedupe_from seen l) -> In x l.
Proof.
  revert seen. induction l as [| y l IH]; simpl; intros seen Hin; [exact Hin |].
  destruct (existsb (same_value y) seen).
  - right. exact (IH _ Hin).
  - destruct Hin as [-> | Hin]; [left; reflexivity | right; exact (IH _ Hin)].
Qed.

Lemma foldM_total {A S : Type} (P : S -> Prop) (f : S -> A -> result S) (l : list A) :
  (forall s a, In a l -> P s -> exists s', f s a = Ok s' /\ P s') ->
  forall s, P s -> exists s', foldM f l s = Ok s' /\ P s'.
Proof.
  induction l as [| a l IH]; intros Hstep s Hs.
  - exists s. split; [reflexivity | exact Hs].
  - destruct (Hstep s a (or_introl eq_refl) Hs) as (s1 & Hf & Hs1).
    destruct (IH (fun s a Hin => Hstep s a (or_intror Hin)) s1 Hs1) as (s' & Hrun & Hs').
    exists s'. split; [| exact Hs']. simpl. rewrite Hf. exact Hrun.
Qed.

(** ** Request Body Composer: where the members come from *)

Lemma keys_replace_member (k : string) (v : jsval) (m : list (string * jsval)) :
  keys (replace_member k v m) = keys m.
Proof.
  unfold keys. induction m as [| [k1 v1] m IH]; simpl; [reflexivity |].
  destruct (String.eqb k k1); simpl; [reflexivity | rewrite IH; reflexivity].
Qed.

Lemma keys_insert_index (i : nat) (k k' : string) (v : jsval) (m : list (string * jsval)) :
  In k' (keys (insert_index i k v m)) -> k' = k \/ In k' (keys m).
Proof.
  unfold keys. induction m as [| [k1 v1] m IH]; simpl.
  - intros [H | []]. left. symmetry. exact H.
  - destruct (array_index k1) as [j |].
    + destruct (j <? i)%nat; simpl.
      * intros [H | H]; [right; left; exact H |].
        destruct (IH H) as [Hk | Hk]; [left; exact Hk | right; right; exact Hk].
      * intros [H | H]; [left; symmetry; exact H | right; exact H].
    + simpl. intros [H | H]; [left; symmetry; exact H | right; exact H].
Qed.

(** [obj[k] = v] adds no key but [k]. *)
Lemma keys_set (k k' : string) (v : jsval) (m : list (string * jsval)) :
  In k' (keys (set m k v)) -> k' = k \/ In k' (keys m).
Proof.
  unfold set. destruct (String.eqb k "__proto__"); [right; assumption |].
  destruct (has_key k m).
  - rewrite keys_replace_member. right. assumption.
  - destruct (array_index k) as [i |].
    + apply keys_insert_index.
    + unfold keys. rewrite map_app, in_app_iff. simpl.
      intros [H | [H | []]]; [right; exact H | left; symmetry; exact H].
Qed.

(** The text holds no key the mapping does not hold. *)
Lemma keys_json_document (m : list (string * jsval)) (k : string) :
  In k (object_keys (json_document (JObj m))) -> In k (keys m).
Proof.
  simpl. unfold keys. induction m as [| [k1 v1] m IH]; simpl; [tauto |].
  destruct v1; simpl; intros H;
    try (destruct H as [H | H]; [left; exact H | right; exact (IH H)]).
  right. exact (IH H).
Qed.

(** [o[k] = v] adds no own key but [k]. *)
Lemma keys_assign (o : object) (k k' : string) (v : jsval) :
  In k' (keys (own (assign o k v))) -> k' = k \/ In k' (keys (own o)).
Proof.
  unfold assign. destruct (String.eqb k "__proto__").
  - destruct v; cbn [own]; right; assumption.
  - cbn [own]. apply keys_set.
Qed.

Lemma body_of_arg_keys (args : jsval) (method_ : string) (pathParams : list string)
      (body_ : object) (entry : jskey * jsval) (w : world)
      (body' : object) (w' : world) :
  In entry (each_entries args) ->
  (forall k, In k (keys (own body_)) -> from_args args pathParams k) ->
  body_of_arg method_ pathParams body_ entry w = Ok (body', w') ->
  forall k, In k (keys (own body')) -> from_args args pathParams k.
Proof.
  intros Hin Hinv Hrun. destruct entry as [argName arg]. unfold body_of_arg in Hrun.
  destruct (key_is argName "context" || key_in argName pathParams) eqn:Hskip.
  - apply ret_ok in Hrun. destruct Hrun as [-> _]. exact Hinv.
  - apply orb_false_elim in Hskip. destruct Hskip as [Hctx Hpath].
    apply bindM_ok in Hrun. destruct Hrun as (ro & w1 & Hro & Hrun).
    apply lift_ok in Hro. destruct Hro as [Hro ->].
    destruct (is_true ro) eqn:Htrue.
    + apply ret_ok in Hrun. destruct Hrun as [-> _]. exact Hinv.
    + destruct (getParameterLocation method_ argName pathParams);
        try (apply ret_ok in Hrun; destruct Hrun as [-> _]; exact Hinv).
      apply bindM_ok in Hrun. destruct Hrun as (t & w2 & _ & Hrun).
      apply bindM_ok in Hrun. destruct Hrun as (nt & w3 & _ & Hrun).
      apply bindM_ok in Hrun. destruct Hrun as (d & w4 & _ & Hrun).
      apply bindM_ok in Hrun. destruct Hrun as (e & w5 & _ & Hrun).
      apply bindM_ok in Hrun. destruct Hrun as (f & w6 & _ & Hrun).
      apply bindM_ok in Hrun. destruct Hrun as (v & w7 & _ & Hrun).
      apply ret_ok in Hrun. destruct Hrun as [-> _].
      intros k Hk. apply keys_assign in Hk. destruct Hk as [-> | Hk]; [| exact (Hinv k Hk)].
      exists argName, arg, ro. repeat split; assumption.
Qed.

Lemma body_of_schema_property_keys (args schema properties : jsval)
      (pathParams : list string)
      (body_ : object) (entry : jskey * jsval) (w : world)
      (body' : object) (w' : world) :
  get_opt schema "properties" = Ok properties ->
  In entry (each_entries properties) ->
  (forall k, In k (keys (own body_)) ->
             from_args args pathParams k \/ from_schema schema k) ->
  body_of_schema_property body_ entry w = Ok (body', w') ->
  forall k, In k (keys (own body')) -> from_args args pathParams k \/ from_schema schema k.
Proof.
  intros Hps Hin Hinv Hrun. destruct entry as [name_ property].
  unfold body_of_schema_property in Hrun.
  destruct (defines body_ (key_name name_)).
  - apply ret_ok in Hrun. destruct Hrun as [-> _]. exact Hinv.
  - apply bindM_ok in Hrun. destruct Hrun as (ro & w1 & Hro & Hrun).
    apply lift_ok in Hro. destruct Hro as [Hro ->].
    destruct (is_true ro) eqn:Htrue.
    + apply ret_ok in Hrun. destruct Hrun as [-> _]. exact Hinv.
    + destruct (key_in name_ commonFields) eqn:Hcommon.
      * apply bindM_ok in Hrun. destruct Hrun as (v & w2 & _ & Hrun).
        apply ret_ok in Hrun. destruct Hrun as [-> _].
        intros k Hk. apply keys_assign in Hk.
        destruct Hk as [-> | Hk]; [| exact (Hinv k Hk)].
        right. exists properties, name_, property, ro. repeat split; assumption.
      * apply ret_ok in Hrun. destruct Hrun as [-> _]. exact Hinv.
Qed.

(** The parts of C2 the code keeps. [generateRequestBody] returns [null]
    exactly when the object it built has no own key; the keys of a text it
    returns are own keys of that object; and every own key of the object
    names an argument that is not [context], not a path parameter and not
    marked read-only, or a common field of the schema that is not marked
    read-only. *)
Lemma request_body_provenance (args schema : jsval) (method_ : string)
      (pathParams : list string) (w : world) (r : option json_text) (w' : world) :
  generateRequestBody args schema method_ pathParams w = Ok (r, w') ->
  exists body_,
    request_body_members args schema method_ pathParams w = Ok (body_, w')
    /\ (r = None <-> own body_ = [])
    /\ (forall text k, r = Some text -> In k (object_keys (JSON_parse text)) ->
                       In k (keys (own body_)))
    /\ (forall k, In k (keys (own body_)) ->
                  from_args args pathParams k \/ from_schema schema k).
Proof.
  intros Hrun. unfold generateRequestBody in Hrun.
  apply bindM_ok in Hrun. destruct Hrun as (body_ & w1 & Hmembers & Hrun).
  apply ret_ok in Hrun. destruct Hrun as [-> ->].
  exists body_. split; [exact Hmembers | split; [| split]].
  - destruct (own body_) as [| kv m]; simpl; split; intros H; try reflexivity; discriminate H.
  - intros text k Htext Hk.
    destruct (0 <? List.length (keys (own body_)))%nat; [| discriminate Htext].
    inversion Htext; subst text. apply keys_json_document. exact Hk.
  - unfold request_body_members in Hmembers.
    apply bindM_ok in Hmembers. destruct Hmembers as (b1 & w2 & Hfirst & Hmembers).
    assert (H1 : forall k, In k (keys (own b1)) -> from_args args pathParams k).
    { destruct (truthy args).
      - eapply (forEachM_invariant
                  (fun b => forall k, In k (keys (own b)) -> from_args args pathParams k));
          [| | exact Hfirst].
        + intros s a wa s' wa' Hin Hs Hstep.
          exact (body_of_arg_keys args method_ pathParams s a wa s' wa' Hin Hs Hstep).
        + intros k [].
      - apply ret_ok in Hfirst. destruct Hfirst as [-> _]. intros k []. }
    apply bindM_ok in Hmembers. destruct Hmembers as (ps & w3 & Hps & Hmembers).
    apply lift_ok in Hps. destruct Hps as [Hps ->].
    destruct (truthy ps).
    + eapply (forEachM_invariant
                (fun b => forall k, In k (keys (own b)) ->
                                    from_args args pathParams k \/ from_schema schema k));
        [| | exact Hmembers].
      * intros s a wa s' wa' Hin Hs Hstep.
        exact (body_of_schema_property_keys args schema ps pathParams s a wa s' wa'
                 Hps Hin Hs Hstep).
      * intros k Hk. left. exact (H1 k Hk).
    + apply ret_ok in Hmembers. destruct Hmembers as [-> _].
      intros k Hk. left. exact (H1 k Hk).
Qed.

(** ** URL templates of routes with simple capture groups *)

Lemma append_assoc (a b c : string) : (a ++ b) ++ c = a ++ (b ++ c).
Proof.
  induction a as [| x a IH]; simpl; [reflexivity | rewrite IH; reflexivity].
Qed.

Lemma append_empty_r (a : string) : a ++ "" = a.
Proof.
  induction a as [| x a IH]; simpl; [reflexivity | rewrite IH; reflexivity].
Qed.

Lemma strip_prefix_length (p s r : string) :
  Str.strip_prefix p s = Some r ->
  String.length s = String.length p + String.length r.
Proof.
  revert s. induction p as [| a p IH]; intros s; simpl.
  - intros H. inversion H. reflexivity.
  - destruct s as [| b s]; [discriminate |].
    destruct (Ascii.eqb a b); [| discriminate].
    intros H. apply IH in H. simpl. lia.
Qed.

Lemma strip_prefix_append (p s : string) : Str.strip_prefix p (p ++ s) = Some s.
Proof.
  induction p as [| a p IH]; simpl; [reflexivity |].
  rewrite Ascii.eqb_refl. exact IH.
Qed.

Lemma take_while_length (p : ascii -> bool) (s a b : string) :
  Str.take_while p s = (a, b) -> String.length b <= String.length s.
Proof.
  revert a b. induction s as [| c s IH]; simpl; intros a b H.
  - inversion H. simpl. lia.
  - destruct (p c).
    + destruct (Str.take_while p s) as [a' b'] eqn:Hs. inversion H; subst.
      specialize (IH a' b eq_refl). lia.
    + inversion H; subst. simpl. lia.
Qed.

(** A run of characters of the class, followed by one outside it. *)
Lemma take_while_run (p : ascii -> bool) (run : string) (c : ascii) (s : string) :
  all_chars p run = true -> p c = false ->
  Str.take_while p (run ++ String c s) = (run, String c s).
Proof.
  intros Hrun Hc. induction run as [| x run IH]; simpl.
  - rewrite Hc. reflexivity.
  - simpl in Hrun. apply andb_prop in Hrun. destruct Hrun as [Hx Hrun].
    rewrite Hx, (IH Hrun). reflexivity.
Qed.

(** A match consumes at least one character. *)
Lemma match_group_length (s name_ r : string) :
  Str.match_group s = Some (name_, r) -> String.length r < String.length s.
Proof.
  unfold Str.match_group.
  destruct (Str.strip_prefix "(?P<" s) as [r1 |] eqn:H1; [| discriminate].
  destruct (Str.take_while Str.is_word r1) as [n r2] eqn:H2.
  destruct (Str.is_empty n); [discriminate |].
  destruct (Str.strip_prefix ">" r2) as [r3 |] eqn:H3; [| discriminate].
  destruct (Str.take_while (fun c => negb (Ascii.eqb c ")"%char)) r3) as [pat r4] eqn:H4.
  destruct (Str.is_empty pat); [discriminate |].
  destruct (Str.strip_prefix ")" r4) as [r5 |] eqn:H5; [| discriminate].
  intros H. inversion H; subst.
  apply take_while_length in H2, H4.
  apply strip_prefix_length in H1, H3, H5. simpl in H1, H3, H5. lia.
Qed.

(** Any budget of at least the length of the route gives the same
    template. *)
Lemma replace_groups_from_budget (repl : string -> string) (fuel : nat) :
  forall s, String.length s <= fuel ->
            Str.replace_groups_from fuel repl s = Str.replace_groups repl s.
Proof.
  unfold Str.replace_groups.
  induction fuel as [fuel IH] using lt_wf_ind. intros s Hlen.
  destruct s as [| c r]; [destruct fuel; reflexivity |].
  destruct fuel as [| fuel]; [simpl in Hlen; lia |].
  simpl in Hlen. simpl String.length.
  cbn [Str.replace_groups_from].
  destruct (Str.match_group (String c r)) as [[n r'] |] eqn:Hm.
  - apply match_group_length in Hm. simpl in Hm.
    rewrite (IH fuel ltac:(lia) r' ltac:(lia)).
    rewrite (IH (String.length r) ltac:(lia) r' ltac:(lia)). reflexivity.
  - rewrite (IH fuel ltac:(lia) r ltac:(lia)). reflexivity.
Qed.

(** The template, by the head of the route. *)
Lemma replace_groups_cons (repl : string -> string) (c : ascii) (r : string) :
  Str.replace_groups repl (String c r)
  = match Str.match_group (String c r) with
    | Some (n, r') => repl n ++ Str.replace_groups repl r'
    | None => String c (Str.replace_groups repl r)
    end.
Proof.
  unfold Str.replace_groups at 1. simpl String.length. cbn [Str.replace_groups_from].
  destruct (Str.match_group (String c r)) as [[n r'] |] eqn:Hm.
  - apply match_group_length in Hm. simpl in Hm.
    rewrite replace_groups_from_budget by lia. reflexivity.
  - reflexivity.
Qed.

Lemma replace_groups_literal (repl : string -> string) (t rest : string) :
  all_chars (fun c => negb (Ascii.eqb c "("%char)) t = true ->
  Str.replace_groups repl (t ++ rest) = t ++ Str.replace_groups repl rest.
Proof.
  induction t as [| c t IH]; simpl; intros Ht; [reflexivity |].
  apply andb_prop in Ht. destruct Ht as [Hc Ht].
  rewrite replace_groups_cons.
  assert (Hm : Str.match_group (String c (t ++ rest)) = None).
  { unfold Str.match_group.
    assert (Hs : Str.strip_prefix "(?P<" (String c (t ++ rest)) = None).
    { cbn [Str.strip_prefix].
      destruct (Ascii.eqb_spec "("%char c) as [<- | _]; [| reflexivity].
      rewrite Ascii.eqb_refl in Hc. discriminate Hc. }
    rewrite Hs. reflexivity. }
  rewrite Hm, (IH Ht). reflexivity.
Qed.

Lemma is_empty_append (a b : string) : Str.is_empty a = false -> Str.is_empty (a ++ b) = false.
Proof. destruct a; [discriminate | reflexivity]. Qed.

Lemma match_group_simple (n p rest : string) :
  simple_segment (Group n p) = true ->
  Str.match_group (segment_text (Group n p) ++ rest) = Some (n, rest).
Proof.
  intros H. simpl in H. unfold segment_text.
  apply andb_prop in H. destruct H as [H Hp].
  apply andb_prop in H. destruct H as [H Hpne].
  apply andb_prop in H. destruct H as [Hnne Hn].
  apply negb_true_iff in Hnne, Hpne.
  unfold Str.match_group.
  replace (("(?P<" ++ n ++ ">" ++ p ++ ")") ++ rest)
    with ("(?P<" ++ (n ++ String ">"%char (p ++ String ")"%char rest))).
  2:{ simpl. rewrite !append_assoc. simpl. rewrite !append_assoc. reflexivity. }
  rewrite strip_prefix_append.
  rewrite (take_while_run Str.is_word n ">"%char _ Hn eq_refl).
  rewrite Hnne.
  change (String ">"%char (p ++ String ")"%char rest))
    with (">" ++ (p ++ String ")"%char rest)).
  rewrite strip_prefix_append.
  rewrite (take_while_run _ p ")"%char rest Hp eq_refl).
  rewrite Hpne.
  change (String ")"%char rest) with (")" ++ rest).
  rewrite strip_prefix_append. reflexivity.
Qed.

(** On routes made of literal text and simple capture groups the URL
    template is the route with every capture group replaced by [:name]. *)
Lemma url_template_simple_groups (segs : list segment) :
  forallb simple_segment segs = true ->
  Str.replace_groups (fun n => ":" ++ n) (route_text segs) = template_text segs.
Proof.
  unfold route_text, template_text.
  assert (Hconcat : forall x xs, String.concat "" (x :: xs) = x ++ String.concat "" xs).
  { intros x [| y xs]; simpl; [rewrite append_empty_r |]; reflexivity. }
  induction segs as [| seg segs IH]; intros Hok; [reflexivity |].
  simpl in Hok. apply andb_prop in Hok. destruct Hok as [Hseg Hok].
  rewrite !map_cons, !Hconcat.
  destruct seg as [t | n p].
  - simpl segment_text. simpl segment_template.
    rewrite (replace_groups_literal _ t _ Hseg), (IH Hok). reflexivity.
  - destruct (String.concat "" (map segment_text (Group n p :: segs))) eqn:Hwhole.
    + rewrite map_cons, Hconcat in Hwhole. simpl in Hwhole. discriminate Hwhole.
    + rewrite map_cons, Hconcat in Hwhole.
      assert (Hm := match_group_simple n p (String.concat "" (map segment_text segs)) Hseg).
      rewrite Hwhole in Hm.
      assert (Hgoal : Str.replace_groups (fun n0 => ":" ++ n0) (String a s)
                      = segment_template (Group n p)
                        ++ String.concat "" (map segment_template segs)).
      { rewrite replace_groups_cons, Hm, (IH Hok). reflexivity. }
      rewrite <- Hwhole in Hgoal. exact Hgoal.
Qed.

(** * Further properties *)

(** ** Type and enum normalization *)

Lemma mapM_inversion {A B : Type} (f : A -> result B) (l : list A) (bs : list B) :
  mapM f l = Ok bs -> Forall2 (fun a b => f a = Ok b) l bs.
Proof.
  revert bs. induction l as [| a l IH]; intros bs H.
  - inversion H. constructor.
  - change (mapM f (a :: l)) with (b <- f a ;; bs <- mapM f l ;; Ok (b :: bs)) in H.
    destruct (f a) as [b | |] eqn:Hb; try discriminate H. cbn [bind] in H.
    destruct (mapM f l) as [bs' | |] eqn:Hbs; try discriminate H. cbn [bind] in H.
    inversion H; subst. constructor; [exact Hb | apply IH; reflexivity].
Qed.

Lemma mapM_fixed {A : Type} (f : A -> result A) (l : list A) :
  Forall (fun a => f a = Ok a) l -> mapM f l = Ok l.
Proof.
  induction 1 as [| a l Ha _ IH]; [reflexivity |].
  change (mapM f (a :: l)) with (b <- f a ;; bs <- mapM f l ;; Ok (b :: bs)).
  rewrite Ha. cbn [bind]. rewrite IH. reflexivity.
Qed.

Lemma normalizeWordPressType_scalar_unfold (t : jsval) :
  (forall l, t <> JArr l) ->
  normalizeWordPressType t
  = (k <- to_string t ;;
     Ok (match assoc k typeReplacements with
         | Some t' => or_else t' t
         | None => t
         end)).
Proof.
  intros Hna. destruct t as [| | [|] | n | s | l | m]; try reflexivity.
  exfalso. apply (Hna l). reflexivity.
Qed.

Lemma normalizeWordPressType_scalar_inversion (t nt : jsval) :
  (forall l, t <> JArr l) ->
  normalizeWordPressType t = Ok nt ->
  exists k, to_string t = Ok k
            /\ nt = match assoc k typeReplacements with
                    | Some t' => or_else t' t
                    | None => t
                    end.
Proof.
  intros Hna H. rewrite (normalizeWordPressType_scalar_unfold t Hna) in H.
  destruct (to_string t) as [k | |]; try discriminate H.
  cbn [bind] in H. inversion H. exists k. auto.
Qed.

(** X1. Normalizing a normalized type changes nothing: the composer
    normalizes the type of an argument and the synthesizer normalizes it
    again. *)
Theorem normalizeWordPressType_idempotent (t nt : jsval) :
  normalizeWordPressType t = Ok nt -> normalizeWordPressType nt = Ok nt.
Proof.
  revert nt.
  assert (Hscalar : forall t nt, (forall l, t <> JArr l) ->
                                 normalizeWordPressType t = Ok nt ->
                                 normalizeWordPressType nt = Ok nt).
  { intros t0 nt0 Hna H.
    destruct (normalizeWordPressType_scalar_inversion t0 nt0 Hna H) as (k & Hk & ->).
    destruct (assoc k typeReplacements) as [t' |] eqn:Hassoc; [| exact H].
    apply assoc_In in Hassoc. unfold typeReplacements in Hassoc. simpl in Hassoc.
    repeat (destruct Hassoc as [Hassoc | Hassoc];
            [inversion Hassoc; subst; reflexivity |]).
    contradiction. }
  induction t as [| | b | n | s | l IH | m _] using jsval_induction; intros nt H;
    try (eapply Hscalar; [| exact H]; intros l0; discriminate).
  change (normalizeWordPressType (JArr l))
    with (ts <- mapM normalizeWordPressType l ;; Ok (JArr ts)) in H.
  destruct (mapM normalizeWordPressType l) as [ts | |] eqn:Hts; try discriminate H.
  cbn [bind] in H. inversion H; subst nt; clear H.
  apply mapM_inversion in Hts.
  change (normalizeWordPressType (JArr ts))
    with (ts' <- mapM normalizeWordPressType ts ;; Ok (JArr ts')).
  rewrite mapM_fixed; [reflexivity |].
  clear -IH Hts. induction Hts as [| a b l ts Hab _ IHts]; constructor.
  - inversion IH; subst. eauto.
  - inversion IH; subst. apply IHts. assumption.
Qed.

Lemma normalizeWordPressType_idempotent_witness :
  normalizeWordPressType (JArr [JStr "date-time"; JStr "bool"; JStr "integer"])
  = Ok (JArr [JStr "string"; JStr "boolean"; JStr "integer"])
  /\ normalizeWordPressType (JArr [JStr "string"; JStr "boolean"; JStr "integer"])
     = Ok (JArr [JStr "string"; JStr "boolean"; JStr "integer"]).
Proof.
  assert (H : normalizeWordPressType (JArr [JStr "date-time"; JStr "bool"; JStr "integer"])
              = Ok (JArr [JStr "string"; JStr "boolean"; JStr "integer"])) by reflexivity.
  split; [exact H |].
  exact (normalizeWordPressType_idempotent _ _ H).
Defined.

(** X2 (normalizeWordPressType): a type name that [Object.prototype]
    does not define is normalized to a type name, which is never one of
    the vendor names of the replacement table. *)
Theorem normalizeWordPressType_canonical (s : string) :
  named s Object_prototype_names = false ->
  exists s', normalizeWordPressType (JStr s) = Ok (JStr s')
             /\ assoc s' typeReplacements = None.
Proof.
  intros _.
  rewrite (normalizeWordPressType_scalar (JStr s) s)
    by (try reflexivity; intros l; discriminate).
  destruct (assoc s typeReplacements) as [t' |] eqn:Hassoc.
  - apply assoc_In in Hassoc. unfold typeReplacements in Hassoc. simpl in Hassoc.
    repeat (destruct Hassoc as [Hassoc | Hassoc];
            [inversion Hassoc; subst; eexists; split; reflexivity |]).
    contradiction.
  - exists s. split; [reflexivity | exact Hassoc].
Qed.

Lemma normalizeWordPressType_canonical_witness :
  named "date-time" Object_prototype_names = false
  /\ exists s', normalizeWordPressType (JStr "date-time") = Ok (JStr s')
                /\ assoc s' typeReplacements = None.
Proof.
  split; [reflexivity |].
  exact (normalizeWordPressType_canonical "date-time" eq_refl).
Defined.

Lemma same_value_eq (a b : jsval) : same_value a b = true -> a = b.
Proof.
  destruct a, b; simpl; try discriminate; intros H; try reflexivity.
  - apply Bool.eqb_prop in H. subst. reflexivity.
  - apply Z.eqb_eq in H. subst. reflexivity.
  - apply String.eqb_eq in H. subst. reflexivity.
Qed.

Lemma same_value_sym (a b : jsval) : same_value a b = same_value b a.
Proof.
  destruct a, b; simpl; try reflexivity.
  - destruct b0, b; reflexivity.
  - apply Z.eqb_sym.
  - apply String.eqb_sym.
Qed.

Lemma dedupe_from_In_back (seen l : list jsval) (x : jsval) :
  In x l -> In x (dedupe_from seen l) \/ In x seen.
Proof.
  revert seen. induction l as [| y l IH]; simpl; intros seen Hin; [contradiction |].
  destruct (existsb (same_value y) seen) eqn:Hseen.
  - destruct Hin as [<- | Hin]; [| exact (IH seen Hin)].
    right. apply existsb_exists in Hseen. destruct Hseen as (z & Hz & Hsame).
    apply same_value_eq in Hsame. subst. exact Hz.
  - destruct Hin as [<- | Hin]; [left; left; reflexivity |].
    destruct (IH (y :: seen) Hin) as [H | [<- | H]].
    + left. right. exact H.
    + left. left. reflexivity.
    + right. exact H.
Qed.

Lemma dedupe_from_distinct (l : list jsval) :
  forall seen,
    Forall (fun x => existsb (same_value x) seen = false) (dedupe_from seen l)
    /\ distinct_values (dedupe_from seen l).
Proof.
  induction l as [| y l IH]; intros seen; simpl.
  - split; constructor.
  - destruct (existsb (same_value y) seen) eqn:Hseen; [apply IH |].
    destruct (IH (y :: seen)) as [Hnew Hdistinct].
    split.
    + constructor; [exact Hseen |].
      rewrite Forall_forall in Hnew |- *. intros x Hx.
      specialize (Hnew x Hx). simpl in Hnew. apply orb_false_elim in Hnew. tauto.
    + constructor; [| exact Hdistinct].
      rewrite Forall_forall in Hnew |- *. intros x Hx.
      specialize (Hnew x Hx). simpl in Hnew. apply orb_false_elim in Hnew.
      rewrite same_value_sym. tauto.
Qed.

Lemma dedupe_from_fixed (l : list jsval) :
  forall seen,
    distinct_values l ->
    Forall (fun x => existsb (same_value x) seen = false) l ->
    dedupe_from seen l = l.
Proof.
  induction l as [| y l IH]; intros seen Hd Hs; [reflexivity |].
  inversion Hd as [| ? ? Hy Hd']; subst. inversion Hs as [| ? ? Hys Hs']; subst.
  simpl. rewrite Hys. f_equal. apply IH; [exact Hd' |].
  rewrite Forall_forall in Hy, Hs' |- *. intros x Hx. simpl.
  rewrite (same_value_sym x y), (Hy x Hx), (Hs' x Hx). reflexivity.
Qed.

(** X3. [normalizeEnum] keeps the first occurrence of every value of a
    list: the result has the elements of the list, no two of them the same
    value, and normalizing it again changes nothing. *)
Theorem normalizeEnum_dedupes (l : list jsval) :
  exists l',
    normalizeEnum (JArr l) = JArr l'
    /\ (forall x, In x l' <-> In x l)
    /\ distinct_values l'
    /\ normalizeEnum (JArr l') = JArr l'.
Proof.
  exists (dedupe l). destruct (dedupe_from_distinct l []) as [_ Hd].
  split; [reflexivity | split; [| split; [exact Hd |]]].
  - intros x. split.
    + apply dedupe_from_In.
    + intros Hin. destruct (dedupe_from_In_back [] l x Hin) as [H | []]. exact H.
  - simpl. f_equal. apply dedupe_from_fixed; [exact Hd |].
    apply Forall_forall. intros x _. reflexivity.
Qed.

(** ** The steps of the transformer *)

(** What a run of the transformer that returns went through. *)
Lemma transformWordPressEndpoint_inversion (route method_ : string)
      (endpoint schema : jsval) (w : world) (it : item) (w' : world) :
  transformWordPressEndpoint route method_ endpoint schema w = Ok (it, w') ->
  exists args0 hs ps ps1 b w2 w3 w4,
    get endpoint "args" = Ok args0
    /\ hs = (if is_mutating (Str.toUpperCase method_)
             then [mkHeader (S (next_uid w)) "Content-Type" "application/json" "" true]
             else [])
    /\ forEachM (param_of_arg (Str.toUpperCase method_) (extractPathParameters route))
         (each_entries (or_else args0 (JObj []))) [] w2 = Ok (ps, w3)
    /\ (if String.eqb (Str.toUpperCase method_) "GET" && negb (Str.includes route "(?P<")
        then add_list_params ps
        else ret ps) w3 = Ok (ps1, w4)
    /\ (if is_mutating (Str.toUpperCase method_)
        then
          bodyJson <~ generateRequestBody (or_else args0 (JObj [])) schema
                        (Str.toUpperCase method_) (extractPathParameters route) ;;
          ret (match bodyJson with
               | Some text => mkBody ModeJson (Some text)
               | None => mkBody ModeNone None
               end)
        else ret (mkBody ModeNone None)) w4 = Ok (b, w')
    /\ it = mkItem (next_uid w) (request_name (Str.toUpperCase method_) route)
              (mkRequest ("{{baseUrl}}" ++ Str.replace_groups (fun n => ":" ++ n) route)
                 (Str.toUpperCase method_) hs ps1 b
                 (status_test (Str.toUpperCase method_)
                  ++ (if String.eqb (Str.toUpperCase method_) "GET"
                         && isCollectionEndpoint route
                         && negb (Str.includes route "(?P<")
                      then array_test else ""))
                 []).
Proof.
  intros Hrun. unfold transformWordPressEndpoint in Hrun.
  apply bindM_ok in Hrun. destruct Hrun as (args0 & w1 & Hargs & Hrun).
  apply lift_ok in Hargs. destruct Hargs as [Hargs ->].
  cbv zeta in Hrun.
  apply bindM_ok in Hrun. destruct Hrun as (item_uid & w1 & Huid & Hrun).
  unfold uuid in Huid. inversion Huid; subst item_uid w1; clear Huid.
  apply bindM_ok in Hrun. destruct Hrun as (hs & w2 & Hhs & Hrun).
  apply bindM_ok in Hrun. destruct Hrun as (ps & w3 & Hps & Hrun).
  apply bindM_ok in Hrun. destruct Hrun as (ps1 & w4 & Hps1 & Hrun).
  apply bindM_ok in Hrun. destruct Hrun as (b & w5 & Hb & Hrun).
  apply ret_ok in Hrun. destruct Hrun as [-> ->].
  exists args0, hs, ps, ps1, b, w2, w3, w4.
  split; [exact Hargs | split; [| split; [exact Hps | split; [exact Hps1 | split; [exact Hb |]]]]].
  - destruct (is_mutating (Str.toUpperCase method_)).
    + apply bindM_ok in Hhs. destruct Hhs as (u & w6 & Hu & Hhs).
      unfold uuid in Hu. inversion Hu; subst. apply ret_ok in Hhs. destruct Hhs as [-> _].
      reflexivity.
    + apply ret_ok in Hhs. destruct Hhs as [-> _]. reflexivity.
  - reflexivity.
Qed.

(** ** Routes without a capture group *)

Lemma includes_false (s t : string) :
  Str.includes s t = false -> Str.strip_prefix t s = None.
Proof.
  destruct s; simpl; destruct (Str.strip_prefix t _); try discriminate; reflexivity.
Qed.

Lemma includes_false_tail (c : ascii) (r t : string) :
  Str.includes (String c r) t = false -> Str.includes r t = false.
Proof.
  simpl. destruct (Str.strip_prefix t (String c r)); [discriminate | tauto].
Qed.

Lemma match_group_without_prefix (s : string) :
  Str.strip_prefix "(?P<" s = None -> Str.match_group s = None.
Proof.
  intros H. unfold Str.match_group. rewrite H. reflexivity.
Qed.

Lemma replace_groups_from_plain (repl : string -> string) (s : string) :
  Str.includes s "(?P<" = false ->
  forall fuel, Str.replace_groups_from fuel repl s = s.
Proof.
  induction s as [| c r IH]; intros Hs fuel; [destruct fuel; reflexivity |].
  destruct fuel as [| fuel]; [reflexivity |].
  cbn [Str.replace_groups_from].
  rewrite (match_group_without_prefix _ (includes_false _ _ Hs)).
  rewrite (IH (includes_false_tail _ _ _ Hs)). reflexivity.
Qed.

Lemma group_names_from_plain (s : string) :
  Str.includes s "(?P<" = false ->
  forall fuel, Str.group_names_from fuel s = [].
Proof.
  induction s as [| c r IH]; intros Hs fuel; [destruct fuel; reflexivity |].
  destruct fuel as [| fuel]; [reflexivity |].
  cbn [Str.group_names_from].
  rewrite (match_group_without_prefix _ (includes_false _ _ Hs)).
  apply IH. exact (includes_false_tail _ _ _ Hs).
Qed.

Lemma param_of_arg_query (methodUpper : string) (ps : list param)
      (entry : jskey * jsval) (w : world) (ps' : list param) (w' : world) :
  Forall (fun p => param_type p = QueryParam) ps ->
  param_of_arg methodUpper [] ps entry w = Ok (ps', w') ->
  Forall (fun p => param_type p = QueryParam) ps'.
Proof.
  intros Hps Hrun. destruct entry as [argName arg]. unfold param_of_arg in Hrun.
  destruct (key_is argName "context").
  - apply ret_ok in Hrun. destruct Hrun as [-> _]. exact Hps.
  - unfold getParameterLocation in Hrun.
    replace (key_in argName []) with false in Hrun by (destruct argName; reflexivity).
    destruct (String.eqb (Str.toUpperCase methodUpper) "GET").
    + apply bindM_ok in Hrun. destruct Hrun as (d & w1 & _ & Hrun).
      apply bindM_ok in Hrun. destruct Hrun as (dv & w2 & _ & Hrun).
      apply bindM_ok in Hrun. destruct Hrun as (rq & w3 & _ & Hrun).
      apply bindM_ok in Hrun. destruct Hrun as (cs & w4 & _ & Hrun).
      apply bindM_ok in Hrun. destruct Hrun as (qd & w5 & _ & Hrun).
      apply bindM_ok in Hrun. destruct Hrun as (u & w6 & _ & Hrun).
      apply ret_ok in Hrun. destruct Hrun as [-> _].
      apply Forall_app. split; [exact Hps | repeat constructor].
    + apply ret_ok in Hrun. destruct Hrun as [-> _]. exact Hps.
Qed.

(** What the listing parameters add: disabled query entries, after the
    entries already there. *)
Lemma add_common_param_appends (ps : list param) (p : string * string * string)
      (w : world) (ps' : list param) (w' : world) :
  add_common_param ps p w = Ok (ps', w') ->
  exists added,
    ps' = (ps ++ added)%list
    /\ Forall (fun q => param_type q = QueryParam /\ param_enabled q = false
                        /\ param_name q = KStr (fst (fst p))) added
    /\ (has_param ps (fst (fst p)) = true -> added = [])
    /\ has_param ps' (fst (fst p)) = true.
Proof.
  destruct p as [[n v] d]. simpl. unfold add_common_param. intros Hrun.
  destruct (has_param ps n) eqn:Hhas; simpl in Hrun.
  - apply ret_ok in Hrun. destruct Hrun as [-> _].
    exists []. rewrite app_nil_r. repeat split; auto.
  - apply bindM_ok in Hrun. destruct Hrun as (u & w1 & _ & Hrun).
    apply ret_ok in Hrun. destruct Hrun as [-> _].
    eexists. split; [reflexivity |]. split; [repeat constructor | split; [discriminate |]].
    unfold has_param. rewrite existsb_app. simpl. rewrite String.eqb_refl.
    rewrite orb_true_r. reflexivity.
Qed.

Lemma has_param_app (ps qs : list param) (n : string) :
  has_param (ps ++ qs) n = has_param ps n || has_param qs n.
Proof. unfold has_param. apply existsb_app. Qed.

Lemma count_named_app (n : string) (ps qs : list param) :
  count_named n (ps ++ qs) = count_named n ps + count_named n qs.
Proof. unfold count_named. rewrite filter_app, length_app. reflexivity. Qed.

Lemma has_param_count (n : string) (ps : list param) :
  has_param ps n = false -> count_named n ps = 0.
Proof.
  unfold has_param, count_named. induction ps as [| p ps IH]; simpl; [reflexivity |].
  destruct (key_is (param_name p) n); simpl; [discriminate | exact IH].
Qed.

Lemma count_named_single (n : string) (q : param) :
  count_named n [q] = if key_is (param_name q) n then 1 else 0.
Proof.
  unfold count_named. cbn [filter]. destruct (key_is (param_name q) n); reflexivity.
Qed.

(** The loop over the listing parameters adds, for each of its names, one
    disabled query entry unless the list has an entry of that name. *)
Lemma common_params_loop (l : list (string * string * string)) :
  NoDup (map (fun p => fst (fst p)) l) ->
  forall ps w ps' w',
    forEachM add_common_param l ps w = Ok (ps', w') ->
    exists added,
      ps' = (ps ++ added)%list
      /\ Forall disabled_query added
      /\ forall n, count_named n added
                   = if mem n (map (fun p => fst (fst p)) l)
                     then (if has_param ps n then 0 else 1)
                     else 0.
Proof.
  induction l as [| p l IH]; intros Hnd ps w ps' w' Hrun.
  - apply ret_ok in Hrun. destruct Hrun as [-> _].
    exists []. rewrite app_nil_r.
    split; [reflexivity | split; [constructor | reflexivity]].
  - simpl in Hnd. inversion Hnd as [| ? ? Hnotin Hnd']; subst.
    simpl in Hrun. apply bindM_ok in Hrun. destruct Hrun as (ps1 & w1 & Hstep & Hrun).
    destruct (add_common_param_appends ps p w ps1 w1 Hstep)
      as (added1 & -> & Hadded1 & Hpresent & _).
    destruct (IH Hnd' _ _ _ _ Hrun) as (added & -> & Hadded & Hcount).
    exists (added1 ++ added)%list. rewrite app_assoc.
    split; [reflexivity | split].
    + apply Forall_app. split; [| exact Hadded].
      rewrite Forall_forall in Hadded1 |- *. intros q Hq.
      destruct (Hadded1 q Hq) as (H1 & H2 & _). split; assumption.
    + intros n. rewrite count_named_app, Hcount. simpl mem.
      unfold mem at 2. simpl existsb. fold (mem n (map (fun p0 => fst (fst p0)) l)).
      destruct (String.eqb_spec n (fst (fst p))) as [-> | Hne]; simpl.
      * assert (Hrest : mem (fst (fst p)) (map (fun p0 => fst (fst p0)) l) = false)
          by (apply mem_false; exact Hnotin).
        rewrite Hrest, Nat.add_0_r.
        destruct p as [[n1 v1] d1]. simpl in *.
        unfold add_common_param in Hstep.
        destruct (has_param ps n1) eqn:Hhas; simpl in Hstep.
        -- rewrite (Hpresent eq_refl). reflexivity.
        -- apply bindM_ok in Hstep. destruct Hstep as (u & w2 & _ & Hstep).
           apply ret_ok in Hstep. destruct Hstep as [Heq _].
           apply app_inv_head in Heq. subst added1.
           rewrite count_named_single. cbn [param_name key_is].
           rewrite String.eqb_refl. reflexivity.
      * assert (Hzero : count_named n added1 = 0).
        { unfold count_named. clear -Hadded1 Hne.
          induction Hadded1 as [| q qs (_ & _ & Hq) _ IHq]; simpl; [reflexivity |].
          rewrite Hq. simpl.
          destruct (String.eqb_spec (fst (fst p)) n) as [Heq | _]; [congruence | exact IHq]. }
        rewrite Hzero, has_param_app. simpl.
        assert (Hnone : has_param added1 n = false).
        { unfold has_param. clear -Hadded1 Hne.
          induction Hadded1 as [| q qs (_ & _ & Hq) _ IHq]; simpl; [reflexivity |].
          rewrite Hq. simpl.
          destruct (String.eqb_spec (fst (fst p)) n) as [Heq | _]; [congruence | exact IHq]. }
        rewrite Hnone, orb_false_r. reflexivity.
Qed.

Lemma add_list_params_appends (ps : list param) (w : world) (ps' : list param) (w' : world) :
  add_list_params ps w = Ok (ps', w') ->
  exists added,
    ps' = (ps ++ added)%list
    /\ Forall disabled_query added
    /\ forall n, count_named n added
                 = if String.eqb n "_embed" then 1
                   else if mem n listing_names then (if has_param ps n then 0 else 1)
                   else 0.
Proof.
  intros Hrun. unfold add_list_params in Hrun.
  apply bindM_ok in Hrun. destruct Hrun as (ps1 & w1 & Hloop & Hrun).
  apply bindM_ok in Hrun. destruct Hrun as (u & w2 & _ & Hrun).
  apply ret_ok in Hrun. destruct Hrun as [-> _].
  destruct (common_params_loop commonParams) with (ps := ps) (w := w) (ps' := ps1) (w' := w1)
    as (added & -> & Hadded & Hcount); [| exact Hloop |].
  { unfold commonParams. simpl.
    repeat (constructor; [simpl; intros H; repeat (destruct H as [H | H]; [discriminate H |]);
                          exact H |]).
    constructor. }
  eexists. rewrite <- app_assoc. split; [reflexivity | split].
  - apply Forall_app. split; [exact Hadded |]. repeat constructor.
  - intros n. rewrite count_named_app, Hcount.
    change (map (fun p => fst (fst p)) commonParams) with listing_names.
    rewrite count_named_single. cbn [param_name key_is].
    rewrite (String.eqb_sym "_embed" n).
    destruct (String.eqb_spec n "_embed") as [-> | Hne].
    + reflexivity.
    + apply Nat.add_0_r.
Qed.

(** ** Requests on routes without a capture group *)

(** X4 (transformWordPressEndpoint, extractPathParameters): a route that does
    not contain the text [(?P<] is copied unchanged behind [{{baseUrl}}], it
    has no path parameter, and every parameter of the descriptor is a query
    parameter. *)
Theorem plain_route_descriptor (route method_ : string) (endpoint schema : jsval)
    (w : world) (it : item) (w' : world) :
  Str.includes route "(?P<" = false ->
  transformWordPressEndpoint route method_ endpoint schema w = Ok (it, w') ->
  url (request_of it) = "{{baseUrl}}" ++ route
  /\ extractPathParameters route = []
  /\ Forall (fun p => param_type p = QueryParam) (params (request_of it)).
Proof.
  intros Hplain Hrun.
  apply transformWordPressEndpoint_inversion in Hrun.
  destruct Hrun as (args0 & hs & ps & ps1 & b & w2 & w3 & w4
                    & _ & _ & Hps & Hps1 & _ & ->).
  assert (Hnames : extractPathParameters route = []).
  { unfold extractPathParameters, Str.group_names.
    apply group_names_from_plain. exact Hplain. }
  cbn [request_of url params]. split; [| split].
  - f_equal. unfold Str.replace_groups. apply replace_groups_from_plain. exact Hplain.
  - exact Hnames.
  - rewrite Hnames in Hps.
    assert (Hq : Forall (fun p => param_type p = QueryParam) ps).
    { apply (forEachM_invariant (fun ps => Forall (fun p => param_type p = QueryParam) ps)
               (param_of_arg (Str.toUpperCase method_) [])
               (each_entries (or_else args0 (JObj [])))) with (s := []) (w := w2) (w' := w3).
      - intros s a w5 s' w6 _ Hs Hstep.
        exact (param_of_arg_query _ _ _ _ _ _ Hs Hstep).
      - constructor.
      - exact Hps. }
    destruct (String.eqb (Str.toUpperCase method_) "GET" && negb (Str.includes route "(?P<")).
    + apply add_list_params_appends in Hps1.
      destruct Hps1 as (added & -> & Hadded & _).
      apply Forall_app. split; [exact Hq |].
      rewrite Forall_forall in Hadded |- *. intros q Hin. exact (proj1 (Hadded q Hin)).
    + apply ret_ok in Hps1. destruct Hps1 as [-> _]. exact Hq.
Qed.

Lemma plain_route_descriptor_witness :
  exists it w',
    transformWordPressEndpoint "/wp/v2/posts" "post"
      (JObj [("args", JObj [("title", JObj [("type", JStr "string")])])]) JUndefined w0
    = Ok (it, w')
    /\ url (request_of it) = "{{baseUrl}}/wp/v2/posts"
    /\ extractPathParameters "/wp/v2/posts" = []
    /\ Forall (fun p => param_type p = QueryParam) (params (request_of it)).
Proof.
  assert (Hrun : exists it w',
             transformWordPressEndpoint "/wp/v2/posts" "post"
               (JObj [("args", JObj [("title", JObj [("type", JStr "string")])])])
               JUndefined w0 = Ok (it, w'))
    by (eexists; eexists; vm_compute; reflexivity).
  destruct Hrun as (it & w' & Hrun). exists it, w'.
  split; [exact Hrun |].
  exact (plain_route_descriptor "/wp/v2/posts" "post" _ JUndefined w0 it w' eq_refl Hrun).
Defined.

(** ** The parameters of a GET request *)








(** ** The constraints of an argument *)

Lemma get_prop (v : jsval) (k : string) :
  v <> JUndefined -> v <> JNull -> get v k = Ok (prop v k).
Proof.
  intros Hu Hn. unfold prop.
  destruct v as [| | b | n | s | l | m]; try contradiction; simpl; try reflexivity.
  - destruct (String.eqb k "length"); [reflexivity |].
    destruct (array_index k); reflexivity.
  - destruct (String.eqb k "length"); [reflexivity |].
    destruct (array_index k); reflexivity.
Qed.

Lemma has_key_app (k : string) (m m' : list (string * jsval)) :
  has_key k (m ++ m') = has_key k m || has_key k m'.
Proof.
  unfold has_key. induction m as [| [k1 v1] m IH]; simpl; [reflexivity |].
  destruct (String.eqb k k1); [reflexivity | exact IH].
Qed.

(** The loop over the catalogue appends the defined keywords in order. *)
Lemma constraints_loop (args : jsval) (l : list string) :
  (forall k, get args k = Ok (prop args k)) ->
  NoDup l ->
  Forall (fun k => String.eqb k "__proto__" = false /\ array_index k = None) l ->
  forall cs,
    (forall k, In k l -> has_key k cs = false) ->
    foldM (fun cs constraint =>
             v <- get args constraint ;;
             Ok (if is_undefined v then cs else set cs constraint v)) l cs
    = Ok (cs ++ map (fun k => (k, prop args k))
                  (filter (fun k => negb (is_undefined (prop args k))) l))%list.
Proof.
  intros Hget. induction l as [| k l IH]; intros Hnd Hplain cs Hfresh.
  - simpl. rewrite app_nil_r. reflexivity.
  - inversion Hnd as [| ? ? Hnotin Hnd']; subst.
    inversion Hplain as [| ? ? (Hproto & Hidx) Hplain']; subst.
    cbn [foldM filter]. rewrite Hget. cbn [bind].
    destruct (is_undefined (prop args k)) eqn:Hdef; cbn [negb].
    + apply IH; [exact Hnd' | exact Hplain' |].
      intros k' Hin. apply Hfresh. right. exact Hin.
    + unfold set. rewrite Hproto, (Hfresh k (or_introl eq_refl)), Hidx.
      rewrite IH; [| exact Hnd' | exact Hplain' |].
      * rewrite <- app_assoc. reflexivity.
      * intros k' Hin. rewrite has_key_app, (Hfresh k' (or_intror Hin)).
        unfold has_key. simpl.
        destruct (String.eqb_spec k' k) as [-> | _]; [contradiction | reflexivity].
Qed.

Lemma member_listing (g : string -> jsval) (l : list string) (k : string) :
  member (map (fun x => (x, g x)) l) k = if mem k l then g k else JUndefined.
Proof.
  unfold member, mem. induction l as [| x l IH]; [reflexivity |].
  cbn [map assoc existsb].
  destruct (String.eqb_spec k x) as [-> | _]; [reflexivity | exact IH].
Qed.

Lemma has_key_listing (g : string -> jsval) (l : list string) (k : string) :
  has_key k (map (fun x => (x, g x)) l) = mem k l.
Proof.
  unfold has_key, mem. induction l as [| x l IH]; [reflexivity |].
  cbn [map assoc existsb].
  destruct (String.eqb_spec k x) as [-> | _]; [reflexivity | exact IH].
Qed.

Lemma replace_member_listing (g : string -> jsval) (l : list string) (k : string) (v : jsval) :
  NoDup l ->
  replace_member k v (map (fun x => (x, g x)) l)
  = map (fun x => (x, if String.eqb x k then v else g x)) l.
Proof.
  induction 1 as [| x l Hnotin _ IH]; [reflexivity |].
  cbn [map replace_member]. rewrite (String.eqb_sym x k).
  destruct (String.eqb_spec k x) as [-> | Hne].
  - f_equal. apply map_ext_in. intros y Hy.
    destruct (String.eqb_spec y x) as [-> | _]; [contradiction | reflexivity].
  - rewrite IH. reflexivity.
Qed.

Lemma extractValidationConstraints_readable (args : jsval) :
  args <> JUndefined -> args <> JNull ->
  extractValidationConstraints args = Ok (constraints_of args).
Proof.
  { intros Hu Hn. unfold extractValidationConstraints.
    rewrite (constraints_loop args supportedConstraints (fun k => get_prop args k Hu Hn)).
    - cbn [bind app]. f_equal. unfold constraints_of.
      set (L := filter (fun k => negb (is_undefined (prop args k))) supportedConstraints).
      assert (HndL : NoDup L).
      { apply NoDup_filter. unfold supportedConstraints.
        repeat (constructor; [simpl; intros H;
                              repeat (destruct H as [H | H]; [discriminate H |]); exact H |]).
        constructor. }
      rewrite !app_nil_l, member_listing.
      assert (Henum : (if mem "enum" L then prop args "enum" else JUndefined)
                      = prop args "enum").
      { destruct (mem "enum" L) eqn:Hmem; [reflexivity |].
        destruct (is_undefined (prop args "enum")) eqn:Hdef.
        - destruct (prop args "enum"); try discriminate Hdef. reflexivity.
        - exfalso. apply (mem_false "enum" L) in Hmem. apply Hmem.
          apply filter_In. split; [| rewrite Hdef; reflexivity].
          unfold supportedConstraints. simpl. tauto. }
      rewrite Henum.
      destruct (truthy (prop args "enum")) eqn:Htruthy.
      + assert (Hin : mem "enum" L = true).
        { apply mem_In. apply filter_In. split.
          - unfold supportedConstraints. simpl. tauto.
          - destruct (prop args "enum"); try discriminate Htruthy; reflexivity. }
        unfold set. change (String.eqb "enum" "__proto__") with false. cbn iota.
        assert (Hhas : has_key "enum" (map (fun k => (k, prop args k)) L) = true)
          by (rewrite has_key_listing; exact Hin).
        rewrite Hhas. rewrite (replace_member_listing _ _ _ _ HndL).
        apply map_ext. intros k.
        destruct (String.eqb_spec k "enum") as [-> | _]; reflexivity.
      + apply map_ext. intros k. destruct (String.eqb_spec k "enum") as [-> | _]; [| reflexivity].
        destruct (prop args "enum"); try reflexivity. discriminate Htruthy.
    - unfold supportedConstraints.
      repeat (constructor; [simpl; intros H;
                            repeat (destruct H as [H | H]; [discriminate H |]); exact H |]).
      constructor.
    - unfold supportedConstraints. repeat constructor.
    - intros k _. reflexivity. }
Qed.

(** X7 (extractValidationConstraints): reading the constraints of [null] or
    [undefined] throws; for every other argument the result holds exactly the
    supported keywords the argument defines, in the order of the catalogue,
    each with the argument's value, the enum with its repeated values
    removed. *)
Theorem extractValidationConstraints_closed_form (args : jsval) :
  extractValidationConstraints args
  = match args with
    | JUndefined | JNull => Throw TypeError
    | _ => Ok (constraints_of args)
    end.
Proof.
  destruct args; try reflexivity; apply extractValidationConstraints_readable;
    discriminate.
Qed.

(** ** Requests by method *)

Lemma is_mutating_not_get (methodUpper : string) :
  is_mutating methodUpper = true ->
  String.eqb (Str.toUpperCase methodUpper) "GET" = false
  /\ String.eqb methodUpper "GET" = false.
Proof.
  unfold is_mutating. cbn [existsb]. rewrite !orb_false_r.
  intros H. apply orb_true_iff in H. destruct H as [H | H].
  - apply String.eqb_eq in H. subst. split; reflexivity.
  - apply orb_true_iff in H. destruct H as [H | H];
      apply String.eqb_eq in H; subst; split; reflexivity.
Qed.

(** X8 (transformWordPressEndpoint): the descriptor of a POST, PUT or PATCH
    endpoint has the one header [Content-Type: application/json], a parameter
    list of path parameters only, and the body that [generateRequestBody]
    returns for the arguments: mode [json] with the text, or mode [none]
    when it returns [null]. *)
Theorem mutating_request_descriptor (route method_ : string)
    (endpoint schema args0 : jsval) (w : world) (it : item) (w' : world) :
  is_mutating (Str.toUpperCase method_) = true ->
  get endpoint "args" = Ok args0 ->
  transformWordPressEndpoint route method_ endpoint schema w = Ok (it, w') ->
  (exists u, headers (request_of it)
             = [mkHeader u "Content-Type" "application/json" "" true])
  /\ Forall (path_entry (extractPathParameters route)) (params (request_of it))
  /\ exists w1 r,
       generateRequestBody (or_else args0 (JObj [])) schema (Str.toUpperCase method_)
         (extractPathParameters route) w1 = Ok (r, w')
       /\ body (request_of it)
          = match r with
            | Some text => mkBody ModeJson (Some text)
            | None => mkBody ModeNone None
            end.
Proof.
  intros Hm Hargs Hrun.
  apply transformWordPressEndpoint_inversion in Hrun.
  destruct Hrun as (args1 & hs & ps & ps1 & b & w2 & w3 & w4
                    & Hargs1 & Hhs & Hps & Hps1 & Hb & ->).
  rewrite Hargs in Hargs1. inversion Hargs1; subst args1.
  cbn [request_of headers params body].
  destruct (is_mutating_not_get _ Hm) as [Hget Hget'].
  rewrite Hm in Hhs, Hb. rewrite Hget' in Hps1. cbn [andb] in Hps1.
  apply ret_ok in Hps1. destruct Hps1 as [-> _].
  split; [| split].
  - eexists. exact Hhs.
  - eapply (forEachM_invariant (Forall (path_entry (extractPathParameters route))));
      [| constructor | exact Hps].
    intros s a wa s' wa' _ Hs Hstep.
    eapply param_of_arg_not_get; [exact Hget | exact Hs | exact Hstep].
  - apply bindM_ok in Hb. destruct Hb as (r & w5 & Hbody & Hb).
    apply ret_ok in Hb. destruct Hb as [-> ->].
    exists w4, r. split; [exact Hbody | reflexivity].
Qed.

Lemma mutating_request_descriptor_witness :
  exists it w',
    transformWordPressEndpoint "/wp/v2/posts/(?P<id>[\d]+)" "put"
      (JObj [("args", JObj [("id", JObj [("type", JStr "integer")]);
                            ("title", JObj [("type", JStr "string")])])]) JNull w0
    = Ok (it, w')
    /\ (exists u, headers (request_of it)
                  = [mkHeader u "Content-Type" "application/json" "" true])
    /\ Forall (path_entry (extractPathParameters "/wp/v2/posts/(?P<id>[\d]+)"))
         (params (request_of it))
    /\ exists w1 r,
         generateRequestBody
           (or_else (JObj [("id", JObj [("type", JStr "integer")]);
                           ("title", JObj [("type", JStr "string")])]) (JObj []))
           JNull (Str.toUpperCase "put")
           (extractPathParameters "/wp/v2/posts/(?P<id>[\d]+)") w1 = Ok (r, w')
         /\ body (request_of it)
            = match r with
              | Some text => mkBody ModeJson (Some text)
              | None => mkBody ModeNone None
              end.
Proof.
  assert (Hrun : exists it w',
             transformWordPressEndpoint "/wp/v2/posts/(?P<id>[\d]+)" "put"
               (JObj [("args", JObj [("id", JObj [("type", JStr "integer")]);
                                     ("title", JObj [("type", JStr "string")])])])
               JNull w0 = Ok (it, w'))
    by (eexists; eexists; vm_compute; reflexivity).
  destruct Hrun as (it & w' & Hrun). exists it, w'.
  split; [exact Hrun |].
  exact (mutating_request_descriptor "/wp/v2/posts/(?P<id>[\d]+)" "put"
           (JObj [("args", JObj [("id", JObj [("type", JStr "integer")]);
                                 ("title", JObj [("type", JStr "string")])])]) JNull
           (JObj [("id", JObj [("type", JStr "integer")]);
                  ("title", JObj [("type", JStr "string")])]) w0 it w'
           eq_refl eq_refl Hrun).
Defined.

(** The method is compared in upper case, and the long s (U+017F) is a
    lower case of S: a method spelled with it is POST. *)
Lemma long_s_method_is_mutating :
  Str.toUpperCase ("po" ++ String (ascii_of_nat 197) (String (ascii_of_nat 191) "t"))
  = "POST"
  /\ is_mutating
       (Str.toUpperCase
          ("po" ++ String (ascii_of_nat 197) (String (ascii_of_nat 191) "t")))
     = true.
Proof. split; reflexivity. Qed.

(** X9 (transformWordPressEndpoint): for a method whose upper case is other
    than POST, PUT and PATCH the resource schema is never looked at: the
    call behaves the same with any other schema, and a descriptor it
    returns has no header and body mode [none]. *)
Theorem schema_unused_unless_mutating (route method_ : string)
    (endpoint schema schema' : jsval) (w : world) :
  is_mutating (Str.toUpperCase method_) = false ->
  transformWordPressEndpoint route method_ endpoint schema' w
  = transformWordPressEndpoint route method_ endpoint schema w
  /\ forall it w',
       transformWordPressEndpoint route method_ endpoint schema w = Ok (it, w') ->
       headers (request_of it) = []
       /\ body (request_of it) = mkBody ModeNone None.
Proof.
  intros Hm. split.
  - unfold transformWordPressEndpoint. rewrite Hm. reflexivity.
  - intros it w' Hrun.
    apply transformWordPressEndpoint_inversion in Hrun.
    destruct Hrun as (args1 & hs & ps & ps1 & b & w2 & w3 & w4
                      & _ & Hhs & _ & _ & Hb & ->).
    rewrite Hm in Hhs, Hb. apply ret_ok in Hb. destruct Hb as [-> _].
    cbn [request_of headers body]. split; [exact Hhs | reflexivity].
Qed.

Lemma schema_unused_unless_mutating_witness :
  transformWordPressEndpoint "/wp/v2/posts" "get" (JObj []) JNull w0
  = transformWordPressEndpoint "/wp/v2/posts" "get" (JObj [])
      (JObj [("properties", JObj [("title", JObj [])])]) w0
  /\ forall it w',
       transformWordPressEndpoint "/wp/v2/posts" "get" (JObj [])
         (JObj [("properties", JObj [("title", JObj [])])]) w0 = Ok (it, w') ->
       headers (request_of it) = []
       /\ body (request_of it) = mkBody ModeNone None.
Proof.
  exact (schema_unused_unless_mutating "/wp/v2/posts" "get" (JObj [])
           (JObj [("properties", JObj [("title", JObj [])])]) JNull w0 eq_refl).
Defined.

(** ** The two passes of the body generator *)

Lemma member_set_other (m : list (string * jsval)) (k k' : string) (v : jsval) :
  k <> k' -> member (set m k v) k' = member m k'.
Proof.
  intros Hne. unfold set.
  destruct (String.eqb k "__proto__") eqn:Hp; [reflexivity |].
  assert (Hproto : k <> "__proto__") by (apply String.eqb_neq; exact Hp).
  generalize (member_set k k' v m Hproto). unfold set. rewrite Hp.
  intros ->. destruct (String.eqb_spec k k') as [Heq | _]; [contradiction | reflexivity].
Qed.

Lemma member_assign_other (o : object) (k k' : string) (v : jsval) :
  k <> k' -> member (own (assign o k v)) k' = member (own o) k'.
Proof.
  intros Hne. unfold assign. destruct (String.eqb k "__proto__").
  - destruct v; reflexivity.
  - cbn [own]. apply member_set_other. exact Hne.
Qed.

(** A read finds an own member that is defined. *)
Lemma defines_member (o : object) (k : string) :
  is_undefined (member (own o) k) = false -> defines o k = true.
Proof.
  unfold member, defines. destruct (assoc k (own o)) as [x |].
  - intros ->. reflexivity.
  - discriminate.
Qed.

(** X10 (generateRequestBody): what the loop over the arguments has put in
    the body is not changed by the loop over the schema properties: an own
    member that is defined after the first loop has the same value in the
    end. *)
Theorem arguments_win_over_schema (args schema : jsval) (method_ : string)
    (pathParams : list string) (w : world) (body_ : object) (w' : world) :
  request_body_members args schema method_ pathParams w = Ok (body_, w') ->
  exists body0 w1,
    (if truthy args
     then forEachM (body_of_arg method_ pathParams) (each_entries args) empty_object
     else ret empty_object) w = Ok (body0, w1)
    /\ forall k, is_undefined (member (own body0) k) = false ->
                 member (own body_) k = member (own body0) k.
Proof.
  intros Hrun. unfold request_body_members in Hrun.
  apply bindM_ok in Hrun. destruct Hrun as (body0 & w1 & Hargs & Hrun).
  exists body0, w1. split; [exact Hargs |].
  apply bindM_ok in Hrun. destruct Hrun as (properties & w2 & _ & Hrun).
  destruct (truthy properties).
  - apply (forEachM_invariant
             (fun b => forall k, is_undefined (member (own body0) k) = false ->
                                 member (own b) k = member (own body0) k)
             body_of_schema_property (each_entries properties))
      with (s := body0) (w := w2) (w' := w').
    + intros s [name_ property] wa s' wa' _ Hs Hstep.
      unfold body_of_schema_property in Hstep.
      destruct (defines s (key_name name_)) eqn:Hfree.
      * apply ret_ok in Hstep. destruct Hstep as [-> _]. exact Hs.
      * apply bindM_ok in Hstep. destruct Hstep as (readonly & w3 & _ & Hstep).
        destruct (is_true readonly).
        { apply ret_ok in Hstep. destruct Hstep as [-> _]. exact Hs. }
        destruct (key_in name_ commonFields).
        { apply bindM_ok in Hstep. destruct Hstep as (v & w4 & _ & Hstep).
          apply ret_ok in Hstep. destruct Hstep as [-> _].
          intros k Hk. rewrite member_assign_other; [exact (Hs k Hk) |].
          intros <-. rewrite <- (Hs _ Hk) in Hk.
          rewrite (defines_member s _ Hk) in Hfree. discriminate Hfree. }
        apply ret_ok in Hstep. destruct Hstep as [-> _]. exact Hs.
    + intros k _. reflexivity.
    + exact Hrun.
  - apply ret_ok in Hrun. destruct Hrun as [-> _]. intros k _. reflexivity.
Qed.

Lemma arguments_win_over_schema_witness :
  exists body_ w' body0 w1,
    request_body_members
      (JObj [("title", JObj [("type", JStr "string"); ("default", JStr "Hello")])])
      (JObj [("properties", JObj [("title", JObj [("type", JStr "integer")]);
                                  ("slug", JObj [("type", JStr "string")])])])
      "POST" [] w0 = Ok (body_, w')
    /\ (if truthy (JObj [("title", JObj [("type", JStr "string"); ("default", JStr "Hello")])])
        then forEachM (body_of_arg "POST" [])
               (each_entries
                  (JObj [("title", JObj [("type", JStr "string"); ("default", JStr "Hello")])]))
               empty_object
        else ret empty_object) w0 = Ok (body0, w1)
    /\ forall k, is_undefined (member (own body0) k) = false ->
                 member (own body_) k = member (own body0) k.
Proof.
  assert (Hrun : exists body_ w',
             request_body_members
               (JObj [("title", JObj [("type", JStr "string"); ("default", JStr "Hello")])])
               (JObj [("properties", JObj [("title", JObj [("type", JStr "integer")]);
                                           ("slug", JObj [("type", JStr "string")])])])
               "POST" [] w0 = Ok (body_, w'))
    by (eexists; eexists; vm_compute; reflexivity).
  destruct Hrun as (body_ & w' & Hrun).
  destruct (arguments_win_over_schema _ _ _ _ _ _ _ Hrun) as (body0 & w1 & H).
  exists body_, w', body0, w1. split; [exact Hrun | exact H].
Defined.

(** ** Routes made of literal text and capture groups *)

Lemma concat_cons (x : string) (xs : list string) :
  String.concat "" (x :: xs) = x ++ String.concat "" xs.
Proof. destruct xs as [| y xs]; simpl; [rewrite append_empty_r |]; reflexivity. Qed.

Lemma group_names_from_budget (fuel : nat) :
  forall s, String.length s <= fuel -> Str.group_names_from fuel s = Str.group_names s.
Proof.
  unfold Str.group_names.
  induction fuel as [fuel IH] using lt_wf_ind. intros s Hlen.
  destruct s as [| c r]; [destruct fuel; reflexivity |].
  destruct fuel as [| fuel]; [simpl in Hlen; lia |].
  simpl in Hlen. simpl String.length.
  cbn [Str.group_names_from].
  destruct (Str.match_group (String c r)) as [[n r'] |] eqn:Hm.
  - apply match_group_length in Hm. simpl in Hm.
    rewrite (IH fuel ltac:(lia) r' ltac:(lia)).
    rewrite (IH (String.length r) ltac:(lia) r' ltac:(lia)). reflexivity.
  - rewrite (IH fuel ltac:(lia) r ltac:(lia)). reflexivity.
Qed.

Lemma group_names_cons (c : ascii) (r : string) :
  Str.group_names (String c r)
  = match Str.match_group (String c r) with
    | Some (n, r') => n :: Str.group_names r'
    | None => Str.group_names r
    end.
Proof.
  unfold Str.group_names at 1. simpl String.length. cbn [Str.group_names_from].
  destruct (Str.match_group (String c r)) as [[n r'] |] eqn:Hm.
  - apply match_group_length in Hm. simpl in Hm.
    rewrite group_names_from_budget by lia. reflexivity.
  - reflexivity.
Qed.

Lemma match_group_literal (c : ascii) (r : string) :
  negb (Ascii.eqb c "("%char) = true -> Str.match_group (String c r) = None.
Proof.
  intros Hc. unfold Str.match_group.
  assert (Hs : Str.strip_prefix "(?P<" (String c r) = None).
  { cbn [Str.strip_prefix].
    destruct (Ascii.eqb_spec "("%char c) as [<- | _]; [| reflexivity].
    rewrite Ascii.eqb_refl in Hc. discriminate Hc. }
  rewrite Hs. reflexivity.
Qed.

Lemma group_names_literal (t rest : string) :
  all_chars (fun c => negb (Ascii.eqb c "("%char)) t = true ->
  Str.group_names (t ++ rest) = Str.group_names rest.
Proof.
  induction t as [| c t IH]; simpl; intros Ht; [reflexivity |].
  apply andb_prop in Ht. destruct Ht as [Hc Ht].
  rewrite group_names_cons, (match_group_literal c _ Hc). exact (IH Ht).
Qed.

(** A simple capture group at the head of a route is the next match. *)
Lemma simple_group_head (n p rest : string) :
  simple_segment (Group n p) = true ->
  exists c r, segment_text (Group n p) ++ rest = String c r
              /\ Str.match_group (String c r) = Some (n, rest).
Proof.
  intros Hseg. pose proof (match_group_simple n p rest Hseg) as Hm.
  destruct (segment_text (Group n p) ++ rest) as [| c r] eqn:Hwhole.
  - simpl in Hwhole. discriminate Hwhole.
  - exists c, r. split; [reflexivity | exact Hm].
Qed.

Lemma replace_groups_simple (repl : string -> string) (segs : list segment) :
  forallb simple_segment segs = true ->
  Str.replace_groups repl (route_text segs)
  = String.concat "" (map (fun s => match s with
                                    | Lit t => t
                                    | Group n _ => repl n
                                    end) segs).
Proof.
  unfold route_text.
  induction segs as [| seg segs IH]; intros Hok; [reflexivity |].
  simpl in Hok. apply andb_prop in Hok. destruct Hok as [Hseg Hok].
  rewrite !map_cons, !concat_cons.
  destruct seg as [t | n p].
  - simpl segment_text. rewrite (replace_groups_literal _ t _ Hseg), (IH Hok). reflexivity.
  - destruct (simple_group_head n p (String.concat "" (map segment_text segs)) Hseg)
      as (c & r & -> & Hm).
    rewrite replace_groups_cons, Hm, (IH Hok). reflexivity.
Qed.

Lemma group_names_simple (segs : list segment) :
  forallb simple_segment segs = true ->
  Str.group_names (route_text segs) = group_names_of segs.
Proof.
  unfold route_text, group_names_of.
  induction segs as [| seg segs IH]; intros Hok; [reflexivity |].
  simpl in Hok. apply andb_prop in Hok. destruct Hok as [Hseg Hok].
  rewrite !map_cons, !concat_cons.
  destruct seg as [t | n p].
  - simpl segment_text. rewrite (group_names_literal t _ Hseg), (IH Hok). reflexivity.
  - destruct (simple_group_head n p (String.concat "" (map segment_text segs)) Hseg)
      as (c & r & -> & Hm).
    rewrite group_names_cons, Hm, (IH Hok). reflexivity.
Qed.

(** X11 (extractPathParameters, getParameterLocation): on a route made of
    literal text without an opening parenthesis and of capture groups whose
    pattern holds no closing parenthesis, the path parameters are the names
    of the capture groups, in order and with repetitions; an argument named
    after a capture group is placed in the path whatever the method. *)
Theorem extractPathParameters_simple_route (segs : list segment) :
  forallb simple_segment segs = true ->
  extractPathParameters (route_text segs) = group_names_of segs
  /\ forall method_ n p,
       In (Group n p) segs ->
       getParameterLocation method_ (KStr n) (extractPathParameters (route_text segs))
       = LocPath.
Proof.
  intros Hok. unfold extractPathParameters.
  rewrite (group_names_simple segs Hok). split; [reflexivity |].
  intros method_ n p Hin. unfold getParameterLocation.
  assert (Hmem : key_in (KStr n) (group_names_of segs) = true).
  { cbn [key_in]. apply existsb_exists. exists n. split; [| apply String.eqb_refl].
    unfold group_names_of. apply in_flat_map. exists (Group n p).
    split; [exact Hin | left; reflexivity]. }
  rewrite Hmem. reflexivity.
Qed.

Lemma extractPathParameters_simple_route_witness :
  extractPathParameters "/wp/v2/posts/(?P<parent>[\d]+)/revisions/(?P<id>[\d]+)"
  = ["parent"; "id"]
  /\ forall method_ n p,
       In (Group n p)
          [Lit "/wp/v2/posts/"; Group "parent" "[\d]+"; Lit "/revisions/"; Group "id" "[\d]+"] ->
       getParameterLocation method_ (KStr n)
         (extractPathParameters "/wp/v2/posts/(?P<parent>[\d]+)/revisions/(?P<id>[\d]+)")
       = LocPath.
Proof.
  exact (extractPathParameters_simple_route
           [Lit "/wp/v2/posts/"; Group "parent" "[\d]+"; Lit "/revisions/"; Group "id" "[\d]+"]
           eq_refl).
Defined.

Lemma skeleton_same_shape (by_ : string) (segs segs' : list segment) :
  Forall2 same_shape segs segs' -> skeleton by_ segs = skeleton by_ segs'.
Proof.
  unfold skeleton. induction 1 as [| a b segs segs' Hab _ IH]; [reflexivity |].
  rewrite !map_cons, !concat_cons, IH.
  destruct a, b; simpl in Hab; try contradiction; subst; reflexivity.
Qed.

(** X12 (isCollectionEndpoint): on such routes the answer does not depend
    on the names and patterns of the capture groups: two routes with the
    same literal text around their capture groups are both collection
    endpoints or both not. *)
Theorem isCollectionEndpoint_ignores_groups (segs segs' : list segment) :
  forallb simple_segment segs = true ->
  forallb simple_segment segs' = true ->
  Forall2 same_shape segs segs' ->
  isCollectionEndpoint (route_text segs) = isCollectionEndpoint (route_text segs').
Proof.
  intros Hok Hok' Hshape. unfold isCollectionEndpoint.
  rewrite (replace_groups_simple _ segs Hok), (replace_groups_simple _ segs' Hok').
  fold (skeleton "{param}" segs). fold (skeleton "{param}" segs').
  rewrite (skeleton_same_shape _ _ _ Hshape). reflexivity.
Qed.

Lemma isCollectionEndpoint_ignores_groups_witness :
  isCollectionEndpoint "/wp/v2/posts/(?P<parent>[\d]+)/revisions"
  = isCollectionEndpoint "/wp/v2/posts/(?P<slug>[\w-]+)/revisions".
Proof.
  refine (isCollectionEndpoint_ignores_groups
            [Lit "/wp/v2/posts/"; Group "parent" "[\d]+"; Lit "/revisions"]
            [Lit "/wp/v2/posts/"; Group "slug" "[\w-]+"; Lit "/revisions"]
            eq_refl eq_refl _).
  repeat constructor.
Defined.

(** ** What the folder tree holds *)

Lemma Permutation_flat_map_pointwise {A B : Type} (f g : A -> list B) (l : list A) :
  (forall x, In x l -> Permutation (f x) (g x)) ->
  Permutation (flat_map f l) (flat_map g l).
Proof.
  induction l as [| x l IH]; intros H; simpl; [constructor |].
  apply Permutation_app.
  - apply H. left. reflexivity.
  - apply IH. intros y Hy. apply H. right. exact Hy.
Qed.

(** One more element in the bucket of [k0]. *)
Lemma bucket_insert {A : Type} (a : A) (k0 : string) (g : string -> list A) (ks : list string) :
  NoDup ks -> In k0 ks ->
  Permutation (flat_map (fun k => if String.eqb k0 k then a :: g k else g k) ks)
              (a :: flat_map g ks).
Proof.
  induction 1 as [| k ks Hnotin Hnd IH]; intros Hin; [contradiction |].
  cbn [flat_map]. destruct (String.eqb_spec k0 k) as [-> | Hne].
  - cbn [app]. constructor. apply Permutation_app_head.
    apply Permutation_flat_map_pointwise. intros x Hx.
    destruct (String.eqb_spec k x) as [-> | _]; [contradiction | apply Permutation_refl].
  - destruct Hin as [Heq | Hin]; [congruence |].
    eapply Permutation_trans; [apply Permutation_app_head, (IH Hin) |].
    apply Permutation_sym, Permutation_middle.
Qed.

(** Buckets by key hold every keyed element once. *)
Lemma bucket_partition {A : Type} (key : A -> option string) (ks : list string) (l : list A) :
  NoDup ks ->
  (forall a k, In a l -> key a = Some k -> In k ks) ->
  Permutation
    (flat_map (fun k => filter (fun a => match key a with
                                         | Some k' => String.eqb k' k
                                         | None => false
                                         end) l) ks)
    (filter (fun a => match key a with Some _ => true | None => false end) l).
Proof.
  intros Hnd. induction l as [| a l IH]; intros Hcover.
  - simpl. clear. induction ks as [| k ks IHks]; simpl; [constructor | exact IHks].
  - assert (IH' := IH (fun a' k Hin => Hcover a' k (or_intror Hin))).
    cbn [filter]. destruct (key a) as [k0 |] eqn:Hkey.
    + eapply Permutation_trans; [| constructor; exact IH'].
      apply (bucket_insert a k0 _ ks Hnd).
      apply (Hcover a k0); [left; reflexivity | exact Hkey].
    + exact IH'.
Qed.

Lemma filed_of_shape (folders : list namespace_folder) :
  filed folders = flat_map (fun e => flat_map snd (snd e)) (shape folders).
Proof.
  unfold filed, shape. induction folders as [| f folders IH]; [reflexivity |].
  cbn [flat_map map]. rewrite IH. f_equal. cbn [snd].
  induction (nf_items f) as [| rf rfs IHr]; [reflexivity |].
  cbn [flat_map map snd]. rewrite IHr. reflexivity.
Qed.

Lemma organize_spec_filed (items : list item) :
  Permutation (flat_map (fun e => flat_map snd (snd e)) (organize_spec items))
              (matched items).
Proof.
  unfold organize_spec. rewrite flat_map_concat_map, map_map, <- flat_map_concat_map.
  cbn [snd].
  eapply Permutation_trans.
  - apply Permutation_flat_map_pointwise with
      (g := fun ns => filter (fun it => match route_of it with
                                        | Some (ns', _) => String.eqb ns' ns
                                        | None => false
                                        end) items).
    intros ns _.
    rewrite flat_map_concat_map, map_map, <- flat_map_concat_map. cbn [snd].
    pose proof (bucket_partition
                  (fun it => match route_of it with
                             | Some (ns', r) => if String.eqb ns' ns then Some r else None
                             | None => None
                             end)
                  (resources_of ns items) items (first_seen_NoDup _)) as Hb.
    eapply Permutation_trans; [| eapply Permutation_trans; [apply Hb |]].
    + apply Permutation_flat_map_pointwise. intros r _. unfold members_of.
      erewrite filter_ext; [apply Permutation_refl |].
      intros it. cbv beta. destruct (route_of it) as [[ns' r'] |]; [| reflexivity].
      destruct (String.eqb ns' ns); reflexivity.
    + intros it r Hin Hkey. apply resources_of_In. exists it. split; [exact Hin |].
      destruct (route_of it) as [[ns' r'] |]; [| discriminate].
      destruct (String.eqb_spec ns' ns) as [-> | _]; [| discriminate].
      inversion Hkey. reflexivity.
    + erewrite filter_ext; [apply Permutation_refl |].
      intros it. cbv beta. destruct (route_of it) as [[ns' r'] |]; [| reflexivity].
      destruct (String.eqb ns' ns); reflexivity.
  - pose proof (bucket_partition
                  (fun it => match route_of it with
                             | Some (ns', _) => Some ns'
                             | None => None
                             end)
                  (namespaces_of items) items (first_seen_NoDup _)) as Hb.
    eapply Permutation_trans; [| eapply Permutation_trans; [apply Hb |]].
    + apply Permutation_flat_map_pointwise. intros ns _.
      erewrite filter_ext; [apply Permutation_refl |].
      intros it. cbv beta. destruct (route_of it) as [[ns' r'] |]; reflexivity.
    + intros it ns Hin Hkey.
      destruct (route_of it) as [[ns' r'] |] eqn:Hroute; [| discriminate].
      inversion Hkey; subst. apply namespaces_of_In. exists it, r'. split; assumption.
    + unfold matched. erewrite filter_ext; [apply Permutation_refl |].
      intros it. cbv beta. destruct (route_of it) as [[ns' r'] |]; reflexivity.
Qed.

(** X13 (organizeIntoFolders): the folder tree holds every descriptor whose
    URL has the namespace and resource shape exactly once, repeated
    descriptors as often as the input has them, and nothing else. *)
Theorem organizeIntoFolders_files_once (items : list item) (w : world) :
  exists folders w',
    organizeIntoFolders items w = Ok (folders, w')
    /\ Permutation (filed folders) (matched items).
Proof.
  destruct (organize_loop items [] [] w) as (m & w' & Hrun & Hinv).
  { split; constructor. }
  simpl in Hinv. pose proof (organize_inv_shape items m Hinv) as Hshape.
  exists (map snd m), w'. split.
  - unfold organizeIntoFolders, bindM. rewrite Hrun. reflexivity.
  - rewrite filed_of_shape, Hshape. apply organize_spec_filed.
Qed.

(** X14 (organizeIntoFolders): no folder of the tree is empty, and the
    resource folders of a namespace folder have distinct names. *)
Theorem organizeIntoFolders_no_empty_folder (items : list item) (w : world) :
  exists folders w',
    organizeIntoFolders items w = Ok (folders, w')
    /\ Forall (fun f =>
                 nf_items f <> []
                 /\ NoDup (map rf_name (nf_items f))
                 /\ Forall (fun rf => rf_items rf <> []) (nf_items f)) folders.
Proof.
  destruct (organize_loop items [] [] w) as (m & w' & Hrun & Hinv).
  { split; constructor. }
  simpl in Hinv.
  exists (map snd m), w'. split.
  - unfold organizeIntoFolders, bindM. rewrite Hrun. reflexivity.
  - destruct Hinv as (Hkeys & Hall).
    apply Forall_forall. intros f Hf.
    apply in_map_iff in Hf. destruct Hf as ([ns f'] & <- & Hin).
    rewrite Forall_forall in Hall.
    destruct (Hall _ Hin) as (_ & Hnames & Hitems). cbn [fst snd] in *.
    assert (Hns : In ns (namespaces_of items)).
    { rewrite <- Hkeys. apply in_map_iff. exists (ns, f'). split; [reflexivity | exact Hin]. }
    apply namespaces_of_In in Hns. destruct Hns as (it & r & Hit & Hroute).
    assert (Hr : In r (resources_of ns items))
      by (apply resources_of_In; exists it; split; assumption).
    split; [| split].
    + intros Hnil. rewrite <- Hnames, Hnil in Hr. exact Hr.
    + rewrite Hnames. apply first_seen_NoDup.
    + apply Forall_forall. intros rf Hrf.
      rewrite Forall_forall in Hitems. rewrite (Hitems rf Hrf).
      assert (Hrn : In (rf_name rf) (resources_of ns items)).
      { rewrite <- Hnames. apply in_map_iff. exists rf. split; [reflexivity | exact Hrf]. }
      apply resources_of_In in Hrn. destruct Hrn as (it' & Hit' & Hroute').
      intros Hnil.
      assert (Hmem : In it' (members_of ns (rf_name rf) items))
        by (apply members_of_In; split; assumption).
      rewrite Hnil in Hmem. exact Hmem.
Qed.

(** ** From the route to the folder *)

Lemma all_chars_weaken (p q : ascii -> bool) (s : string) :
  (forall c, p c = true -> q c = true) ->
  all_chars p s = true -> all_chars q s = true.
Proof.
  intros Hpq. induction s as [| c s IH]; simpl; [reflexivity |].
  intros H. apply andb_prop in H. destruct H as [Hc Hs].
  rewrite (Hpq c Hc), (IH Hs). reflexivity.
Qed.

Lemma take_while_all (p : ascii -> bool) (run rest : string) :
  all_chars p run = true ->
  match rest with
  | EmptyString => true
  | String c _ => negb (p c)
  end = true ->
  Str.take_while p (run ++ rest) = (run, rest).
Proof.
  intros Hrun Hrest. induction run as [| x run IH]; simpl.
  - destruct rest as [| c r]; [reflexivity |].
    apply negb_true_iff in Hrest. simpl. rewrite Hrest. reflexivity.
  - simpl in Hrun. apply andb_prop in Hrun. destruct Hrun as [Hx Hrun].
    rewrite Hx, (IH Hrun). reflexivity.
Qed.

Lemma match_namespace_at_parts (seg ds res rest : string) :
  Str.is_empty seg = false ->
  all_chars (fun c => negb (Ascii.eqb c "/"%char)) seg = true ->
  Str.is_empty ds = false ->
  all_chars Str.is_digit ds = true ->
  Str.is_empty res = false ->
  all_chars (fun c => negb (Str.char_in "/:?" c)) res = true ->
  match rest with
  | EmptyString => true
  | String c _ => Ascii.eqb c "/"%char
  end = true ->
  Str.match_namespace_at ("/" ++ seg ++ "/v" ++ ds ++ "/" ++ res ++ rest)
  = Some (seg ++ "/v" ++ ds, res).
Proof.
  intros Hseg Hsegc Hds Hdsc Hres Hresc Hrest.
  unfold Str.match_namespace_at.
  rewrite strip_prefix_append.
  change ("/v" ++ ds ++ "/" ++ res ++ rest)
    with (String "/"%char ("v" ++ ds ++ "/" ++ res ++ rest)).
  rewrite (take_while_run _ seg "/"%char _ Hsegc eq_refl), Hseg.
  change (String "/"%char ("v" ++ ds ++ "/" ++ res ++ rest))
    with ("/v" ++ (ds ++ "/" ++ res ++ rest)).
  rewrite strip_prefix_append.
  change ("/" ++ res ++ rest) with (String "/"%char (res ++ rest)).
  rewrite (take_while_run _ ds "/"%char _ Hdsc eq_refl), Hds.
  change (String "/"%char (res ++ rest)) with ("/" ++ (res ++ rest)).
  rewrite strip_prefix_append.
  rewrite (take_while_all _ res rest Hresc), Hres; [reflexivity |].
  destruct rest as [| c r]; [reflexivity |].
  apply Ascii.eqb_eq in Hrest. subst c. reflexivity.
Qed.

Lemma match_namespace_here (s : string) (m : string * string) :
  Str.match_namespace_at s = Some m -> Str.match_namespace s = Some m.
Proof. intros H. destruct s; cbn [Str.match_namespace]; rewrite H; reflexivity. Qed.

Lemma match_namespace_skip (p s : string) :
  all_chars (fun c => negb (Ascii.eqb c "/"%char)) p = true ->
  Str.match_namespace (p ++ s) = Str.match_namespace s.
Proof.
  induction p as [| c p IH]; simpl; intros Hp; [reflexivity |].
  apply andb_prop in Hp. destruct Hp as [Hc Hp].
  assert (Hat : Str.match_namespace_at (String c (p ++ s)) = None).
  { unfold Str.match_namespace_at. cbn [Str.strip_prefix].
    destruct (Ascii.eqb_spec "/"%char c) as [<- | _]; [| reflexivity].
    rewrite Ascii.eqb_refl in Hc. discriminate Hc. }
  rewrite Hat. exact (IH Hp).
Qed.

Lemma slashes_to_dashes_app (a b : string) :
  Str.slashes_to_dashes (a ++ b) = Str.slashes_to_dashes a ++ Str.slashes_to_dashes b.
Proof. induction a as [| c a IH]; simpl; [reflexivity | rewrite IH; reflexivity]. Qed.

Lemma slashes_to_dashes_none (s : string) :
  all_chars (fun c => negb (Ascii.eqb c "/"%char)) s = true ->
  Str.slashes_to_dashes s = s.
Proof.
  induction s as [| c s IH]; simpl; intros H; [reflexivity |].
  apply andb_prop in H. destruct H as [Hc Hs].
  apply negb_true_iff in Hc. rewrite Hc, (IH Hs). reflexivity.
Qed.

Lemma digit_not (c x : ascii) :
  Str.is_digit x = false -> Str.is_digit c = true -> negb (Ascii.eqb c x) = true.
Proof.
  intros Hx Hc. destruct (Ascii.eqb_spec c x) as [-> | _]; [congruence | reflexivity].
Qed.

(** The resource segment of a template ends where the route's does. *)
Lemma replace_groups_rest (repl : string -> string) (rest : string) :
  match rest with
  | EmptyString => true
  | String c _ => Ascii.eqb c "/"%char
  end = true ->
  match Str.replace_groups repl rest with
  | EmptyString => true
  | String c _ => Ascii.eqb c "/"%char
  end = true.
Proof.
  destruct rest as [| c r]; [reflexivity |].
  intros Hc. rewrite replace_groups_cons, match_group_literal; [exact Hc |].
  apply Ascii.eqb_eq in Hc. subst c. reflexivity.
Qed.

(** X15 (transformWordPressEndpoint, organizeIntoFolders): the descriptor of
    a route [/seg/vN/res], followed by nothing or by a slash and anything,
    has namespace [seg/vN] and resource [res]; organized on its own it is
    filed in the resource folder [res] of the namespace folder [seg-vN]. *)
Theorem descriptor_filed_by_route (seg ds res rest method_ : string)
    (endpoint schema : jsval) (w : world) (it : item) (w' : world) :
  route_parts seg ds res rest = true ->
  transformWordPressEndpoint ("/" ++ seg ++ "/v" ++ ds ++ "/" ++ res ++ rest)
    method_ endpoint schema w = Ok (it, w') ->
  route_of it = Some (seg ++ "/v" ++ ds, res)
  /\ forall w1, exists u1 u2 w2,
       organizeIntoFolders [it] w1
       = Ok ([mkNamespaceFolder u1 (seg ++ "-v" ++ ds) [mkResourceFolder u2 res [it]]], w2).
Proof.
  intros Hparts Hrun. unfold route_parts in Hparts.
  apply andb_prop in Hparts. destruct Hparts as [Hparts Hrest].
  apply andb_prop in Hparts. destruct Hparts as [Hparts Hresc].
  apply andb_prop in Hparts. destruct Hparts as [Hparts Hres].
  apply andb_prop in Hparts. destruct Hparts as [Hparts Hdsc].
  apply andb_prop in Hparts. destruct Hparts as [Hparts Hds].
  apply andb_prop in Hparts. destruct Hparts as [Hseg Hsegc].
  apply negb_true_iff in Hseg, Hds, Hres.
  assert (Hseg1 : all_chars (fun c => negb (Ascii.eqb c "/"%char)) seg = true).
  { eapply all_chars_weaken; [| exact Hsegc]; cbv beta.
    intros c Hc. apply andb_prop in Hc. exact (proj1 Hc). }
  assert (Hseg2 : all_chars (fun c => negb (Ascii.eqb c "("%char)) seg = true).
  { eapply all_chars_weaken; [| exact Hsegc]; cbv beta.
    intros c Hc. apply andb_prop in Hc. exact (proj2 Hc). }
  assert (Hres1 : all_chars (fun c => negb (Str.char_in "/:?" c)) res = true).
  { eapply all_chars_weaken; [| exact Hresc]; cbv beta.
    intros c Hc. apply andb_prop in Hc. exact (proj1 Hc). }
  assert (Hres2 : all_chars (fun c => negb (Ascii.eqb c "("%char)) res = true).
  { eapply all_chars_weaken; [| exact Hresc]; cbv beta.
    intros c Hc. apply andb_prop in Hc. exact (proj2 Hc). }
  assert (Hds1 : all_chars (fun c => negb (Ascii.eqb c "/"%char)) ds = true).
  { eapply all_chars_weaken; [| exact Hdsc]; cbv beta.
    intros c. apply digit_not. reflexivity. }
  assert (Hds2 : all_chars (fun c => negb (Ascii.eqb c "("%char)) ds = true).
  { eapply all_chars_weaken; [| exact Hdsc]; cbv beta.
    intros c. apply digit_not. reflexivity. }
  apply transformWordPressEndpoint_inversion in Hrun.
  destruct Hrun as (args0 & hs & ps & ps1 & b & w2 & w3 & w4 & _ & _ & _ & _ & _ & Hit).
  assert (Hroute : route_of it = Some (seg ++ "/v" ++ ds, res)).
  { subst it. unfold route_of. cbn [request_of url].
    rewrite (replace_groups_literal _ "/" _ eq_refl).
    rewrite (replace_groups_literal _ seg _ Hseg2).
    rewrite (replace_groups_literal _ "/v" _ eq_refl).
    rewrite (replace_groups_literal _ ds _ Hds2).
    rewrite (replace_groups_literal _ "/" _ eq_refl).
    rewrite (replace_groups_literal _ res _ Hres2).
    rewrite (match_namespace_skip "{{baseUrl}}" _ eq_refl).
    apply match_namespace_here.
    apply match_namespace_at_parts; try assumption.
    apply replace_groups_rest. exact Hrest. }
  split; [exact Hroute |].
  intros w1. unfold organizeIntoFolders. cbn [forEachM]. unfold organize_item.
  change (Str.match_namespace (url (request_of it))) with (route_of it).
  rewrite Hroute. cbn [map_get].
  unfold bindM, uuid, ret. simpl. rewrite String.eqb_refl. simpl.
  change (String "/"%char (String "v"%char ds)) with ("/v" ++ ds).
  rewrite !slashes_to_dashes_app, (slashes_to_dashes_none seg Hseg1),
    (slashes_to_dashes_none ds Hds1).
  eexists. eexists. eexists. reflexivity.
Qed.

Lemma descriptor_filed_by_route_witness :
  exists it w',
    transformWordPressEndpoint "/wc/v3/products/(?P<id>[\d]+)" "GET" (JObj []) JNull w0
    = Ok (it, w')
    /\ route_of it = Some ("wc/v3", "products")
    /\ forall w1, exists u1 u2 w2,
         organizeIntoFolders [it] w1
         = Ok ([mkNamespaceFolder u1 "wc-v3" [mkResourceFolder u2 "products" [it]]], w2).
Proof.
  assert (Hrun : exists it w',
             transformWordPressEndpoint "/wc/v3/products/(?P<id>[\d]+)" "GET" (JObj []) JNull w0
             = Ok (it, w'))
    by (eexists; eexists; vm_compute; reflexivity).
  destruct Hrun as (it & w' & Hrun). exists it, w'.
  split; [exact Hrun |].
  exact (descriptor_filed_by_route "wc" "3" "products" "/(?P<id>[\d]+)" "GET"
           (JObj []) JNull w0 it w' eq_refl Hrun).
Defined.

(** ** The schema cleaner *)

Lemma clean_object (m : list (string * jsval)) :
  cleanWordPressSchemaProperties (JObj m) = JObj (copy_members m []).
Proof. reflexivity. Qed.

Lemma clean_array (l : list jsval) :
  cleanWordPressSchemaProperties (JArr l) = JObj (copy_elements 0 l []).
Proof. reflexivity. Qed.

Lemma has_key_In (k : string) (m : list (string * jsval)) :
  has_key k m = true <-> In k (keys m).
Proof.
  unfold has_key, keys. induction m as [| [k1 v1] m IH]; simpl.
  - split; [discriminate | contradiction].
  - destruct (String.eqb_spec k k1) as [-> | Hne].
    + split; auto.
    + rewrite IH. split; [auto | intros [H | H]; [congruence | exact H]].
Qed.

Lemma replace_member_In (k k' : string) (v x : jsval) (m : list (string * jsval)) :
  In (k', x) (replace_member k v m) -> (k' = k /\ x = v) \/ In (k', x) m.
Proof.
  induction m as [| [k1 v1] m IH]; simpl; [contradiction |].
  destruct (String.eqb_spec k k1) as [-> | _]; simpl.
  - intros [H | H]; [inversion H; subst; left; split; reflexivity | right; right; exact H].
  - intros [H | H]; [right; left; exact H |].
    destruct (IH H) as [Hk | Hin]; [left; exact Hk | right; right; exact Hin].
Qed.

Lemma insert_index_In (i : nat) (k k' : string) (v x : jsval) (m : list (string * jsval)) :
  In (k', x) (insert_index i k v m) -> (k' = k /\ x = v) \/ In (k', x) m.
Proof.
  induction m as [| [k1 v1] m IH]; simpl.
  - intros [H | []]. inversion H; subst. left. split; reflexivity.
  - destruct (array_index k1) as [j |].
    + destruct (j <? i)%nat; simpl.
      * intros [H | H]; [right; left; exact H |].
        destruct (IH H) as [Hk | Hin]; [left; exact Hk | right; right; exact Hin].
      * intros [H | H]; [inversion H; subst; left; split; reflexivity | right; exact H].
    + simpl. intros [H | H]; [inversion H; subst; left; split; reflexivity | right; exact H].
Qed.

(** What [obj[k] = v] leaves in the object. *)
Lemma set_In (m : list (string * jsval)) (k k' : string) (v x : jsval) :
  In (k', x) (set m k v) -> (k' = k /\ x = v) \/ In (k', x) m.
Proof.
  unfold set. destruct (String.eqb k "__proto__"); [right; assumption |].
  destruct (has_key k m).
  - apply replace_member_In.
  - destruct (array_index k) as [i |].
    + apply insert_index_In.
    + rewrite in_app_iff. simpl.
      intros [H | [H | []]]; [right; exact H | inversion H; subst; left; split; reflexivity].
Qed.

Lemma not_removed (k key : string) :
  In k keysToRemove -> existsb (String.eqb key) keysToRemove = false -> key <> k.
Proof.
  intros Hk Hkey ->. apply (existsb_false_In _ _ k Hkey) in Hk.
  rewrite String.eqb_refl in Hk. discriminate Hk.
Qed.

Lemma of_nat_not_removed (i : nat) :
  existsb (String.eqb (Str.of_nat i)) keysToRemove = false.
Proof.
  unfold Str.of_nat. destruct (Nat.to_uint i); reflexivity.
Qed.

(** The state of the copying loops: no key [k], and no value that mentions
    it. *)
Lemma set_without (k : string) (acc : list (string * jsval)) (key : string) (v : jsval) :
  key <> k ->
  mentions k v = false ->
  has_key k acc = false /\ Forall (fun kv => mentions k (snd kv) = false) acc ->
  has_key k (set acc key v) = false
  /\ Forall (fun kv => mentions k (snd kv) = false) (set acc key v).
Proof.
  intros Hne Hv [Hkey Hvals]. split.
  - destruct (has_key k (set acc key v)) eqn:Hhas; [| reflexivity].
    apply has_key_In in Hhas. apply keys_set in Hhas.
    destruct Hhas as [Heq | Hin]; [congruence |].
    apply has_key_In in Hin. congruence.
  - apply Forall_forall. intros [k' x] Hin. cbn [snd].
    apply set_In in Hin. destruct Hin as [[_ ->] | Hin]; [exact Hv |].
    rewrite Forall_forall in Hvals. exact (Hvals _ Hin).
Qed.

Lemma mentions_object (k : string) (m : list (string * jsval)) :
  has_key k m = false /\ Forall (fun kv => mentions k (snd kv) = false) m ->
  mentions k (JObj m) = false.
Proof.
  intros [Hkey Hvals]. cbn [mentions]. rewrite Hkey. cbn [orb].
  destruct (existsb (fun kv => mentions k (snd kv)) m) eqn:Hex; [| reflexivity].
  apply existsb_exists in Hex. destruct Hex as (kv & Hin & Hm).
  rewrite Forall_forall in Hvals. rewrite (Hvals kv Hin) in Hm. discriminate Hm.
Qed.

(** X16 (cleanWordPressSchemaProperties): in what the cleaner returns no
    object, at any depth, has a key [context] or [readonly]. *)
Theorem cleanWordPressSchemaProperties_removes_everywhere (k : string) (v : jsval) :
  In k keysToRemove ->
  mentions k (cleanWordPressSchemaProperties v) = false.
Proof.
  intros Hk.
  assert (Hboth : mentions k (cleanWordPressSchemaProperties v) = false
                  /\ mentions k (clean_value v) = false).
  { induction v as [| | b | n | s | l IH | m IH] using jsval_induction;
      try (split; reflexivity).
    - assert (Hitems : mentions k (clean_value (JArr l)) = false).
      { cbn [clean_value mentions].
        destruct (existsb (mentions k) (map clean_item l)) eqn:Hex; [| reflexivity].
        apply existsb_exists in Hex. destruct Hex as (x & Hin & Hm).
        apply in_map_iff in Hin. destruct Hin as (item & <- & Hin).
        rewrite Forall_forall in IH. destruct (IH item Hin) as [Hclean _].
        destruct item; cbn [clean_item] in Hm; try discriminate Hm; congruence. }
      split; [| exact Hitems].
      rewrite clean_array. apply mentions_object.
      assert (Hloop : forall i acc,
                 has_key k acc = false
                 /\ Forall (fun kv => mentions k (snd kv) = false) acc ->
                 has_key k (copy_elements i l acc) = false
                 /\ Forall (fun kv => mentions k (snd kv) = false) (copy_elements i l acc)).
      { clear Hitems. induction l as [| value l IHl]; intros i acc Hacc; [exact Hacc |].
        inversion IH as [| ? ? [_ Hvalue] IH']; subst.
        cbn [copy_elements]. apply (IHl IH').
        apply set_without; [| exact Hvalue | exact Hacc].
        apply (not_removed k _ Hk). apply of_nat_not_removed. }
      apply Hloop. split; [reflexivity | constructor].
    - assert (Hobj : mentions k (cleanWordPressSchemaProperties (JObj m)) = false).
      { rewrite clean_object. apply mentions_object.
        assert (Hloop : forall acc,
                   has_key k acc = false
                   /\ Forall (fun kv => mentions k (snd kv) = false) acc ->
                   has_key k (copy_members m acc) = false
                   /\ Forall (fun kv => mentions k (snd kv) = false) (copy_members m acc)).
        { induction m as [| [key value] m IHm]; intros acc Hacc; [exact Hacc |].
          inversion IH as [| ? ? [_ Hvalue] IH']; subst. cbn [snd] in Hvalue.
          cbn [copy_members].
          destruct (existsb (String.eqb key) keysToRemove) eqn:Hrem.
          - apply (IHm IH'). exact Hacc.
          - apply (IHm IH'). apply set_without; [| exact Hvalue | exact Hacc].
            exact (not_removed k key Hk Hrem). }
        apply Hloop. split; [reflexivity | constructor]. }
      split; exact Hobj. }
  exact (proj1 Hboth).
Qed.

Lemma cleanWordPressSchemaProperties_removes_everywhere_witness :
  mentions "readonly"
    (cleanWordPressSchemaProperties
       (JObj [("title", JObj [("readonly", JBool true);
                              ("oneOf", JArr [JObj [("context", JArr [JStr "edit"])]])])]))
  = false.
Proof.
  apply cleanWordPressSchemaProperties_removes_everywhere. right. left. reflexivity.
Defined.

(** *** Array indices are written in one way *)

Lemma digit_value_le (c : ascii) :
  Str.is_digit c = true -> (N.of_nat (nat_of_ascii c - 48) <= 9)%N.
Proof.
  unfold Str.is_digit, Str.between. intros H. apply andb_prop in H. destruct H as [H1 H2].
  apply Nat.leb_le in H1, H2. lia.
Qed.

Lemma digit_value_inj (c c' : ascii) :
  Str.is_digit c = true -> Str.is_digit c' = true ->
  N.of_nat (nat_of_ascii c - 48) = N.of_nat (nat_of_ascii c' - 48) -> c = c'.
Proof.
  unfold Str.is_digit, Str.between. intros H H' Heq.
  apply andb_prop in H, H'. destruct H as [H1 _], H' as [H1' _].
  apply Nat.leb_le in H1, H1'.
  assert (Hn : nat_of_ascii c = nat_of_ascii c') by lia.
  rewrite <- (ascii_nat_embedding c), <- (ascii_nat_embedding c'), Hn. reflexivity.
Qed.

Lemma digits_value_bounds (s : string) :
  forall acc v,
    digits_value acc s = Some v ->
    (acc * 10 ^ N.of_nat (String.length s) <= v
     /\ v < (acc + 1) * 10 ^ N.of_nat (String.length s))%N.
Proof.
  induction s as [| c r IH]; intros acc v H.
  - simpl in H. inversion H; subst. simpl. lia.
  - cbn [digits_value] in H. destruct (Str.is_digit c) eqn:Hc; [| discriminate H].
    apply IH in H. pose proof (digit_value_le c Hc) as Hd.
    cbn [String.length].
    replace (N.of_nat (S (String.length r))) with (N.succ (N.of_nat (String.length r)))
      by lia.
    rewrite N.pow_succ_r'.
    set (P := (10 ^ N.of_nat (String.length r))%N) in *.
    set (d := N.of_nat (nat_of_ascii c - 48)) in *.
    nia.
Qed.

Lemma digits_value_same_length (r : string) :
  forall r' acc acc' v,
    String.length r = String.length r' ->
    digits_value acc r = Some v -> digits_value acc' r' = Some v ->
    acc = acc' /\ r = r'.
Proof.
  induction r as [| c r IH]; intros [| c' r'] acc acc' v Hlen H H'; try discriminate Hlen.
  - simpl in H, H'. split; [congruence | reflexivity].
  - cbn [digits_value] in H, H'.
    destruct (Str.is_digit c) eqn:Hc; [| discriminate H].
    destruct (Str.is_digit c') eqn:Hc'; [| discriminate H'].
    simpl in Hlen. injection Hlen as Hlen.
    destruct (IH r' _ _ v Hlen H H') as [Hacc ->].
    pose proof (digit_value_le c Hc) as Hd. pose proof (digit_value_le c' Hc') as Hd'.
    assert (Hdd : N.of_nat (nat_of_ascii c - 48) = N.of_nat (nat_of_ascii c' - 48)) by lia.
    split; [lia |]. rewrite (digit_value_inj c c' Hc Hc' Hdd). reflexivity.
Qed.

(** A numeral without leading zero is not shorter than another one of the
    same value. *)
Lemma digits_value_length (c c' : ascii) (r r' : string) (v : N) :
  (Ascii.eqb c' "0"%char && negb (Str.is_empty r') = false) ->
  digits_value 0 (String c r) = Some v ->
  digits_value 0 (String c' r') = Some v ->
  ~ String.length r < String.length r'.
Proof.
  intros Hcanon H H' Hlt.
  cbn [digits_value] in H, H'.
  destruct (Str.is_digit c) eqn:Hc; [| discriminate H].
  destruct (Str.is_digit c') eqn:Hc'; [| discriminate H'].
  pose proof (digit_value_le c Hc) as Hd.
  apply digits_value_bounds in H, H'.
  assert (Hpos : (1 <= N.of_nat (nat_of_ascii c' - 48))%N).
  { destruct r' as [| x r']; [simpl in Hlt; lia |].
    cbn [Str.is_empty negb] in Hcanon. rewrite andb_true_r in Hcanon.
    apply Ascii.eqb_neq in Hcanon.
    assert (Hne : nat_of_ascii c' <> 48).
    { intros Heq. apply Hcanon.
      rewrite <- (ascii_nat_embedding c'), Heq. reflexivity. }
    unfold Str.is_digit, Str.between in Hc'. apply andb_prop in Hc'.
    destruct Hc' as [H1 _]. apply Nat.leb_le in H1. lia. }
  assert (Hpow : (10 * 10 ^ N.of_nat (String.length r)
                  <= 10 ^ N.of_nat (String.length r'))%N).
  { rewrite <- N.pow_succ_r'. apply N.pow_le_mono_r; lia. }
  set (P := (10 ^ N.of_nat (String.length r))%N) in *.
  set (P' := (10 ^ N.of_nat (String.length r'))%N) in *.
  set (d := N.of_nat (nat_of_ascii c - 48)) in *.
  set (d' := N.of_nat (nat_of_ascii c' - 48)) in *.
  nia.
Qed.

Lemma array_index_inj (a b : string) (i : nat) :
  array_index a = Some i -> array_index b = Some i -> a = b.
Proof.
  unfold array_index. intros Ha Hb.
  destruct a as [| c r]; [discriminate Ha |].
  destruct b as [| c' r']; [discriminate Hb |].
  destruct (Ascii.eqb c "0"%char && negb (Str.is_empty r)) eqn:Hca; [discriminate Ha |].
  destruct (Ascii.eqb c' "0"%char && negb (Str.is_empty r')) eqn:Hcb; [discriminate Hb |].
  destruct (digits_value 0 (String c r)) as [n |] eqn:Hn; [| discriminate Ha].
  destruct (digits_value 0 (String c' r')) as [n' |] eqn:Hn'; [| discriminate Hb].
  destruct (n <? 4294967295)%N; [| discriminate Ha].
  destruct (n' <? 4294967295)%N; [| discriminate Hb].
  inversion Ha as [Hi]. inversion Hb as [Hi'].
  assert (Heq : n = n') by lia. subst n'.
  pose proof (digits_value_length c c' r r' n Hcb Hn Hn') as H1.
  pose proof (digits_value_length c' c r' r n Hca Hn' Hn) as H2.
  assert (Hlen : String.length (String c r) = String.length (String c' r'))
    by (simpl; lia).
  exact (proj2 (digits_value_same_length _ _ _ _ _ Hlen Hn Hn')).
Qed.

(** *** Objects in enumeration order *)

Lemma ordered_snoc (l : list string) (k : string) :
  ForallOrdPairs key_before l ->
  Forall (fun a => key_before a k) l ->
  ForallOrdPairs key_before (l ++ [k]).
Proof.
  induction 1 as [| a l Ha _ IH]; intros Hk; simpl.
  - constructor; constructor.
  - inversion Hk as [| ? ? Hak Hk']; subst. constructor.
    + apply Forall_app. split; [exact Ha | constructor; [exact Hak | constructor]].
    + exact (IH Hk').
Qed.

Lemma ordered_before (l1 l2 : list string) (k : string) :
  ForallOrdPairs key_before (l1 ++ k :: l2) -> Forall (fun a => key_before a k) l1.
Proof.
  induction l1 as [| a l1 IH]; simpl; intros H; [constructor |].
  inversion H as [| ? ? Ha H']; subst. constructor.
  - apply Forall_app in Ha. destruct Ha as [_ Ha]. inversion Ha. assumption.
  - exact (IH H').
Qed.

Lemma insert_index_ordered (i : nat) (k : string) (v : jsval) (m : list (string * jsval)) :
  array_index k = Some i ->
  ~ In k (keys m) ->
  ForallOrdPairs key_before (keys m) ->
  ForallOrdPairs key_before (keys (insert_index i k v m)).
Proof.
  intros Hk. induction m as [| [k1 v1] m IH]; intros Hfresh Hord.
  - simpl. constructor; constructor.
  - cbn [keys map fst] in Hfresh, Hord. fold (keys m) in Hfresh, Hord.
    inversion Hord as [| ? ? Hk1 Hord']; subst.
    assert (Hne : k <> k1) by (intros ->; apply Hfresh; left; reflexivity).
    assert (Hfresh' : ~ In k (keys m)) by (intros H; apply Hfresh; right; exact H).
    assert (Hfront : ForallOrdPairs key_before (k :: k1 :: keys m) ->
                     ForallOrdPairs key_before (keys ((k, v) :: (k1, v1) :: m)))
      by (intros H; exact H).
    cbn [insert_index].
    destruct (array_index k1) as [j |] eqn:Hk1i.
    + destruct (Nat.ltb_spec j i) as [Hlt | Hge].
      * cbn [keys map fst]. fold (keys (insert_index i k v m)). constructor.
        -- apply Forall_forall. intros k' Hin. apply keys_insert_index in Hin.
           destruct Hin as [-> | Hin].
           ++ split; [congruence |]. rewrite Hk1i, Hk. exact Hlt.
           ++ rewrite Forall_forall in Hk1. exact (Hk1 k' Hin).
        -- exact (IH Hfresh' Hord').
      * apply Hfront. constructor; [| exact Hord].
        assert (Hij : i < j).
        { destruct (Nat.eq_dec i j) as [-> | Hneq]; [| lia].
          exfalso. apply Hne. exact (array_index_inj k k1 j Hk Hk1i). }
        constructor.
        -- split; [exact Hne |]. rewrite Hk, Hk1i. exact Hij.
        -- apply Forall_forall. intros k2 Hin. rewrite Forall_forall in Hk1.
           destruct (Hk1 k2 Hin) as [_ Hord2]. rewrite Hk1i in Hord2.
           split; [intros ->; exact (Hfresh' Hin) |].
           rewrite Hk. destruct (array_index k2) as [j2 |]; [lia | exact I].
    + apply Hfront. constructor; [| exact Hord].
      constructor.
      * split; [exact Hne |]. rewrite Hk, Hk1i. exact I.
      * apply Forall_forall. intros k2 Hin. rewrite Forall_forall in Hk1.
        destruct (Hk1 k2 Hin) as [_ Hord2]. rewrite Hk1i in Hord2.
        split; [intros ->; exact (Hfresh' Hin) |].
        rewrite Hk. destruct (array_index k2) as [j2 |]; [contradiction | exact I].
Qed.

(** [obj[k] = v] keeps the enumeration order. *)
Lemma set_canonical (m : list (string * jsval)) (k : string) (v : jsval) :
  canonical m -> canonical (set m k v).
Proof.
  intros [Hord Hproto]. unfold set.
  destruct (String.eqb_spec k "__proto__") as [_ | Hk]; [split; assumption |].
  destruct (has_key k m) eqn:Hhas.
  - unfold canonical. rewrite keys_replace_member. split; assumption.
  - assert (Hfresh : ~ In k (keys m)).
    { intros Hin. apply has_key_In in Hin. congruence. }
    destruct (array_index k) as [i |] eqn:Hidx.
    + split.
      * apply insert_index_ordered; assumption.
      * intros Hin. apply keys_insert_index in Hin.
        destruct Hin as [Heq | Hin]; [congruence | exact (Hproto Hin)].
    + unfold canonical, keys. rewrite map_app. cbn [map fst]. fold (keys m). split.
      * apply ordered_snoc; [exact Hord |].
        apply Forall_forall. intros a Ha. split; [intros ->; exact (Hfresh Ha) |].
        rewrite Hidx. destruct (array_index a); exact I.
      * rewrite in_app_iff. intros [Hin | [Heq | []]]; [exact (Hproto Hin) | congruence].
Qed.

Lemma insert_index_append (i : nat) (k : string) (v : jsval) (m : list (string * jsval)) :
  Forall (fun a => exists j, array_index a = Some j /\ j < i) (keys m) ->
  insert_index i k v m = (m ++ [(k, v)])%list.
Proof.
  induction m as [| [k1 v1] m IH]; intros H; [reflexivity |].
  cbn [keys map fst] in H. fold (keys m) in H.
  inversion H as [| ? ? (j & Hj & Hlt) H']; subst.
  cbn [insert_index]. rewrite Hj.
  destruct (Nat.ltb_spec j i) as [_ | Hge]; [| lia].
  rewrite (IH H'). reflexivity.
Qed.

(** A key that comes after all keys of an object is added at its end. *)
Lemma set_append (m : list (string * jsval)) (k : string) (v : jsval) :
  k <> "__proto__" ->
  Forall (fun a => key_before a k) (keys m) ->
  set m k v = (m ++ [(k, v)])%list.
Proof.
  intros Hk Hbefore. unfold set.
  destruct (String.eqb_spec k "__proto__") as [Heq | _]; [contradiction |].
  rewrite Forall_forall in Hbefore.
  assert (Hhas : has_key k m = false).
  { destruct (has_key k m) eqn:Hhas; [| reflexivity].
    apply has_key_In in Hhas. destruct (Hbefore k Hhas) as [Hne _]. congruence. }
  rewrite Hhas. destruct (array_index k) as [i |] eqn:Hidx; [| reflexivity].
  apply insert_index_append. apply Forall_forall. intros a Ha.
  destruct (Hbefore a Ha) as [_ Hord]. rewrite Hidx in Hord.
  destruct (array_index a) as [j |]; [| contradiction].
  exists j. split; [reflexivity | exact Hord].
Qed.

(** Copying a cleaned object gives the object back. *)
Lemma copy_members_canonical (l2 : list (string * jsval)) :
  forall l1,
    canonical (l1 ++ l2) ->
    Forall (fun kv => existsb (String.eqb (fst kv)) keysToRemove = false
                      /\ clean_value (snd kv) = snd kv) l2 ->
    copy_members l2 l1 = (l1 ++ l2)%list.
Proof.
  induction l2 as [| [k v] l2 IH]; intros l1 Hcanon Hvals.
  - rewrite app_nil_r. reflexivity.
  - inversion Hvals as [| ? ? [Hrem Hv] Hvals']; subst. cbn [fst snd] in Hrem, Hv.
    cbn [copy_members]. rewrite Hrem, Hv.
    destruct Hcanon as [Hord Hproto].
    unfold keys in Hord, Hproto. rewrite map_app in Hord, Hproto.
    cbn [map fst] in Hord, Hproto.
    rewrite set_append.
    + rewrite IH; [rewrite <- app_assoc; reflexivity | | exact Hvals'].
      rewrite <- app_assoc. split.
      * unfold keys. rewrite map_app. exact Hord.
      * unfold keys. rewrite map_app. exact Hproto.
    + intros ->. apply Hproto. apply in_app_iff. right. left. reflexivity.
    + exact (ordered_before _ _ _ Hord).
Qed.

(** The state of the copying loops: an object in enumeration order without
    a removed key, whose values the cleaner does not change. *)
Lemma set_cleaned (acc : list (string * jsval)) (key : string) (v : jsval) :
  existsb (String.eqb key) keysToRemove = false ->
  clean_value v = v ->
  canonical acc
  /\ Forall (fun kv => existsb (String.eqb (fst kv)) keysToRemove = false
                       /\ clean_value (snd kv) = snd kv) acc ->
  canonical (set acc key v)
  /\ Forall (fun kv => existsb (String.eqb (fst kv)) keysToRemove = false
                       /\ clean_value (snd kv) = snd kv) (set acc key v).
Proof.
  intros Hkey Hv [Hcanon Hvals]. split; [apply set_canonical; exact Hcanon |].
  apply Forall_forall. intros [k' x] Hin. cbn [fst snd].
  apply set_In in Hin. destruct Hin as [[-> ->] | Hin]; [split; assumption |].
  rewrite Forall_forall in Hvals. exact (Hvals _ Hin).
Qed.

Lemma clean_value_object (v : jsval) :
  match v with JArr _ | JObj _ => True | _ => False end ->
  exists m, cleanWordPressSchemaProperties v = JObj m.
Proof.
  destruct v as [| | b | n | s | l | m]; try contradiction; intros _.
  - rewrite clean_array. eexists. reflexivity.
  - rewrite clean_object. eexists. reflexivity.
Qed.

(** X17 (cleanWordPressSchemaProperties): cleaning twice is cleaning
    once. *)
Theorem cleanWordPressSchemaProperties_idempotent (v : jsval) :
  cleanWordPressSchemaProperties (cleanWordPressSchemaProperties v)
  = cleanWordPressSchemaProperties v.
Proof.
  assert (Hrebuild : forall cl,
             canonical cl
             /\ Forall (fun kv => existsb (String.eqb (fst kv)) keysToRemove = false
                                  /\ clean_value (snd kv) = snd kv) cl ->
             cleanWordPressSchemaProperties (JObj cl) = JObj cl).
  { intros cl [Hcanon Hvals]. rewrite clean_object. f_equal.
    apply (copy_members_canonical cl []); assumption. }
  assert (Hempty : canonical []
                   /\ Forall (fun kv => existsb (String.eqb (fst kv)) keysToRemove = false
                                        /\ clean_value (snd kv) = snd kv) []).
  { split; [split; [constructor | intros []] | constructor]. }
  assert (Hboth : cleanWordPressSchemaProperties (cleanWordPressSchemaProperties v)
                  = cleanWordPressSchemaProperties v
                  /\ clean_value (clean_value v) = clean_value v).
  { induction v as [| | b | n | s | l IH | m IH] using jsval_induction;
      try (split; reflexivity).
    - split.
      + rewrite clean_array. apply Hrebuild.
        assert (Hloop : forall i acc,
                   canonical acc
                   /\ Forall (fun kv => existsb (String.eqb (fst kv)) keysToRemove = false
                                        /\ clean_value (snd kv) = snd kv) acc ->
                   canonical (copy_elements i l acc)
                   /\ Forall (fun kv => existsb (String.eqb (fst kv)) keysToRemove = false
                                        /\ clean_value (snd kv) = snd kv)
                        (copy_elements i l acc)).
        { induction l as [| value l IHl]; intros i acc Hacc; [exact Hacc |].
          inversion IH as [| ? ? [_ Hvalue] IH']; subst.
          cbn [copy_elements]. apply (IHl IH').
          apply set_cleaned; [apply of_nat_not_removed | exact Hvalue | exact Hacc]. }
        apply Hloop. exact Hempty.
      + cbn [clean_value]. f_equal. rewrite map_map. apply map_ext_in.
        intros item Hin. rewrite Forall_forall in IH. destruct (IH item Hin) as [Hitem _].
        destruct item as [| | b | n | s | l' | m']; try reflexivity.
        * destruct (clean_value_object (JArr l') I) as (cm & Hcm).
          cbn [clean_item]. rewrite Hcm. cbn [clean_item]. rewrite <- Hcm. exact Hitem.
        * destruct (clean_value_object (JObj m') I) as (cm & Hcm).
          cbn [clean_item]. rewrite Hcm. cbn [clean_item]. rewrite <- Hcm. exact Hitem.
    - assert (Hobj : cleanWordPressSchemaProperties (cleanWordPressSchemaProperties (JObj m))
                     = cleanWordPressSchemaProperties (JObj m)).
      { rewrite clean_object. apply Hrebuild.
        assert (Hloop : forall acc,
                   canonical acc
                   /\ Forall (fun kv => existsb (String.eqb (fst kv)) keysToRemove = false
                                        /\ clean_value (snd kv) = snd kv) acc ->
                   canonical (copy_members m acc)
                   /\ Forall (fun kv => existsb (String.eqb (fst kv)) keysToRemove = false
                                        /\ clean_value (snd kv) = snd kv)
                        (copy_members m acc)).
        { induction m as [| [key value] m IHm]; intros acc Hacc; [exact Hacc |].
          inversion IH as [| ? ? [_ Hvalue] IH']; subst. cbn [snd] in Hvalue.
          cbn [copy_members].
          destruct (existsb (String.eqb key) keysToRemove) eqn:Hrem.
          - apply (IHm IH'). exact Hacc.
          - apply (IHm IH'). apply set_cleaned; [exact Hrem | exact Hvalue | exact Hacc]. }
        apply Hloop. exact Hempty. }
      split; [exact Hobj |].
      destruct (clean_value_object (JObj m) I) as (cm & Hcm).
      cbn [clean_value]. rewrite Hcm. cbn [clean_value]. rewrite <- Hcm. exact Hobj. }
  exact (proj1 Hboth).
Qed.

Lemma copy_members_member (m : list (string * jsval)) :
  NoDup (keys m) ->
  forall acc k,
    k <> "__proto__" ->
    member (copy_members m acc) k
    = match assoc k m with
      | Some x => if existsb (String.eqb k) keysToRemove then member acc k
                  else clean_value x
      | None => member acc k
      end.
Proof.
  induction m as [| [key value] m IH]; intros Hnd acc k Hk; [reflexivity |].
  cbn [keys map fst] in Hnd. fold (keys m) in Hnd.
  inversion Hnd as [| ? ? Hfresh Hnd']; subst.
  cbn [copy_members assoc].
  destruct (String.eqb_spec k key) as [-> | Hne].
  - assert (Hnone : assoc key m = None).
    { destruct (assoc key m) as [x |] eqn:Hx; [| reflexivity].
      exfalso. apply Hfresh. apply has_key_In. unfold has_key. rewrite Hx. reflexivity. }
    destruct (existsb (String.eqb key) keysToRemove).
    + rewrite (IH Hnd' acc key Hk), Hnone. reflexivity.
    + rewrite (IH Hnd' _ key Hk), Hnone.
      rewrite (member_set key key _ acc Hk), String.eqb_refl. reflexivity.
  - destruct (existsb (String.eqb key) keysToRemove).
    + exact (IH Hnd' acc k Hk).
    + rewrite (IH Hnd' _ k Hk).
      rewrite (member_set_other acc key k _ (fun H => Hne (eq_sym H))). reflexivity.
Qed.

(** X18 (cleanWordPressSchemaProperties): the cleaned object has, under
    every key of the object other than [context] and [readonly], the value
    of that key: cleaned when it is an object, with its elements that are
    objects or arrays cleaned when it is an array, and unchanged
    otherwise. *)
Theorem cleanWordPressSchemaProperties_keeps_members (m : list (string * jsval)) :
  NoDup (keys m) ->
  exists cleaned,
    cleanWordPressSchemaProperties (JObj m) = JObj cleaned
    /\ forall k,
         k <> "__proto__" ->
         member cleaned k
         = if existsb (String.eqb k) keysToRemove then JUndefined
           else match member m k with
                | JObj _ => cleanWordPressSchemaProperties (member m k)
                | JArr items =>
                    JArr (map (fun item => match item with
                                           | JArr _ | JObj _ =>
                                               cleanWordPressSchemaProperties item
                                           | _ => item
                                           end) items)
                | x => x
                end.
Proof.
  intros Hnd. exists (copy_members m []). split; [apply clean_object |].
  intros k Hk. rewrite (copy_members_member m Hnd [] k Hk). unfold member.
  destruct (assoc k m) as [x |]; cbn [assoc].
  - destruct (existsb (String.eqb k) keysToRemove); [reflexivity |].
    destruct x; reflexivity.
  - destruct (existsb (String.eqb k) keysToRemove); reflexivity.
Qed.

Lemma cleanWordPressSchemaProperties_keeps_members_witness :
  exists cleaned,
    cleanWordPressSchemaProperties
      (JObj [("type", JStr "object"); ("context", JArr [JStr "view"]);
             ("properties", JObj [("raw", JObj [("readonly", JBool true)])])])
    = JObj cleaned
    /\ forall k,
         k <> "__proto__" ->
         member cleaned k
         = if existsb (String.eqb k) keysToRemove then JUndefined
           else match member [("type", JStr "object"); ("context", JArr [JStr "view"]);
                              ("properties", JObj [("raw", JObj [("readonly", JBool true)])])]
                        k with
                | JObj _ =>
                    cleanWordPressSchemaProperties
                      (member [("type", JStr "object"); ("context", JArr [JStr "view"]);
                               ("properties",
                                JObj [("raw", JObj [("readonly", JBool true)])])] k)
                | JArr items =>
                    JArr (map (fun item => match item with
                                           | JArr _ | JObj _ =>
                                               cleanWordPressSchemaProperties item
                                           | _ => item
                                           end) items)
                | x => x
                end.
Proof.
  apply cleanWordPressSchemaProperties_keeps_members.
  repeat (constructor; [simpl; intros H; repeat (destruct H as [H | H]; [discriminate H |]);
                        exact H |]).
  constructor.
Defined.

(** ** Sequence numbers in a collection *)

Lemma foldM_ext_in {A S : Type} (f g : S -> A -> result S) (l : list A) :
  (forall s a, In a l -> f s a = g s a) ->
  forall s, foldM f l s = foldM g l s.
Proof.
  induction l as [| a l IH]; intros H s; [reflexivity |].
  cbn [foldM]. rewrite (H s a (or_introl eq_refl)).
  destruct (g s a) as [s1 | |]; cbn [bind]; try reflexivity.
  apply IH. intros s' a' Hin. apply H. right. exact Hin.
Qed.

Lemma isItemARequest_object (item : jsval) :
  isItemARequest item = Ok true -> exists m, item = JObj m.
Proof.
  destruct item as [| | b | n | s | l | m]; try discriminate. intros _. exists m. reflexivity.
Qed.

Lemma get_put_other (item : jsval) (k k' : string) (v : jsval) :
  k <> k' -> get (put item k v) k' = get item k'.
Proof.
  intros Hne. destruct item as [| | b | n | s | l | m]; try reflexivity.
  cbn [put get]. f_equal. exact (member_set_other m k k' v Hne).
Qed.

(** The nested items of an item are less deep than the item. *)
Lemma depth_nested (x nested len : jsval) :
  get x "items" = Ok nested ->
  get_opt nested "length" = Ok len ->
  truthy len = true ->
  depth nested < depth x.
Proof.
  intros Hget Hlen Hlt.
  assert (Hundef : nested <> JUndefined).
  { intros ->. cbn in Hlen. inversion Hlen; subst. cbn in Hlt. discriminate Hlt. }
  destruct x as [| | b | n | s | l | m]; try discriminate Hget.
  - inversion Hget; subst. contradiction.
  - inversion Hget; subst. contradiction.
  - cbn [get] in Hget. change (String.eqb "items" "length") with false in Hget.
    change (array_index "items") with (@None nat) in Hget. cbn iota in Hget.
    inversion Hget; subst. contradiction.
  - cbn [get] in Hget. change (String.eqb "items" "length") with false in Hget.
    change (array_index "items") with (@None nat) in Hget. cbn iota in Hget.
    inversion Hget; subst. contradiction.
  - cbn [get] in Hget. inversion Hget as [Hn]; clear Hget.
    destruct (assoc "items" m) as [y |] eqn:Hy.
    + subst y. apply assoc_In in Hy. exact (depth_member _ _ _ Hy).
    + subst nested. contradiction.
Qed.

Lemma hydrate_item_ext (self self' : jsval -> result jsval) (index : Z) (item : jsval) :
  (forall nested, depth nested < depth item -> self nested = self' nested) ->
  hydrate_item self index item = hydrate_item self' index item.
Proof.
  intros Hagree. unfold hydrate_item.
  destruct (isItemARequest item) as [isRequest | |] eqn:Hreq; cbn [bind]; try reflexivity.
  destruct (if isRequest then get item "seq" else Ok JUndefined) as [seq | |];
    cbn [bind]; try reflexivity.
  set (numbered := isRequest && negb (truthy seq)).
  assert (Hitems : get (if numbered then put item "seq" (JNum index) else item) "items"
                   = get item "items").
  { destruct numbered; [| reflexivity]. apply get_put_other. discriminate. }
  rewrite Hitems.
  destruct (get item "items") as [nested | |] eqn:Hnested; cbn [bind]; try reflexivity.
  destruct (get_opt nested "length") as [len | |] eqn:Hlen; cbn [bind]; try reflexivity.
  destruct (truthy len) eqn:Hlt; [| reflexivity].
  rewrite (Hagree nested (depth_nested _ _ _ Hnested Hlen Hlt)). reflexivity.
Qed.

Lemma hydrateSeq_body_ext (self self' : jsval -> result jsval) (items : jsval) :
  (forall nested, depth nested < depth items -> self nested = self' nested) ->
  hydrateSeq_body self items = hydrateSeq_body self' items.
Proof.
  intros Hagree. unfold hydrateSeq_body. f_equal.
  apply foldM_ext_in. intros st entry Hin.
  rewrite (hydrate_item_ext self self' (snd st) (snd entry)); [reflexivity |].
  intros nested Hd. apply Hagree.
  pose proof (each_entries_depth items entry Hin). lia.
Qed.

(** Any budget above the depth of the items gives the same result. *)
Lemma hydrateSeq_rec_budget (fuel : nat) :
  forall items, depth items < fuel -> hydrateSeq_rec fuel items = hydrateSeq items.
Proof.
  unfold hydrateSeq.
  induction fuel as [fuel IH] using lt_wf_ind. intros items Hd.
  destruct fuel as [| fuel]; [lia |].
  cbn [hydrateSeq_rec]. apply hydrateSeq_body_ext.
  intros nested Hn.
  rewrite (IH fuel ltac:(lia) nested ltac:(lia)).
  destruct (depth items) as [| d] eqn:Hdi; [lia |].
  rewrite (IH (S d) ltac:(lia) nested ltac:(lia)). reflexivity.
Qed.

Lemma update_entry_array (done todo : list jsval) (x x' : jsval) :
  update_entry (JArr (done ++ x :: todo)) (KIdx (List.length done)) x'
  = JArr (done ++ x' :: todo).
Proof.
  cbn [update_entry]. f_equal.
  rewrite firstn_app, firstn_all, Nat.sub_diag, firstn_O, app_nil_r.
  rewrite skipn_app.
  replace (S (List.length done) - List.length done) with 1 by lia.
  rewrite (skipn_all2 done) by lia. reflexivity.
Qed.

(** The loop of [hydrateSeq] over a list. *)
Lemma hydrateSeq_array_loop (self : jsval -> result jsval) (l : list jsval)
      (todo : list jsval) :
  forall (done done' : list jsval) (index : Z) (r : jsval) (index' : Z),
    l = (done ++ todo)%list ->
    List.length done' = List.length done ->
    foldM (fun (st : jsval * Z) (entry : jskey * jsval) =>
             r <- hydrate_item self (snd st) (snd entry) ;;
             Ok (update_entry (fst st) (fst entry) (fst r), snd r))
          (map (fun i => (KIdx i, at_index (JArr l) i))
               (seq (List.length done) (List.length todo)))
          (JArr (done' ++ todo), index)
    = Ok (r, index') ->
    exists todo', r = JArr (done' ++ todo')
                  /\ hydrated_items self index todo todo' index'.
Proof.
  induction todo as [| x todo IH]; intros done done' index r index' Hl Hlen Hrun.
  - cbn in Hrun. inversion Hrun; subst. exists []. split; [reflexivity | constructor].
  - cbn [List.length seq map foldM] in Hrun.
    assert (Hx : at_index (JArr l) (List.length done) = x).
    { cbn [at_index]. rewrite Hl, app_nth2 by lia. rewrite Nat.sub_diag. reflexivity. }
    rewrite Hx in Hrun. cbn [fst snd] in Hrun.
    destruct (hydrate_item self index x) as [[x' index1] | |] eqn:Hitem;
      cbn [bind] in Hrun; try discriminate Hrun.
    cbn [fst snd] in Hrun. rewrite <- Hlen, update_entry_array in Hrun.
    destruct (IH (done ++ [x])%list (done' ++ [x'])%list index1 r index') as (todo' & Hr & Hrest).
    + rewrite <- app_assoc. exact Hl.
    + rewrite !length_app. simpl. lia.
    + rewrite length_app. cbn [List.length]. rewrite Nat.add_1_r.
      rewrite <- app_assoc. cbn [app]. rewrite <- Hlen. exact Hrun.
    + exists (x' :: todo'). rewrite <- app_assoc in Hr. split; [exact Hr |].
      econstructor; [exact Hitem | exact Hrest].
Qed.

Lemma isItemARequest_not_null (x : jsval) (b : bool) (k : string) :
  isItemARequest x = Ok b -> get x k = Ok (prop x k).
Proof.
  intros H. apply get_prop; intros ->; discriminate H.
Qed.

Lemma get_put_same (m : list (string * jsval)) (k : string) (v : jsval) :
  k <> "__proto__" -> get (put (JObj m) k v) k = Ok v.
Proof.
  intros Hk. cbn [put get]. f_equal.
  change (member (set m k v) k = v). rewrite (member_set k k v m Hk), String.eqb_refl.
  reflexivity.
Qed.

(** A request has nothing to descend into. *)
Lemma request_items_falsy (x nested len : jsval) :
  isItemARequest x = Ok true ->
  get x "items" = Ok nested -> get_opt nested "length" = Ok len -> truthy len = false.
Proof.
  intros Hreq Hnested Hlen.
  destruct x as [| | b | n | s | l | m]; try discriminate Hreq.
  cbn [isItemARequest] in Hreq.
  destruct (has_key "request" m); [| discriminate Hreq].
  destruct (get (JObj m) "type") as [t | |]; cbn [bind] in Hreq; try discriminate Hreq.
  destruct (is_str t "http-request" || is_str t "graphql-request"); [| discriminate Hreq].
  rewrite Hnested in Hreq. cbn [bind] in Hreq. inversion Hreq as [Hfalsy].
  apply negb_true_iff in Hfalsy.
  destruct nested as [| | [|] | n | s | l | m']; try discriminate Hfalsy;
    cbn in Hlen; inversion Hlen; subst; try reflexivity.
  destruct s; [reflexivity | discriminate Hfalsy].
Qed.

(** What the loop does to one item. *)
Lemma hydrate_item_inversion (self : jsval -> result jsval) (index : Z)
      (x x' : jsval) (index1 : Z) :
  hydrate_item self index x = Ok (x', index1) ->
  index1 = (if lacks_seq x then index + 1 else index)%Z
  /\ (lacks_seq x = true -> x' = put x "seq" (JNum index) /\ exists m, x = JObj m)
  /\ (lacks_seq x = false ->
      exists nested len,
        get x "items" = Ok nested
        /\ get_opt nested "length" = Ok len
        /\ if truthy len
           then exists nested', self nested = Ok nested' /\ x' = put x "items" nested'
           else x' = x).
Proof.
  unfold hydrate_item, lacks_seq. intros H.
  destruct (isItemARequest x) as [isRequest | |] eqn:Hreq; cbn [bind] in H;
    try discriminate H.
  destruct isRequest.
  - rewrite (isItemARequest_not_null x true "seq" Hreq) in H. cbn [bind andb] in H.
    destruct (truthy (prop x "seq")) eqn:Hseq; cbn [negb] in H |- *.
    + destruct (get x "items") as [nested | |] eqn:Hnested; cbn [bind] in H;
        try discriminate H.
      destruct (get_opt nested "length") as [len | |] eqn:Hlen; cbn [bind] in H;
        try discriminate H.
      pose proof (request_items_falsy x nested len Hreq Hnested Hlen) as Hfalsy.
      rewrite Hfalsy in H.
      inversion H; subst. split; [reflexivity | split; [discriminate |]].
      intros _. exists nested, len. rewrite Hfalsy. auto.
    + destruct (isItemARequest_object x Hreq) as (m & ->).
      assert (Hsame : get (put (JObj m) "seq" (JNum index)) "items" = get (JObj m) "items")
        by (apply get_put_other; discriminate).
      rewrite Hsame in H.
      destruct (get (JObj m) "items") as [nested | |] eqn:Hnested; cbn [bind] in H;
        try discriminate H.
      destruct (get_opt nested "length") as [len | |] eqn:Hlen; cbn [bind] in H;
        try discriminate H.
      rewrite (request_items_falsy (JObj m) nested len Hreq Hnested Hlen) in H.
      inversion H; subst. split; [reflexivity | split; [| discriminate]].
      intros _. split; [reflexivity | exists m; reflexivity].
  - cbn [bind andb] in H.
    destruct (get x "items") as [nested | |] eqn:Hnested; cbn [bind] in H;
      try discriminate H.
    destruct (get_opt nested "length") as [len | |] eqn:Hlen; cbn [bind] in H;
      try discriminate H.
    split; [| split; [discriminate |]].
    + destruct (truthy len); [| inversion H; reflexivity].
      destruct (self nested); cbn [bind] in H; try discriminate H.
      inversion H; reflexivity.
    + intros _. exists nested, len. split; [reflexivity | split; [exact Hlen |]].
      destruct (truthy len); [| inversion H; reflexivity].
      destruct (self nested) as [nested' | |]; cbn [bind] in H; try discriminate H.
      inversion H; subst. exists nested'. split; reflexivity.
Qed.

Lemma count_lacking_cons (x : jsval) (l : list jsval) :
  count_lacking (x :: l) = ((if lacks_seq x then 1 else 0) + count_lacking l)%Z.
Proof.
  unfold count_lacking. cbn [filter]. destruct (lacks_seq x); cbn [List.length]; lia.
Qed.

(** The item at a position of the list, and the counter it is given. *)
Lemma hydrated_items_nth (self : jsval -> result jsval) (index index' : Z)
      (l l' : list jsval) :
  hydrated_items self index l l' index' ->
  List.length l' = List.length l
  /\ forall i x,
       nth_error l i = Some x ->
       exists x' j,
         nth_error l' i = Some x'
         /\ hydrate_item self (index + count_lacking (firstn i l)) x = Ok (x', j).
Proof.
  induction 1 as [index | index index1 index2 y y' l l' Hitem _ [IHlen IH]].
  - split; [reflexivity |]. intros [| i] x H; discriminate H.
  - split; [simpl; rewrite IHlen; reflexivity |].
    intros [| i] x Hx.
    + cbn in Hx. inversion Hx; subst. exists y', index1. split; [reflexivity |].
      cbn [firstn]. unfold count_lacking. cbn. rewrite Z.add_0_r. exact Hitem.
    + cbn [nth_error] in Hx. destruct (IH i x Hx) as (x' & j & Hx' & Hrun).
      exists x', j. split; [exact Hx' |].
      cbn [firstn]. rewrite count_lacking_cons.
      destruct (hydrate_item_inversion _ _ _ _ _ Hitem) as [Hindex _].
      replace (index + ((if lacks_seq y then 1 else 0) + count_lacking (firstn i l)))%Z
        with (index1 + count_lacking (firstn i l))%Z; [exact Hrun |].
      rewrite Hindex. destruct (lacks_seq y); lia.
Qed.

Lemma replace_member_same (k : string) (v : jsval) (m : list (string * jsval)) :
  assoc k m = Some v -> replace_member k v m = m.
Proof.
  induction m as [| [k1 v1] m IH]; [reflexivity |].
  cbn [assoc replace_member]. destruct (String.eqb_spec k k1) as [-> | _].
  - intros H. inversion H. reflexivity.
  - intros H. rewrite (IH H). reflexivity.
Qed.

(** The collection and the list of its items, before and after. *)
Lemma hydrateSeqInCollection_inversion (c c' : jsval) (l : list jsval) :
  get c "items" = Ok (JArr l) ->
  hydrateSeqInCollection c = Ok c' ->
  exists m l' index',
    c = JObj m
    /\ assoc "items" m = Some (JArr l)
    /\ c' = JObj (replace_member "items" (JArr l') m)
    /\ hydrateSeq (JArr l) = Ok (JArr l')
    /\ hydrated_items (hydrateSeq_rec (depth (JArr l))) 1 l l' index'.
Proof.
  intros Hitems Hrun.
  assert (Hobj : exists m, c = JObj m /\ assoc "items" m = Some (JArr l)).
  { destruct c as [| | b | n | s | l0 | m]; try discriminate Hitems.
    exists m. split; [reflexivity |]. cbn [get] in Hitems.
    destruct (assoc "items" m); inversion Hitems; reflexivity. }
  destruct Hobj as (m & -> & Hassoc).
  unfold hydrateSeqInCollection in Hrun. rewrite Hitems in Hrun. cbn [bind] in Hrun.
  destruct (hydrateSeq (JArr l)) as [items' | |] eqn:Hhyd; cbn [bind] in Hrun;
    try discriminate Hrun.
  unfold has_key in Hrun. rewrite Hassoc in Hrun. inversion Hrun; subst c'; clear Hrun.
  pose proof Hhyd as Hloop.
  unfold hydrateSeq in Hloop. cbn [hydrateSeq_rec] in Hloop.
  unfold hydrateSeq_body in Hloop.
  destruct (foldM _ (each_entries (JArr l)) (JArr l, 1%Z)) as [[r index'] | |] eqn:Hfold;
    cbn [bind] in Hloop; try discriminate Hloop.
  cbn [fst] in Hloop. inversion Hloop; subst r; clear Hloop.
  change (each_entries (JArr l))
    with (map (fun i => (KIdx i, at_index (JArr l) i)) (seq 0 (List.length l))) in Hfold.
  destruct (hydrateSeq_array_loop _ l l [] [] 1%Z items' index' eq_refl eq_refl Hfold)
    as (l' & -> & Hsteps).
  exists m, l', index'. cbn [app] in Hhyd. auto.
Qed.

(** X19 (hydrateSeqInCollection, isItemARequest): in a collection whose
    items are a list, the requests without a sequence number are numbered
    1, 2, 3 and so on in the order of the list; every other item keeps its
    [seq], and every item keeps its members other than [seq] and [items].
    The collection keeps its other members and the length of the list. *)
Theorem hydrateSeqInCollection_numbers (c c' : jsval) (l : list jsval) :
  get c "items" = Ok (JArr l) ->
  hydrateSeqInCollection c = Ok c' ->
  exists l',
    get c' "items" = Ok (JArr l')
    /\ (forall k, k <> "items" -> get c' k = get c k)
    /\ List.length l' = List.length l
    /\ forall i x,
         nth_error l i = Some x ->
         exists x',
           nth_error l' i = Some x'
           /\ get x' "seq"
              = (if lacks_seq x then Ok (JNum (1 + count_lacking (firstn i l)))
                 else get x "seq")
           /\ forall k, k <> "seq" -> k <> "items" -> get x' k = get x k.
Proof.
  intros Hitems Hrun.
  destruct (hydrateSeqInCollection_inversion c c' l Hitems Hrun)
    as (m & l' & index' & -> & Hassoc & -> & _ & Hsteps).
  destruct (hydrated_items_nth _ _ _ _ _ Hsteps) as [Hlen Hnth].
  exists l'. split; [| split; [| split; [exact Hlen |]]].
  - cbn [get]. rewrite assoc_replace_member. unfold has_key. rewrite Hassoc.
    rewrite String.eqb_refl. reflexivity.
  - intros k Hk. cbn [get]. rewrite assoc_replace_member.
    destruct (String.eqb_spec "items" k) as [Heq | _]; [congruence | reflexivity].
  - intros i x Hx. destruct (Hnth i x Hx) as (x' & j & Hx' & Hitem).
    exists x'. split; [exact Hx' |].
    destruct (hydrate_item_inversion _ _ _ _ _ Hitem) as (_ & Hnum & Hother).
    destruct (lacks_seq x) eqn:Hlacks.
    + destruct (Hnum eq_refl) as [-> (mx & ->)]. split.
      * apply get_put_same. discriminate.
      * intros k Hk _. apply get_put_other. congruence.
    + destruct (Hother eq_refl) as (nested & len & Hnested & Hlength & Hcase).
      destruct (truthy len).
      * destruct Hcase as (nested' & _ & ->). split.
        -- apply get_put_other. discriminate.
        -- intros k _ Hk. apply get_put_other. congruence.
      * subst x'. split; [reflexivity | intros; reflexivity].
Qed.

Lemma hydrateSeqInCollection_numbers_witness :
  exists c' l',
    hydrateSeqInCollection sample_collection = Ok c'
    /\ get c' "items" = Ok (JArr l')
    /\ (forall k, k <> "items" -> get c' k = get sample_collection k)
    /\ List.length l' = List.length sample_items
    /\ forall i x,
         nth_error sample_items i = Some x ->
         exists x',
           nth_error l' i = Some x'
           /\ get x' "seq"
              = (if lacks_seq x
                 then Ok (JNum (1 + count_lacking (firstn i sample_items)))
                 else get x "seq")
           /\ forall k, k <> "seq" -> k <> "items" -> get x' k = get x k.
Proof.
  assert (Hrun : exists c', hydrateSeqInCollection sample_collection = Ok c')
    by (eexists; vm_compute; reflexivity).
  destruct Hrun as (c' & Hrun).
  destruct (hydrateSeqInCollection_numbers sample_collection c' sample_items eq_refl Hrun)
    as (l' & H).
  exists c', l'. split; [exact Hrun | exact H].
Defined.

Lemma get_items_list (x : jsval) (sub : list jsval) :
  get x "items" = Ok (JArr sub) ->
  exists m, x = JObj m /\ assoc "items" m = Some (JArr sub).
Proof.
  intros Hitems. destruct x as [| | b | n | s | l0 | m]; try discriminate Hitems.
  exists m. split; [reflexivity |]. cbn [get] in Hitems.
  destruct (assoc "items" m); inversion Hitems; reflexivity.
Qed.

(** A collection whose items are [undefined] or the empty list is returned
    as it is. *)
Lemma hydrateSeqInCollection_nothing (x : jsval) :
  get x "items" = Ok JUndefined \/ get x "items" = Ok (JArr []) ->
  hydrateSeqInCollection x = Ok x.
Proof.
  intros H. unfold hydrateSeqInCollection.
  assert (Hrun : exists v, get x "items" = Ok v /\ hydrateSeq v = Ok v).
  { destruct H as [H | H]; eexists; (split; [exact H | reflexivity]). }
  destruct Hrun as (v & Hget & Hhyd). rewrite Hget. cbn [bind]. rewrite Hhyd. cbn [bind].
  destruct x as [| | b | n | s | l0 | m]; try reflexivity.
  unfold has_key. cbn [get] in Hget.
  destruct (assoc "items" m) as [y |] eqn:Hy; [| reflexivity].
  inversion Hget; subst y. rewrite (replace_member_same _ _ _ Hy). reflexivity.
Qed.

(** X20 (hydrateSeqInCollection): the numbering starts again in every
    folder: an item of the list that is not given a number, and whose own
    items are a list or missing, is left as [hydrateSeqInCollection] leaves
    it when it is called on the item itself. *)
Theorem hydrateSeqInCollection_folders (c c' : jsval) (l : list jsval) :
  get c "items" = Ok (JArr l) ->
  hydrateSeqInCollection c = Ok c' ->
  exists l',
    get c' "items" = Ok (JArr l')
    /\ forall i x x',
         nth_error l i = Some x ->
         nth_error l' i = Some x' ->
         lacks_seq x = false ->
         (get x "items" = Ok JUndefined \/ exists sub, get x "items" = Ok (JArr sub)) ->
         hydrateSeqInCollection x = Ok x'.
Proof.
  intros Hitems Hrun.
  destruct (hydrateSeqInCollection_inversion c c' l Hitems Hrun)
    as (m & l' & index' & -> & Hassoc & -> & _ & Hsteps).
  destruct (hydrated_items_nth _ _ _ _ _ Hsteps) as [Hlen Hnth].
  exists l'. split.
  - cbn [get]. rewrite assoc_replace_member. unfold has_key. rewrite Hassoc.
    rewrite String.eqb_refl. reflexivity.
  - intros i x x' Hx Hx' Hlacks Hshape.
    destruct (Hnth i x Hx) as (x'' & j & Hx'' & Hitem).
    rewrite Hx' in Hx''. inversion Hx''; subst x''; clear Hx''.
    destruct (hydrate_item_inversion _ _ _ _ _ Hitem) as (_ & _ & Hother).
    destruct (Hother Hlacks) as (nested & len & Hnested & Hlength & Hcase).
    destruct Hshape as [Hundef | (sub & Hsub)].
    + rewrite Hundef in Hnested. inversion Hnested; subst nested.
      cbn in Hlength. inversion Hlength; subst len. cbn in Hcase. subst x'.
      apply hydrateSeqInCollection_nothing. left. exact Hundef.
    + rewrite Hsub in Hnested. inversion Hnested; subst nested.
      cbn in Hlength. inversion Hlength; subst len.
      destruct sub as [| y sub].
      * cbn in Hcase. subst x'. apply hydrateSeqInCollection_nothing. right. exact Hsub.
      * assert (Hlt : truthy (JNum (Z.of_nat (List.length (y :: sub)))) = true).
        { cbn [truthy List.length]. apply negb_true_iff. apply Z.eqb_neq. lia. }
        rewrite Hlt in Hcase. destruct Hcase as (nested' & Hself & ->).
        destruct (get_items_list x _ Hsub) as (mx & -> & Hmx).
        assert (Hdepth : depth (JArr (y :: sub)) < depth (JArr l)).
        { apply assoc_In in Hmx. apply depth_member in Hmx.
          apply nth_error_In in Hx. apply depth_element in Hx. lia. }
        rewrite (hydrateSeq_rec_budget _ _ Hdepth) in Hself.
        unfold hydrateSeqInCollection. rewrite Hsub. cbn [bind]. rewrite Hself. cbn [bind].
        unfold has_key. rewrite Hmx. cbn [put]. unfold set, has_key. rewrite Hmx.
        reflexivity.
Qed.

Lemma hydrateSeqInCollection_folders_witness :
  exists c' l',
    hydrateSeqInCollection sample_collection = Ok c'
    /\ get c' "items" = Ok (JArr l')
    /\ forall i x x',
         nth_error sample_items i = Some x ->
         nth_error l' i = Some x' ->
         lacks_seq x = false ->
         (get x "items" = Ok JUndefined \/ exists sub, get x "items" = Ok (JArr sub)) ->
         hydrateSeqInCollection x = Ok x'.
Proof.
  assert (Hrun : exists c', hydrateSeqInCollection sample_collection = Ok c')
    by (eexists; vm_compute; reflexivity).
  destruct Hrun as (c' & Hrun).
  destruct (hydrateSeqInCollection_folders sample_collection c' sample_items eq_refl Hrun)
    as (l' & H).
  exists c', l'. split; [exact Hrun | exact H].
Defined.

(** ** The collection the converter builds *)

(** A list whose items the loop leaves as they are. *)
Lemma hydrateSeq_settled (self : jsval -> result jsval) (l : list jsval) :
  Forall (fun x => forall index, hydrate_item self index x = Ok (x, index)) l ->
  hydrateSeq_body self (JArr l) = Ok (JArr l).
Proof.
  intros Hl. unfold hydrateSeq_body.
  change (each_entries (JArr l))
    with (map (fun i => (KIdx i, at_index (JArr l) i)) (seq 0 (List.length l))).
  assert (Hloop : forall todo done index,
             l = (done ++ todo)%list ->
             foldM (fun (st : jsval * Z) (entry : jskey * jsval) =>
                      r <- hydrate_item self (snd st) (snd entry) ;;
                      Ok (update_entry (fst st) (fst entry) (fst r), snd r))
                   (map (fun i => (KIdx i, at_index (JArr l) i))
                        (seq (List.length done) (List.length todo)))
                   (JArr l, index)
             = Ok (JArr l, index)).
  { induction todo as [| x todo IH]; intros done index Hsplit; [reflexivity |].
    cbn [List.length seq map foldM fst snd].
    assert (Hx : at_index (JArr l) (List.length done) = x).
    { cbn [at_index]. rewrite Hsplit, app_nth2 by lia. rewrite Nat.sub_diag. reflexivity. }
    rewrite Hx.
    assert (Hin : In x l) by (rewrite Hsplit; apply in_elt).
    rewrite Forall_forall in Hl. rewrite (Hl x Hin index). cbn [bind fst snd].
    assert (Hsame : update_entry (JArr l) (KIdx (List.length done)) x = JArr l).
    { rewrite Hsplit at 1. rewrite update_entry_array, <- Hsplit. reflexivity. }
    rewrite Hsame.
    specialize (IH (done ++ [x])%list index).
    rewrite length_app, Nat.add_1_r in IH. apply IH.
    rewrite <- app_assoc. exact Hsplit. }
  pose proof (Hloop l [] 1%Z eq_refl) as Hrun. cbn [List.length] in Hrun.
  rewrite Hrun. reflexivity.
Qed.

Lemma transformItems_settled (self : jsval -> run jsval) (l : list jsval) :
  Forall (fun x => transform_item self x = Returns x) l ->
  transformItems_body self (JArr l) = Returns (JArr l).
Proof.
  intros Hl. unfold transformItems_body.
  change (each_entries (JArr l))
    with (map (fun i => (KIdx i, at_index (JArr l) i)) (seq 0 (List.length l))).
  assert (Hloop : forall todo done,
             l = (done ++ todo)%list ->
             fold_run (fun (coll : jsval) (entry : jskey * jsval) =>
                         item <-- transform_item self (snd entry) ;;
                         Returns (update_entry coll (fst entry) item))
                      (map (fun i => (KIdx i, at_index (JArr l) i))
                           (seq (List.length done) (List.length todo)))
                      (JArr l)
             = Returns (JArr l)).
  { induction todo as [| x todo IH]; intros done Hsplit; [reflexivity |].
    cbn [List.length seq map fold_run fst snd].
    assert (Hx : at_index (JArr l) (List.length done) = x).
    { cbn [at_index]. rewrite Hsplit, app_nth2 by lia. rewrite Nat.sub_diag. reflexivity. }
    rewrite Hx.
    assert (Hin : In x l) by (rewrite Hsplit; apply in_elt).
    rewrite Forall_forall in Hl. rewrite (Hl x Hin). cbn [bind_run].
    assert (Hsame : update_entry (JArr l) (KIdx (List.length done)) x = JArr l).
    { rewrite Hsplit at 1. rewrite update_entry_array, <- Hsplit. reflexivity. }
    rewrite Hsame.
    specialize (IH (done ++ [x])%list).
    rewrite length_app, Nat.add_1_r in IH. apply IH.
    rewrite <- app_assoc. exact Hsplit. }
  exact (Hloop l [] eq_refl).
Qed.

Section Built.

Variable uid_text : nat -> string.
Variable json_string : json_text -> string.

Lemma truthy_length {A : Type} (x : A) (l : list A) :
  truthy (JNum (Z.of_nat (List.length (x :: l)))) = true.
Proof. cbn [truthy List.length]. apply negb_true_iff. apply Z.eqb_neq. lia. Qed.

Lemma hydrate_request_item (self : jsval -> result jsval) (index : Z) (it : item) :
  hydrate_item self index (js_of_item uid_text json_string it)
  = Ok (js_of_item uid_text json_string it, index).
Proof. reflexivity. Qed.

Lemma hydrate_resource_folder (fuel : nat) (index : Z) (f : resource_folder) :
  hydrate_item (hydrateSeq_rec (S fuel)) index (js_of_resource_folder uid_text json_string f)
  = Ok (js_of_resource_folder uid_text json_string f, index).
Proof.
  unfold js_of_resource_folder. destruct (rf_items f) as [| it its] eqn:Hits; [reflexivity |].
  unfold hydrate_item.
  change (isItemARequest (JObj _)) with (@Ok bool false). cbn [bind andb].
  change (get (JObj _) "items") with (Ok (JArr (map (js_of_item uid_text json_string) (it :: its)))).
  cbn [bind].
  change (get_opt (JArr ?l) "length") with (Ok (JNum (Z.of_nat (List.length l)))).
  cbn [bind map]. rewrite truthy_length.
  cbn [hydrateSeq_rec].
  rewrite (hydrateSeq_settled (hydrateSeq_rec fuel)
             (js_of_item uid_text json_string it :: map (js_of_item uid_text json_string) its)).
  - reflexivity.
  - constructor; [intros i; apply hydrate_request_item |].
    apply Forall_forall. intros x Hx. apply in_map_iff in Hx. destruct Hx as (y & <- & _).
    intros i. apply hydrate_request_item.
Qed.

Lemma hydrate_namespace_folder (fuel : nat) (index : Z) (f : namespace_folder) :
  hydrate_item (hydrateSeq_rec (S (S fuel))) index
    (js_of_namespace_folder uid_text json_string f)
  = Ok (js_of_namespace_folder uid_text json_string f, index).
Proof.
  unfold js_of_namespace_folder. destruct (nf_items f) as [| rf rfs] eqn:Hrfs; [reflexivity |].
  unfold hydrate_item.
  change (isItemARequest (JObj _)) with (@Ok bool false). cbn [bind andb].
  change (get (JObj _) "items")
    with (Ok (JArr (map (js_of_resource_folder uid_text json_string) (rf :: rfs)))).
  cbn [bind].
  change (get_opt (JArr ?l) "length") with (Ok (JNum (Z.of_nat (List.length l)))).
  cbn [bind map]. rewrite truthy_length.
  change (hydrateSeq_rec (S (S fuel))) with (hydrateSeq_body (hydrateSeq_rec (S fuel))).
  rewrite (hydrateSeq_settled (hydrateSeq_rec (S fuel))
             (js_of_resource_folder uid_text json_string rf
              :: map (js_of_resource_folder uid_text json_string) rfs)).
  - reflexivity.
  - constructor; [intros i; apply hydrate_resource_folder |].
    apply Forall_forall. intros x Hx. apply in_map_iff in Hx. destruct Hx as (y & <- & _).
    intros i. apply hydrate_resource_folder.
Qed.

Lemma transform_request_item (self : jsval -> run jsval) (it : item) :
  transform_item self (js_of_item uid_text json_string it)
  = Returns (js_of_item uid_text json_string it).
Proof. reflexivity. Qed.

Lemma transform_resource_folder (fuel : nat) (f : resource_folder) :
  transform_item (transformItems_rec (S fuel)) (js_of_resource_folder uid_text json_string f)
  = Returns (js_of_resource_folder uid_text json_string f).
Proof.
  unfold js_of_resource_folder. destruct (rf_items f) as [| it its] eqn:Hits; [reflexivity |].
  unfold transform_item.
  change (get (JObj _) "type") with (Ok (JStr "folder")). cbn [of_result bind_run].
  change (is_str (JStr "folder") "http") with false.
  change (is_str (JStr "folder") "graphql") with false. cbn [bind_run].
  change (get (JObj _) "items")
    with (Ok (JArr (map (js_of_item uid_text json_string) (it :: its)))).
  cbn [of_result bind_run].
  change (get_opt (JArr ?l) "length") with (Ok (JNum (Z.of_nat (List.length l)))).
  cbn [of_result bind_run map]. rewrite truthy_length.
  cbn [transformItems_rec].
  rewrite (transformItems_settled (transformItems_rec fuel)
             (js_of_item uid_text json_string it :: map (js_of_item uid_text json_string) its)).
  - reflexivity.
  - constructor; [apply transform_request_item |].
    apply Forall_forall. intros x Hx. apply in_map_iff in Hx. destruct Hx as (y & <- & _).
    apply transform_request_item.
Qed.

Lemma transform_namespace_folder (fuel : nat) (f : namespace_folder) :
  transform_item (transformItems_rec (S (S fuel)))
    (js_of_namespace_folder uid_text json_string f)
  = Returns (js_of_namespace_folder uid_text json_string f).
Proof.
  unfold js_of_namespace_folder. destruct (nf_items f) as [| rf rfs] eqn:Hrfs; [reflexivity |].
  unfold transform_item.
  change (get (JObj _) "type") with (Ok (JStr "folder")). cbn [of_result bind_run].
  change (is_str (JStr "folder") "http") with false.
  change (is_str (JStr "folder") "graphql") with false. cbn [bind_run].
  change (get (JObj _) "items")
    with (Ok (JArr (map (js_of_resource_folder uid_text json_string) (rf :: rfs)))).
  cbn [of_result bind_run].
  change (get_opt (JArr ?l) "length") with (Ok (JNum (Z.of_nat (List.length l)))).
  cbn [of_result bind_run map]. rewrite truthy_length.
  change (transformItems_rec (S (S fuel)))
    with (transformItems_body (transformItems_rec (S fuel))).
  rewrite (transformItems_settled (transformItems_rec (S fuel))
             (js_of_resource_folder uid_text json_string rf
              :: map (js_of_resource_folder uid_text json_string) rfs)).
  - reflexivity.
  - constructor; [apply transform_resource_folder |].
    apply Forall_forall. intros x Hx. apply in_map_iff in Hx. destruct Hx as (y & <- & _).
    apply transform_resource_folder.
Qed.

(** The folders of a collection are at least two levels deep. *)
Lemma depth_folders (folders : list namespace_folder) :
  exists fuel,
    S (depth (JArr (map (js_of_namespace_folder uid_text json_string) folders)))
    = S (S fuel)
    /\ (folders <> [] -> exists fuel', fuel = S (S fuel')).
Proof.
  destruct folders as [| f folders].
  - exists 0. split; [reflexivity | intros H; contradiction].
  - assert (Hd : 2 <= depth (js_of_namespace_folder uid_text json_string f)).
    { unfold js_of_namespace_folder.
      match goal with
      | |- 2 <= depth (JObj ?m) =>
          assert (H : depth (JArr (map (js_of_resource_folder uid_text json_string)
                                       (nf_items f))) < depth (JObj m))
            by (apply (depth_member "items"); right; right; right; left; reflexivity)
      end.
      cbn [depth] in H |- *. lia. }
    pose proof (depth_element (js_of_namespace_folder uid_text json_string f)
                  (map (js_of_namespace_folder uid_text json_string) (f :: folders))
                  (or_introl eq_refl)) as Hlt.
    destruct (depth (JArr (map (js_of_namespace_folder uid_text json_string) (f :: folders))))
      as [| [| [| d]]]; try lia.
    exists (S (S d)). split; [reflexivity |]. intros _. exists d. reflexivity.
Qed.

Lemma folders_settled (folders : list namespace_folder) :
  hydrateSeq (JArr (map (js_of_namespace_folder uid_text json_string) folders))
  = Ok (JArr (map (js_of_namespace_folder uid_text json_string) folders))
  /\ transformItems (JArr (map (js_of_namespace_folder uid_text json_string) folders))
     = Returns (JArr (map (js_of_namespace_folder uid_text json_string) folders)).
Proof.
  unfold hydrateSeq, transformItems.
  destruct (depth_folders folders) as (fuel & -> & Hdeep).
  destruct folders as [| f folders]; [split; reflexivity |].
  destruct Hdeep as (fuel' & ->); [discriminate |].
  split.
  - change (hydrateSeq_rec (S (S (S (S fuel')))))
      with (hydrateSeq_body (hydrateSeq_rec (S (S (S fuel'))))).
    apply hydrateSeq_settled.
    apply Forall_forall. intros x Hx. apply in_map_iff in Hx. destruct Hx as (y & <- & _).
    intros i. apply hydrate_namespace_folder.
  - change (transformItems_rec (S (S (S (S fuel')))))
      with (transformItems_body (transformItems_rec (S (S (S fuel'))))).
    apply transformItems_settled.
    apply Forall_forall. intros x Hx. apply in_map_iff in Hx. destruct Hx as (y & <- & _).
    apply transform_namespace_folder.
Qed.

(** The two passes leave a collection as it was built. *)
Lemma brunoCollection_settled (collectionName baseUrl : string)
      (organizedItems : list namespace_folder) (w : world) :
  exists collection w',
    brunoCollection uid_text json_string collectionName baseUrl organizedItems w
    = Ok (collection, w')
    /\ transformItemsInCollection collection = Returns collection
    /\ hydrateSeqInCollection collection = Ok collection.
Proof.
  eexists. eexists. split; [reflexivity |].
  destruct (folders_settled organizedItems) as [Hhyd Htrans].
  split.
  - unfold transformItemsInCollection.
    change (get (JObj _) "items")
      with (Ok (JArr (map (js_of_namespace_folder uid_text json_string) organizedItems))).
    cbn [of_result bind_run]. rewrite Htrans. reflexivity.
  - unfold hydrateSeqInCollection.
    change (get (JObj _) "items")
      with (Ok (JArr (map (js_of_namespace_folder uid_text json_string) organizedItems))).
    cbn [bind]. rewrite Hhyd. reflexivity.
Qed.

End Built.

(** X21 (wordpressToBruno, transformItemsInCollection,
    hydrateSeqInCollection): the two passes that follow the construction of
    the collection leave it as it was built, whatever the folders hold: no
    item has the type [http] or [graphql], and every request has the
    sequence number 1.  So what [wordpressToBruno] hands to [validateSchema]
    is the collection built from the organized descriptors, and the run
    fails before that exactly when the loop over the routes does. *)
Theorem wordpressToBruno_collection_built (uid_text : nat -> string)
    (json_string : json_text -> string) (detailed : string -> jsval)
    (recover : string -> string -> jsval -> jsval -> world -> world)
    (opts : options) (baseUrl : string) :
  (forall (organizedItems : list namespace_folder) (w : world),
      exists collection w',
        brunoCollection uid_text json_string (collectionName opts) baseUrl organizedItems w
        = Ok (collection, w')
        /\ transformItemsInCollection collection = Returns collection
        /\ hydrateSeqInCollection collection = Ok collection)
  /\ forall (routes : jsval) (w : world),
       wordpressToBruno_collection detailed recover uid_text json_string opts baseUrl routes w
       = match (brunoItems <~ convert_routes detailed recover opts routes ;;
                organizedItems <~ organizeIntoFolders brunoItems ;;
                brunoCollection uid_text json_string (collectionName opts) baseUrl
                  organizedItems) w with
         | Ok (collection, w') => Returns (collection, w')
         | Throw e => Raises e
         | Stuck r => Halts r
         end.
Proof.
  split.
  - intros organizedItems w. apply brunoCollection_settled.
  - intros routes w. unfold wordpressToBruno_collection.
    unfold bindM at 1 3.
    destruct (convert_routes detailed recover opts routes w) as [[brunoItems w1] | |];
      try reflexivity.
    unfold bindM at 1 2.
    destruct (organizeIntoFolders brunoItems w1) as [[organizedItems w2] | |];
      try reflexivity.
    destruct (brunoCollection_settled uid_text json_string (collectionName opts) baseUrl
                organizedItems w2) as (collection & w' & -> & Htrans & Hhyd).
    rewrite Htrans. cbn [bind_run]. rewrite Hhyd. reflexivity.
Qed.

(** ** The loop over the routes *)

Lemma as_array_ok (v : jsval) (l : list jsval) : as_array v = Ok l -> v = JArr l.
Proof. destruct v; try discriminate. intros H. inversion H. reflexivity. Qed.

Lemma or_else_array (v : jsval) (l : list jsval) (x : jsval) :
  or_else v (JArr []) = JArr l -> In x l -> v = JArr l.
Proof.
  unfold or_else. destruct (truthy v); [intros H _; exact H |].
  intros H Hin. inversion H; subst. contradiction.
Qed.

Section Sources.

Variable detailed : string -> jsval.
Variable recover : string -> string -> jsval -> jsval -> world -> world.

Lemma convert_method_step (route : string) (endpoint schema : jsval)
      (items : list item) (method_ : jsval) (w : world) (items' : list item) (w' : world) :
  convert_method recover route endpoint schema items method_ w = Ok (items', w') ->
  items' = items
  \/ exists m brunoItem w2,
       method_ = JStr m /\ m <> "OPTIONS" /\ m <> "HEAD"
       /\ transformWordPressEndpoint route m endpoint schema w = Ok (brunoItem, w2)
       /\ items' = (items ++ [brunoItem])%list.
Proof.
  unfold convert_method. intros H.
  destruct (is_str method_ "OPTIONS" || is_str method_ "HEAD") eqn:Hskip.
  - apply ret_ok in H. left. exact (proj1 H).
  - destruct method_ as [| | b | n | m | l | o];
      try (apply bindM_ok in H; destruct H as (t & w1 & _ & H);
           apply ret_ok in H; left; exact (proj1 H)).
    apply orb_false_iff in Hskip. destruct Hskip as [Ho Hh]. cbn [is_str] in Ho, Hh.
    apply String.eqb_neq in Ho, Hh.
    destruct (transformWordPressEndpoint route m endpoint schema w)
      as [[brunoItem w2] | |] eqn:Hrun; try discriminate H.
    + inversion H; subst. right. exists m, brunoItem, w'. auto.
    + inversion H; subst. left. reflexivity.
Qed.

(** X22 (wordpressToBruno): every descriptor the loop over the routes
    collects comes from a route of the index that is not excluded and,
    when namespaces are given, has one of them as its namespace; from an
    endpoint of that route; and from a method of that endpoint that is
    neither [OPTIONS] nor [HEAD], for which the transformer returned it. *)
Theorem convert_routes_sources (opts : options) (routes : jsval) (w : world)
    (brunoItems : list item) (w' : world) :
  convert_routes detailed recover opts routes w = Ok (brunoItems, w') ->
  Forall (descriptor_source detailed opts routes) brunoItems.
Proof.
  intros Hrun. unfold convert_routes in Hrun.
  apply bindM_ok in Hrun. destruct Hrun as ([items processed] & w1 & Hloop & Hret).
  apply ret_ok in Hret. destruct Hret as [-> _]. cbn [fst].
  apply (forEachM_invariant
           (fun st : list item * list string =>
              Forall (descriptor_source detailed opts routes) (fst st))
           (convert_route detailed recover opts) (spread routes))
    with (s := ([], [])) (w := w) (s' := (items, processed)) (w' := w1);
    [| constructor | exact Hloop].
  intros [items0 processed0] [route routeData] wa [items1 processed1] wb Hentry Hinv Hstep.
  cbn [fst] in Hinv |- *. unfold convert_route in Hstep. cbn [fst snd] in Hstep.
  destruct (mem route processed0 || mem route (excludeRoutes opts)) eqn:Hskip.
  { apply ret_ok in Hstep. destruct Hstep as [Heq _]. inversion Heq; subst. exact Hinv. }
  apply orb_false_iff in Hskip. destruct Hskip as [_ Hexcluded].
  apply bindM_ok in Hstep. destruct Hstep as (included & w2 & Hincluded & Hstep).
  apply lift_ok in Hincluded. destruct Hincluded as [Hincluded _].
  destruct included; cbn [negb] in Hstep.
  2:{ apply ret_ok in Hstep. destruct Hstep as [Heq _]. inversion Heq; subst. exact Hinv. }
  assert (Hnamespace : forall namespaces,
             includeNamespaces opts = Some namespaces ->
             exists ns, In ns namespaces
                        /\ (get routeData "namespace" = Ok (JStr ns)
                            \/ match_route_namespace route = Some ns)).
  { intros namespaces Hsome. rewrite Hsome in Hincluded.
    destruct (get routeData "namespace") as [namespace | |]; cbn [bind] in Hincluded;
      try discriminate Hincluded.
    inversion Hincluded as [Hcond]. apply andb_prop in Hcond. destruct Hcond as [_ Hmem].
    unfold or_else in Hmem. destruct (truthy namespace).
    - destruct namespace as [| | b | n | ns | l | o]; try discriminate Hmem.
      exists ns. split; [apply mem_In; exact Hmem | left; reflexivity].
    - destruct (match_route_namespace route) as [ns |]; [| discriminate Hmem].
      exists ns. split; [apply mem_In; exact Hmem | right; reflexivity]. }
  apply bindM_ok in Hstep. destruct Hstep as (s1 & w3 & _ & Hstep).
  apply bindM_ok in Hstep. destruct Hstep as (schema & w4 & _ & Hstep).
  apply bindM_ok in Hstep. destruct Hstep as (e1 & w5 & He1 & Hstep).
  apply lift_ok in He1. destruct He1 as [He1 _].
  apply bindM_ok in Hstep. destruct Hstep as (endpoints0 & w6 & Hendpoints0 & Hstep).
  apply lift_ok in Hendpoints0. destruct Hendpoints0 as [Hendpoints0 _].
  apply bindM_ok in Hstep. destruct Hstep as (endpoints & w7 & Hendpoints & Hstep).
  apply lift_ok in Hendpoints. destruct Hendpoints as [Hendpoints _].
  apply as_array_ok in Hendpoints. subst endpoints0.
  apply bindM_ok in Hstep. destruct Hstep as (items2 & w8 & Hendloop & Hstep).
  apply ret_ok in Hstep. destruct Hstep as [Heq _]. inversion Heq; subst; clear Heq.
  assert (Hfrom : forall endpoint,
             In endpoint endpoints ->
             get_opt (if fetchSchemas opts then detailed route else JNull) "endpoints"
             = Ok (JArr endpoints)
             \/ get routeData "endpoints" = Ok (JArr endpoints)).
  { intros endpoint Hin. destruct (truthy e1).
    - left. inversion Hendpoints0; subst. exact He1.
    - right. destruct (get routeData "endpoints") as [e2 | |]; cbn [bind] in Hendpoints0;
        try discriminate Hendpoints0.
      inversion Hendpoints0 as [Hor].
      rewrite (or_else_array e2 endpoints endpoint Hor Hin). reflexivity. }
  apply (forEachM_invariant (Forall (descriptor_source detailed opts routes))
           (convert_endpoint recover route schema) endpoints)
    with (s := items0) (w := w7) (w' := w8); [| exact Hinv | exact Hendloop].
  intros items3 endpoint wc items4 wd Hendpoint Hinv3 Hend.
  unfold convert_endpoint in Hend.
  apply bindM_ok in Hend. destruct Hend as (methods0 & w9 & Hmethods0 & Hend).
  apply lift_ok in Hmethods0. destruct Hmethods0 as [Hmethods0 _].
  apply bindM_ok in Hend. destruct Hend as (methods & w10 & Hmethods & Hend).
  apply lift_ok in Hmethods. destruct Hmethods as [Hmethods _].
  apply as_array_ok in Hmethods.
  apply (forEachM_invariant (Forall (descriptor_source detailed opts routes))
           (convert_method recover route endpoint schema) methods)
    with (s := items3) (w := w10) (w' := wd); [| exact Hinv3 | exact Hend].
  intros items5 method_ we items6 wf Hmethod Hinv5 Hmstep.
  apply convert_method_step in Hmstep.
  destruct Hmstep as [-> | (m & brunoItem & wg & -> & Ho & Hh & Htransform & ->)];
    [exact Hinv5 |].
  apply Forall_app. split; [exact Hinv5 |]. constructor; [| constructor].
  exists route, routeData, endpoints, endpoint, methods, m, schema, we, wg.
  repeat split; try assumption.
  - exact (Hfrom endpoint Hendpoint).
  - rewrite Hmethods0. f_equal. exact (or_else_array _ _ _ Hmethods Hmethod).
Qed.

End Sources.

Lemma convert_routes_sources_witness :
  exists brunoItems w',
    convert_routes (fun _ => JNull) (fun _ _ _ _ w => w) sample_options sample_routes w0
    = Ok (brunoItems, w')
    /\ map (fun it => url (request_of it)) brunoItems = ["{{baseUrl}}/wp/v2/posts"]
    /\ Forall (descriptor_source (fun _ => JNull) sample_options sample_routes) brunoItems.
Proof.
  assert (Hrun : exists brunoItems w',
             convert_routes (fun _ => JNull) (fun _ _ _ _ w => w) sample_options
               sample_routes w0 = Ok (brunoItems, w')
             /\ map (fun it => url (request_of it)) brunoItems
                = ["{{baseUrl}}/wp/v2/posts"])
    by (eexists; eexists; split; vm_compute; reflexivity).
  destruct Hrun as (brunoItems & w' & Hrun & Hurls).
  exists brunoItems, w'. split; [exact Hrun | split; [exact Hurls |]].
  exact (convert_routes_sources (fun _ => JNull) (fun _ _ _ _ w => w) sample_options
           sample_routes w0 brunoItems w' Hrun).
Defined.

(** ** Items of the types [http] and [graphql] *)














(** ** Example Value Synthesizer: precedence *)








(** ** Endpoint Transformer: what it throws on *)

(** *** Reading and printing *)















(** *** Types as keys of the table of replacements *)




(** *** Loops that stop at the first exception *)






(** *** The synthesizer *)








Lemma bindM_ret {A B : Type} (a : A) (k : A -> M B) (w : world) :
  bindM (ret a) k w = k a w.
Proof. reflexivity. Qed.



(** *** Query parameters *)













(** *** The request body *)














(** *** The transformer *)



(** ** Exceptions in the loop over the routes *)

Lemma forEachM_no_throw {A S : Type} (f : S -> A -> M S) (l : list A) :
  (forall s a w e, In a l -> f s a w <> Throw e) ->
  forall s w e, forEachM f l s w <> Throw e.
Proof.
  induction l as [| a l IH]; intros Hstep s w e.
  - discriminate.
  - cbn [forEachM]. unfold bindM.
    destruct (f s a w) as [[s1 w1] | e1 | r] eqn:Hf.
    + apply IH. intros s' a' w' e' Hin. apply Hstep. right. exact Hin.
    + exfalso. exact (Hstep s a w e1 (or_introl eq_refl) Hf).
    + discriminate.
Qed.

Lemma get_opt_no_throw (v : jsval) (k : string) : exists x, get_opt v k = Ok x.
Proof.
  destruct v as [| | b | n | s | l | m]; cbn [get_opt get]; try (eexists; reflexivity).
  - destruct (String.eqb k "length"); [eexists; reflexivity |].
    destruct (array_index k); eexists; reflexivity.
  - destruct (String.eqb k "length"); [eexists; reflexivity |].
    destruct (array_index k); eexists; reflexivity.
Qed.

Section Robust.

Variable detailed : string -> jsval.
Variable recover : string -> string -> jsval -> jsval -> world -> world.

Lemma convert_method_no_throw (route : string) (endpoint schema : jsval)
      (items : list item) (method_ : jsval) (w : world) (e : js_error) :
  plain method_ = true ->
  convert_method recover route endpoint schema items method_ w <> Throw e.
Proof.
  intros Hplain. unfold convert_method.
  destruct (is_str method_ "OPTIONS" || is_str method_ "HEAD"); [discriminate |].
  destruct (to_string_plain method_ Hplain) as (t & Ht).
  destruct method_ as [| | b | n | m | l | o];
    try (unfold bindM, lift; rewrite Ht; discriminate).
  destruct (transformWordPressEndpoint route m endpoint schema w) as [[it w1] | |];
    discriminate.
Qed.

Lemma convert_endpoint_no_throw (route : string) (schema : jsval)
      (items : list item) (endpoint : jsval) (w : world) (e : js_error) :
  methods_ok endpoint = true ->
  convert_endpoint recover route schema items endpoint w <> Throw e.
Proof.
  intros Hok. unfold convert_endpoint.
  assert (Hnn : endpoint <> JUndefined /\ endpoint <> JNull)
    by (split; intros ->; discriminate Hok).
  unfold bindM at 1. unfold lift at 1.
  rewrite (get_prop endpoint "methods" (proj1 Hnn) (proj2 Hnn)).
  assert (Harr : exists methods,
             as_array (or_else (prop endpoint "methods") (JArr [])) = Ok methods
             /\ Forall (fun x => plain x = true) methods).
  { assert (Hm : match prop endpoint "methods" with
                 | JArr methods => forallb plain methods
                 | v => negb (truthy v)
                 end = true)
      by (unfold methods_ok in Hok; destruct endpoint; try discriminate Hok; exact Hok).
    destruct (prop endpoint "methods") as [| | b | z | s | l | m] eqn:Hp;
      try (apply negb_true_iff in Hm; unfold or_else; rewrite Hm;
           exists []; split; [reflexivity | constructor]).
    exists l. split; [reflexivity |].
    apply Forall_forall. intros x Hx.
    rewrite forallb_forall in Hm. exact (Hm x Hx). }
  destruct Harr as (methods & Harr & Hall).
  unfold bindM at 1. unfold lift at 1. rewrite Harr.
  apply forEachM_no_throw. intros s a w1 e1 Hin. apply convert_method_no_throw.
  rewrite Forall_forall in Hall. exact (Hall a Hin).
Qed.

Lemma endpoints_ok_array (v : jsval) :
  endpoints_ok v = true ->
  exists endpoints,
    or_else v (JArr []) = JArr endpoints
    /\ (truthy v = true -> v = JArr endpoints)
    /\ Forall (fun x => methods_ok x = true) endpoints.
Proof.
  intros Hok. unfold endpoints_ok in Hok. unfold or_else.
  destruct v as [| | [|] | z | s | l | m]; try discriminate Hok;
    try (exists []; split; [reflexivity | split; [discriminate | constructor]]).
  - cbn [truthy] in Hok |- *. apply negb_true_iff in Hok. rewrite Hok.
    exists []. split; [reflexivity | split; [discriminate | constructor]].
  - cbn [truthy] in Hok |- *. apply negb_true_iff in Hok. rewrite Hok.
    exists []. split; [reflexivity | split; [discriminate | constructor]].
  - exists l. split; [reflexivity | split; [reflexivity |]].
    apply Forall_forall. intros x Hx.
    rewrite forallb_forall in Hok. exact (Hok x Hx).
Qed.

Lemma convert_route_no_throw (opts : options) (st : list item * list string)
      (entry : string * jsval) (w : world) (e : js_error) :
  route_ok detailed opts entry = true ->
  convert_route detailed recover opts st entry w <> Throw e.
Proof.
  intros Hok. destruct entry as [route routeData]. unfold route_ok in Hok.
  cbn [fst snd] in Hok.
  assert (Hnn : routeData <> JUndefined /\ routeData <> JNull)
    by (split; intros ->; discriminate Hok).
  assert (Hok' : match get_opt (if fetchSchemas opts then detailed route else JNull)
                         "endpoints" with
                 | Ok e1 => if truthy e1 then endpoints_ok e1
                            else endpoints_ok (prop routeData "endpoints")
                 | _ => false
                 end = true)
    by (destruct routeData; try exact Hok; discriminate Hok).
  clear Hok.
  pose proof (fun k => get_prop routeData k (proj1 Hnn) (proj2 Hnn)) as Hget.
  unfold convert_route. cbn [fst snd].
  destruct (mem route (snd st) || mem route (excludeRoutes opts)); [discriminate |].
  (* the namespace filter *)
  unfold bindM at 1.
  match goal with
  | |- context [lift ?r w] => assert (Hr : exists b, r = Ok b)
  end.
  { destruct (includeNamespaces opts) as [namespaces |]; [| exists true; reflexivity].
    rewrite Hget. eexists. reflexivity. }
  destruct Hr as (included & ->). cbn [lift].
  destruct included; cbn [negb]; [| discriminate].
  (* the schema *)
  unfold bindM at 1.
  destruct (get_opt_no_throw (if fetchSchemas opts then detailed route else JNull) "schema")
    as (s1 & ->).
  cbn [lift]. unfold bindM at 1.
  match goal with
  | |- context [lift ?r w] => assert (Hr : exists b, r = Ok b)
  end.
  { destruct (truthy s1); [eexists; reflexivity |]. rewrite Hget. eexists. reflexivity. }
  destruct Hr as (schema & ->). cbn [lift].
  (* the endpoints *)
  unfold bindM at 1.
  destruct (get_opt (if fetchSchemas opts then detailed route else JNull) "endpoints")
    as [e1 | |] eqn:He1; try discriminate Hok'.
  cbn [lift]. unfold bindM at 1.
  match goal with
  | |- context [lift ?r w] =>
      assert (Hr : exists endpoints,
                 r = Ok (JArr endpoints)
                 /\ Forall (fun x => methods_ok x = true) endpoints)
  end.
  { destruct (truthy e1) eqn:Ht.
    - destruct (endpoints_ok_array e1 Hok') as (endpoints & _ & Harr & Hall).
      exists endpoints. rewrite (Harr Ht). split; [reflexivity | exact Hall].
    - destruct (endpoints_ok_array _ Hok') as (endpoints & Hor & _ & Hall).
      exists endpoints. rewrite Hget. cbn [bind]. rewrite Hor.
      split; [reflexivity | exact Hall]. }
  destruct Hr as (endpoints & -> & Hall). cbn [lift].
  unfold bindM at 1. cbn [as_array lift].
  unfold bindM at 1.
  destruct (forEachM (convert_endpoint recover route schema) endpoints (fst st) w)
    as [[items w1] | e1' | r] eqn:Hloop; try discriminate.
  exfalso. revert Hloop. apply forEachM_no_throw.
  intros s a w1 e2 Hin. apply convert_endpoint_no_throw.
  rewrite Forall_forall in Hall. exact (Hall a Hin).
Qed.

(** X24 (wordpressToBruno): when the index has the shape the loop reads
    (no route data and no endpoint is [null], endpoints and methods are
    lists or falsy, and every method is a value that prints, as a string
    is), the loop over the routes raises no exception, whatever the
    arguments and schemas hold: an endpoint the transformer cannot handle
    is skipped, with a message that names the method. *)
Theorem convert_routes_never_throws (opts : options) (routes : jsval) (w : world)
    (e : js_error) :
  forallb (route_ok detailed opts) (spread routes) = true ->
  convert_routes detailed recover opts routes w <> Throw e.
Proof.
  intros Hok. unfold convert_routes. unfold bindM.
  destruct (forEachM (convert_route detailed recover opts) (spread routes) ([], []) w)
    as [[st w1] | e1 | r] eqn:Hloop; try discriminate.
  exfalso. revert Hloop. apply forEachM_no_throw.
  intros s a w1 e2 Hin. apply convert_route_no_throw.
  rewrite forallb_forall in Hok. exact (Hok a Hin).
Qed.

End Robust.

Lemma convert_routes_never_throws_witness :
  convert_routes (fun _ => JNull) (fun _ _ _ _ w => w) sample_options sample_routes w0
  <> Throw TypeError.
Proof.
  exact (convert_routes_never_throws (fun _ => JNull) (fun _ _ _ _ w => w) sample_options
           sample_routes w0 TypeError eq_refl).
Defined.

(** ** The names of the folders *)

Lemma take_while_all_chars (p : ascii -> bool) (s a b : string) :
  Str.take_while p s = (a, b) -> all_chars p a = true.
Proof.
  revert a b. induction s as [| c s IH]; intros a b H.
  - cbn in H. inversion H. reflexivity.
  - cbn [Str.take_while] in H. destruct (p c) eqn:Hc.
    + destruct (Str.take_while p s) as [a' b'] eqn:Hs. inversion H; subst.
      cbn [all_chars]. rewrite Hc. exact (IH a' b eq_refl).
    + inversion H. reflexivity.
Qed.

Lemma match_namespace_at_shape (s ns r : string) :
  Str.match_namespace_at s = Some (ns, r) ->
  (exists seg ds,
      ns = seg ++ "/v" ++ ds
      /\ Str.is_empty seg = false
      /\ all_chars (fun c => negb (Ascii.eqb c "/"%char)) seg = true
      /\ Str.is_empty ds = false
      /\ all_chars Str.is_digit ds = true)
  /\ resource_name r.
Proof.
  unfold Str.match_namespace_at.
  destruct (Str.strip_prefix "/" s) as [r0 |]; [| discriminate].
  destruct (Str.take_while (fun c => negb (Ascii.eqb c "/"%char)) r0) as [seg r1] eqn:Hseg.
  destruct (Str.is_empty seg) eqn:Hsege; [discriminate |].
  destruct (Str.strip_prefix "/v" r1) as [r2 |]; [| discriminate].
  destruct (Str.take_while Str.is_digit r2) as [ds r3] eqn:Hds.
  destruct (Str.is_empty ds) eqn:Hdse; [discriminate |].
  destruct (Str.strip_prefix "/" r3) as [r4 |]; [| discriminate].
  destruct (Str.take_while (fun c => negb (Str.char_in "/:?" c)) r4) as [res r5] eqn:Hres.
  destruct (Str.is_empty res) eqn:Hrese; [discriminate |].
  intros H. inversion H; subst. split.
  - exists seg, ds. repeat split; try assumption.
    + exact (take_while_all_chars _ _ _ _ Hseg).
    + exact (take_while_all_chars _ _ _ _ Hds).
  - split; [exact Hrese | exact (take_while_all_chars _ _ _ _ Hres)].
Qed.

Lemma match_namespace_shape (s ns r : string) :
  Str.match_namespace s = Some (ns, r) ->
  (exists seg ds,
      ns = seg ++ "/v" ++ ds
      /\ Str.is_empty seg = false
      /\ all_chars (fun c => negb (Ascii.eqb c "/"%char)) seg = true
      /\ Str.is_empty ds = false
      /\ all_chars Str.is_digit ds = true)
  /\ resource_name r.
Proof.
  induction s as [| c s IH]; cbn [Str.match_namespace].
  - destruct (Str.match_namespace_at "") as [m |] eqn:Hat; [| discriminate].
    intros H. inversion H; subst. exact (match_namespace_at_shape _ _ _ Hat).
  - destruct (Str.match_namespace_at (String c s)) as [m |] eqn:Hat; [| exact IH].
    intros H. inversion H; subst. exact (match_namespace_at_shape _ _ _ Hat).
Qed.

Lemma digits_without_dash (a b : string) :
  all_chars Str.is_digit (a ++ "-v" ++ b) = false.
Proof.
  induction a as [| c a IH]; [reflexivity |].
  change (all_chars Str.is_digit (String c (a ++ "-v" ++ b)) = false).
  cbn [all_chars]. rewrite IH. apply andb_false_r.
Qed.

(** A folder name is the name of one namespace. *)
Lemma dashed_injective (seg1 : string) :
  forall seg2 ds1 ds2,
    seg1 ++ "-v" ++ ds1 = seg2 ++ "-v" ++ ds2 ->
    all_chars Str.is_digit ds1 = true ->
    all_chars Str.is_digit ds2 = true ->
    seg1 = seg2 /\ ds1 = ds2.
Proof.
  induction seg1 as [| c seg1 IH]; intros seg2 ds1 ds2 Heq Hd1 Hd2.
  - destruct seg2 as [| c2 seg2].
    + cbn in Heq. inversion Heq. split; reflexivity.
    + cbn in Heq. inversion Heq as [[Hc Hrest]]. subst c2.
      destruct seg2 as [| c3 seg2].
      * cbn in Hrest. inversion Hrest.
      * cbn in Hrest. inversion Hrest as [[Hc3 Hds1]].
        rewrite Hds1 in Hd1.
        change (all_chars Str.is_digit (seg2 ++ "-v" ++ ds2) = true) in Hd1.
        rewrite digits_without_dash in Hd1. discriminate Hd1.
  - destruct seg2 as [| c2 seg2].
    + cbn in Heq. inversion Heq as [[Hc Hrest]]. subst c.
      destruct seg1 as [| c3 seg1].
      * cbn in Hrest. inversion Hrest.
      * cbn in Hrest. inversion Hrest as [[Hc3 Hds2]].
        rewrite <- Hds2 in Hd2.
        change (all_chars Str.is_digit (seg1 ++ "-v" ++ ds1) = true) in Hd2.
        rewrite digits_without_dash in Hd2. discriminate Hd2.
    + cbn in Heq. inversion Heq as [[Hc Hrest]]. subst c2.
      destruct (IH seg2 ds1 ds2 Hrest Hd1 Hd2) as [-> ->]. split; reflexivity.
Qed.

Lemma NoDup_map_injective {A B : Type} (f : A -> B) (l : list A) :
  (forall x y, In x l -> In y l -> f x = f y -> x = y) ->
  NoDup l -> NoDup (map f l).
Proof.
  intros Hinj. induction 1 as [| x l Hx _ IH]; [constructor |].
  cbn [map]. constructor.
  - intros Hin. apply in_map_iff in Hin. destruct Hin as (y & Hfy & Hy).
    assert (y = x) by (apply Hinj; [right; exact Hy | left; reflexivity | exact Hfy]).
    subst y. exact (Hx Hy).
  - apply IH. intros a b Ha Hb. apply Hinj; right; assumption.
Qed.

(** X25 (organizeIntoFolders): the namespace folders have pairwise distinct
    names of the form [seg-vN], without a slash; the name of a resource
    folder is not empty and has no slash, colon or question mark. *)
Theorem organizeIntoFolders_folder_names (items : list item) (w : world) :
  exists folders w',
    organizeIntoFolders items w = Ok (folders, w')
    /\ NoDup (map nf_name folders)
    /\ Forall (fun f =>
                 namespace_name (nf_name f)
                 /\ all_chars (fun c => negb (Ascii.eqb c "/"%char)) (nf_name f) = true
                 /\ Forall (fun rf => resource_name (rf_name rf)) (nf_items f)) folders.
Proof.
  destruct (organize_loop items [] [] w) as (m & w' & Hrun & Hinv).
  { split; constructor. }
  simpl in Hinv. destruct Hinv as (Hkeys & Hall).
  exists (map snd m), w'. split; [| split].
  - unfold organizeIntoFolders, bindM. rewrite Hrun. reflexivity.
  - assert (Hnames : map nf_name (map snd m)
                     = map Str.slashes_to_dashes (namespaces_of items)).
    { rewrite <- Hkeys, !map_map. apply map_ext_in. intros [ns f] Hin.
      rewrite Forall_forall in Hall. exact (proj1 (Hall _ Hin)). }
    rewrite Hnames. apply NoDup_map_injective; [| apply first_seen_NoDup].
    intros ns1 ns2 H1 H2 Heq.
    apply namespaces_of_In in H1, H2.
    destruct H1 as (it1 & r1 & _ & Hr1). destruct H2 as (it2 & r2 & _ & Hr2).
    destruct (match_namespace_shape _ _ _ Hr1)
      as [(seg1 & ds1 & -> & _ & Hs1 & _ & Hd1) _].
    destruct (match_namespace_shape _ _ _ Hr2)
      as [(seg2 & ds2 & -> & _ & Hs2 & _ & Hd2) _].
    rewrite !slashes_to_dashes_app in Heq.
    rewrite (slashes_to_dashes_none seg1 Hs1), (slashes_to_dashes_none seg2 Hs2) in Heq.
    rewrite (slashes_to_dashes_none ds1), (slashes_to_dashes_none ds2) in Heq.
    + destruct (dashed_injective seg1 seg2 ds1 ds2 Heq Hd1 Hd2) as [-> ->]. reflexivity.
    + eapply all_chars_weaken; [| exact Hd2]. intros c. apply digit_not. reflexivity.
    + eapply all_chars_weaken; [| exact Hd1]. intros c. apply digit_not. reflexivity.
  - apply Forall_forall. intros f Hf.
    apply in_map_iff in Hf. destruct Hf as ([ns f'] & <- & Hin).
    rewrite Forall_forall in Hall.
    destruct (Hall _ Hin) as (Hname & Hrnames & _). cbn [fst snd] in *.
    assert (Hns : In ns (namespaces_of items)).
    { rewrite <- Hkeys. apply in_map_iff. exists (ns, f'). split; [reflexivity | exact Hin]. }
    apply namespaces_of_In in Hns. destruct Hns as (it & r & _ & Hroute).
    destruct (match_namespace_shape _ _ _ Hroute)
      as [(seg & ds & -> & Hsege & Hs & Hdse & Hd) _].
    assert (Hds : all_chars (fun c => negb (Ascii.eqb c "/"%char)) ds = true).
    { eapply all_chars_weaken; [| exact Hd]. intros c. apply digit_not. reflexivity. }
    assert (Hdashed : nf_name f' = seg ++ "-v" ++ ds).
    { rewrite Hname, !slashes_to_dashes_app.
      rewrite (slashes_to_dashes_none seg Hs), (slashes_to_dashes_none ds Hds). reflexivity. }
    split; [| split].
    + exists seg, ds. repeat split; assumption.
    + rewrite Hdashed. clear -Hs Hds.
      induction seg as [| c seg IH]; [exact Hds |].
      change (all_chars (fun c0 => negb (Ascii.eqb c0 "/"%char))
                (String c (seg ++ "-v" ++ ds)) = true).
      cbn [all_chars] in Hs |- *. apply andb_prop in Hs. destruct Hs as [Hc Hs].
      rewrite Hc. exact (IH Hs).
    + apply Forall_forall. intros rf Hrf.
      assert (Hrn : In (rf_name rf) (map rf_name (nf_items f')))
        by (apply in_map_iff; exists rf; split; [reflexivity | exact Hrf]).
      rewrite Hrnames in Hrn.
      apply resources_of_In in Hrn. destruct Hrn as (it' & _ & Hroute').
      exact (proj2 (match_namespace_shape _ _ _ Hroute')).
Qed.
